(** * ai-reviewer: the repository-analysis pipeline, verified

    A shallow embedding of [app/codebase.py], [app/summarizer.py] and
    [app/report.py].  Python [str] values are [string]s whose characters are
    the code points below 256 (what [read_text] yields through its latin-1
    fallback); Python [int]s are [Z] and [float]s are the kernel's binary64
    floats; lists are [list]s; the operations of the
    Python runtime the code calls ([str.splitlines], [str.strip], [re.match],
    [list.sort], ...) are written out next to the functions that use them. *)

From Stdlib Require Import Bool List ZArith Lia Ascii String DecimalString.
From Stdlib Require Import Permutation Sorted.
From Stdlib Require Import Uint63 Floats.
Import ListNotations.

Open Scope string_scope.
Open Scope Z_scope.

(** ** Characters and strings of the Python runtime *)

Module Text.

Definition code (c : ascii) : N := N_of_ascii c.

Definition in_range (lo hi : N) (c : ascii) : bool :=
  (N.leb lo (code c) && N.leb (code c) hi)%bool.

(** [str.isspace] on one character, which is also [\s] of [re] on [str]
    patterns: TAB..CR, FS..US, space, NEL and NBSP below 256. *)
Definition is_space (c : ascii) : bool :=
  (in_range 9 13 c || in_range 28 32 c
   || N.eqb (code c) 133 || N.eqb (code c) 160)%bool.

(** The class [[A-Za-z0-9_]] of the patterns. *)
Definition is_ident (c : ascii) : bool :=
  (in_range 65 90 c || in_range 97 122 c || in_range 48 57 c
   || N.eqb (code c) 95)%bool.

(** [\w] of [re] on [str] patterns: alphanumeric code points and the
    underscore; below 256 these are the identifier characters, the letters
    and numeric characters of the Latin-1 supplement. *)
Definition is_word (c : ascii) : bool :=
  (is_ident c
   || N.eqb (code c) 170 || N.eqb (code c) 178 || N.eqb (code c) 179
   || N.eqb (code c) 181 || N.eqb (code c) 185 || N.eqb (code c) 186
   || in_range 188 190 c || in_range 192 214 c || in_range 216 246 c
   || in_range 248 255 c)%bool.

(** The line boundaries of [str.splitlines] (CR LF is handled by the
    splitter itself). *)
Definition is_linebreak (c : ascii) : bool :=
  (in_range 10 13 c || in_range 28 30 c || N.eqb (code c) 133)%bool.

(** [str.lower] on one character. *)
Definition lower_char (c : ascii) : ascii :=
  if (in_range 65 90 c
      || (in_range 192 222 c && negb (N.eqb (code c) 215)))%bool
  then ascii_of_N (code c + 32) else c.

Fixpoint lower (s : string) : string :=
  match s with
  | EmptyString => EmptyString
  | String c s' => String (lower_char c) (lower s')
  end.

(** [not s] for a str, [not l] for a list. *)
Definition is_empty (s : string) : bool :=
  match s with EmptyString => true | _ => false end.

Definition is_nil {A} (l : list A) : bool :=
  match l with nil => true | _ => false end.

(** [str.lstrip()], [str.rstrip()] and [str.strip()] without argument. *)
Fixpoint lstrip (s : string) : string :=
  match s with
  | String c s' => if is_space c then lstrip s' else s
  | EmptyString => EmptyString
  end.

Fixpoint rstrip (s : string) : string :=
  match s with
  | EmptyString => EmptyString
  | String c s' =>
      let r := rstrip s' in
      if (is_empty r && is_space c)%bool then EmptyString else String c r
  end.

Definition strip (s : string) : string := rstrip (lstrip s).

(** [len(s)] and [s.count(ch)] for a one-character [ch]. *)
Definition len (s : string) : Z := Z.of_nat (String.length s).

Fixpoint count (ch : ascii) (s : string) : Z :=
  match s with
  | EmptyString => 0
  | String c s' => (if Ascii.eqb c ch then 1 else 0) + count ch s'
  end.

(** [sep.join(parts)]. *)
Definition join (sep : string) (parts : list string) : string :=
  String.concat sep parts.

(** [str.splitlines()]: [cur] is the line being read. *)
Fixpoint splitlines_from (cur s : string) : list string :=
  match s with
  | EmptyString => if is_empty cur then [] else [cur]
  | String c s' =>
      if is_linebreak c then
        match c, s' with
        | "013"%char, String "010"%char s'' => cur :: splitlines_from "" s''
        | _, _ => cur :: splitlines_from "" s'
        end
      else splitlines_from (cur ++ String c "") s'
  end.

Definition splitlines (s : string) : list string := splitlines_from "" s.

(** [str(n)] for [n >= 0], and the format [f"{n:04}"]: sign, then the digits
    padded with zeros to a total width of at least four. *)
Definition digits (n : Z) : string :=
  NilZero.string_of_uint (N.to_uint (Z.to_N n)).

Fixpoint zeros (k : nat) : string :=
  match k with O => "" | S k' => String "0" (zeros k') end.

Definition zfill (width : nat) (d : string) : string :=
  zeros (width - String.length d) ++ d.

Definition format_04 (n : Z) : string :=
  if n <? 0 then String "-" (zfill 3 (digits (- n))) else zfill 4 (digits n).

End Text.

(** ** [summarizer.py]: the chunker *)

Module Chunker.
Import Text.

Record CodeChunk := mkCodeChunk {
  text : string;
  start_line : Z;
  end_line : Z
}.

(** The state of the loop of [_chunk_text]. *)
Record state := mkState {
  chunks : list CodeChunk;
  current_lines : list string;
  current_tokens : Z;
  chunk_start_line : Z
}.

Section WithEncoding.

(** [len(self.encoding.encode(s))] of the tokenizer, [None] when [encode]
    raises [ValueError] (called as it is here, tiktoken refuses a text that
    spells one of its special tokens), and [settings.max_tokens_per_chunk]. *)
Variable encode_len : string -> option nat.
Variable max_tokens : Z.

Definition newline : string := String "010" "".

Definition formatted (line_number : Z) (line : string) : string :=
  format_04 line_number ++ ": " ++ line.

Definition token_count (line_number : Z) (line : string) : option Z :=
  option_map Z.of_nat (encode_len (formatted line_number line ++ newline)).

(** One iteration of [for line_number, line in enumerate(lines, start=1)];
    [None] when the tokenizer raises. *)
Definition chunk_step (line_number : Z) (line : string) (st : state)
  : option state :=
  match token_count line_number line with
  | None => None
  | Some tc =>
      let st1 :=
        if (negb (is_nil (current_lines st))
            && (current_tokens st + tc >? max_tokens))%bool
        then mkState
               (chunks st ++
                  [mkCodeChunk (join newline (current_lines st))
                               (chunk_start_line st) (line_number - 1)])
               [] 0 line_number
        else st in
      let st2 :=
        if is_nil (current_lines st1)
        then mkState (chunks st1) (current_lines st1) (current_tokens st1)
                     line_number
        else st1 in
      Some (mkState (chunks st2)
                    (current_lines st2 ++ [formatted line_number line])
                    (current_tokens st2 + tc)
                    (chunk_start_line st2))
  end.

Fixpoint chunk_loop (line_number : Z) (lines : list string) (st : state)
  : option state :=
  match lines with
  | [] => Some st
  | line :: rest =>
      match chunk_step line_number line st with
      | None => None
      | Some st' => chunk_loop (line_number + 1) rest st'
      end
  end.

Definition chunk_lines (lines : list string) : option (list CodeChunk) :=
  match chunk_loop 1 lines (mkState [] [] 0 1) with
  | None => None
  | Some st =>
      Some (if negb (is_nil (current_lines st))
            then (chunks st ++
                    [mkCodeChunk (join newline (current_lines st))
                                 (chunk_start_line st)
                                 (Z.of_nat (List.length lines))])%list
            else chunks st)
  end.

(** [_chunk_text]: the chunks it returns, or [None] when the tokenizer
    raises on one of the decorated lines. *)
Definition _chunk_text (text : string) : option (list CodeChunk) :=
  if is_empty text then Some [] else chunk_lines (splitlines text).

(** *** What the chunks are measured against *)

(** The decorated lines numbered [from], [from + 1], ... *)
Fixpoint decorate (from : Z) (lines : list string) : list string :=
  match lines with
  | [] => []
  | l :: ls => formatted from l :: decorate (from + 1) ls
  end.

(** The tokenizer accepts every decorated line of a run numbered from
    [from]. *)
Fixpoint accepted (from : Z) (lines : list string) : bool :=
  match lines with
  | [] => true
  | l :: ls =>
      match token_count from l with
      | Some _ => accepted (from + 1) ls
      | None => false
      end
  end.

(** The token count of a line the tokenizer accepts. *)
Definition line_cost (from : Z) (line : string) : Z :=
  match token_count from line with
  | Some tc => tc
  | None => 0
  end.

(** The token total of a run of lines numbered from [from]. *)
Fixpoint total_tokens (from : Z) (lines : list string) : Z :=
  match lines with
  | [] => 0
  | l :: ls => line_cost from l + total_tokens (from + 1) ls
  end.

(** Lines [a..b] (1-based, inclusive) of a file. *)
Definition line_range (lines : list string) (a b : Z) : list string :=
  firstn (Z.to_nat (b - a + 1)) (skipn (Z.to_nat (a - 1)) lines).

(** The chunks' line ranges tile [from .. upto]: ascending, each chunk
    non-empty, the next one starting right after the previous one ends. *)
Fixpoint tiles (from : Z) (cs : list CodeChunk) (upto : Z) : Prop :=
  match cs with
  | [] => from = upto + 1
  | c :: cs' =>
      start_line c = from /\ from <= end_line c /\
      tiles (end_line c + 1) cs' upto
  end.

(** A run of lines respects the budget, or is one oversized line. *)
Definition within_budget (from : Z) (g : list string) : Prop :=
  total_tokens from g <= max_tokens \/
  (exists l, g = [l] /\ line_cost from l > max_tokens).

(** [chunked from lines cs]: [cs] cuts [lines] (numbered from [from]) into
    consecutive non-empty runs, one chunk per run, each within budget. *)
Inductive chunked : Z -> list string -> list CodeChunk -> Prop :=
| chunked_nil : forall from, chunked from [] []
| chunked_cons : forall from g rest cs,
    g <> [] ->
    within_budget from g ->
    chunked (from + Z.of_nat (List.length g)) rest cs ->
    chunked from (g ++ rest)
            (mkCodeChunk (join newline (decorate from g)) from
                         (from + Z.of_nat (List.length g) - 1) :: cs).

(** The loop invariant of [_chunk_text] after the lines [done]. *)
Definition chunk_inv (done : list string) (st : state) : Prop :=
  exists closed cur,
    done = (closed ++ cur)%list /\
    chunked 1 closed (chunks st) /\
    current_lines st = decorate (1 + Z.of_nat (List.length closed)) cur /\
    current_tokens st = total_tokens (1 + Z.of_nat (List.length closed)) cur /\
    (cur <> [] ->
     chunk_start_line st = 1 + Z.of_nat (List.length closed) /\
     within_budget (1 + Z.of_nat (List.length closed)) cur).

End WithEncoding.
End Chunker.

(** ** The fragment of [re] the patterns of [codebase.py] use *)

Module Regex.
Import Text.

(** Patterns.  Repetition is only ever applied to a character class in the
    source, so [Star] and [Plus] take one. *)
Inductive re : Type :=
| Bol                              (* ^ *)
| WordBoundary                     (* \b *)
| Lit (s : string)                 (* literal text *)
| Star (p : ascii -> bool)         (* [p]*, greedy *)
| Plus (p : ascii -> bool)         (* [p]+, greedy *)
| Opt (r : re)                     (* r?, greedy *)
| Alt (r1 r2 : re)                 (* r1|r2 *)
| Seq (r1 r2 : re)                 (* r1 r2 *)
| Group (n : nat) (r : re).        (* (r), the n-th capturing group *)

Declare Scope re_scope.
Delimit Scope re_scope with re.
Bind Scope re_scope with re.
Infix "&" := Seq (at level 60, right associativity) : re_scope.
Infix "||" := Alt : re_scope.

Definition captures := list (nat * string).

Definition group (n : nat) (g : captures) : option string :=
  match find (fun p => Nat.eqb (fst p) n) g with
  | Some (_, s) => Some s
  | None => None
  end.

(** The cursor is the text before it, last character first, and the text
    after it. *)
Definition word_at (s : string) : bool :=
  match s with String c _ => is_word c | EmptyString => false end.

Fixpoint skip_lit (lit bef aft : string) : option (string * string) :=
  match lit, aft with
  | EmptyString, _ => Some (bef, aft)
  | String a lit', String c aft' =>
      if Ascii.eqb a c then skip_lit lit' (String c bef) aft' else None
  | String _ _, EmptyString => None
  end.

Fixpoint rev_onto (s acc : string) : string :=
  match s with
  | EmptyString => acc
  | String c s' => rev_onto s' (String c acc)
  end.

Fixpoint take (n : nat) (s : string) : string :=
  match n, s with
  | S n', String c s' => String c (take n' s')
  | _, _ => EmptyString
  end.

(** The text read between two cursors of one scan. *)
Definition consumed (bef bef' : string) : string :=
  rev_onto (take (String.length bef' - String.length bef) bef') "".

Section Backtracking.
Variable A : Type.

(** What is still to be matched after a sub-pattern: it receives the cursor
    and the groups, and fails with [None] to make the sub-pattern try its
    next alternative. *)
Definition cont := string -> string -> captures -> option A.

Fixpoint star (p : ascii -> bool) (k : cont) (bef aft : string)
    (g : captures) {struct aft} : option A :=
  match aft with
  | String c aft' =>
      if p c then
        match star p k (String c bef) aft' g with
        | Some r => Some r
        | None => k bef aft g
        end
      else k bef aft g
  | EmptyString => k bef aft g
  end.

Fixpoint run (r : re) (k : cont) (bef aft : string) (g : captures)
    {struct r} : option A :=
  match r with
  | Bol => if is_empty bef then k bef aft g else None
  | WordBoundary =>
      if xorb (word_at bef) (word_at aft) then k bef aft g else None
  | Lit s =>
      match skip_lit s bef aft with
      | Some (bef', aft') => k bef' aft' g
      | None => None
      end
  | Star p => star p k bef aft g
  | Plus p =>
      match aft with
      | String c aft' => if p c then star p k (String c bef) aft' g else None
      | EmptyString => None
      end
  | Opt r1 =>
      match run r1 k bef aft g with
      | Some x => Some x
      | None => k bef aft g
      end
  | Alt r1 r2 =>
      match run r1 k bef aft g with
      | Some x => Some x
      | None => run r2 k bef aft g
      end
  | Seq r1 r2 => run r1 (run r2 k) bef aft g
  | Group n r1 =>
      run r1 (fun bef' aft' g' => k bef' aft' ((n, consumed bef bef') :: g'))
          bef aft g
  end.

End Backtracking.

Definition accept : cont captures := fun _ _ g => Some g.

(** [pattern.match(s)]: a match that starts at the first character. *)
Definition re_match (r : re) (s : string) : option captures :=
  run captures r accept "" s [].

(** [pattern.search(s)]: the leftmost match. *)
Fixpoint search_from (r : re) (bef aft : string) : option captures :=
  match run captures r accept bef aft [] with
  | Some g => Some g
  | None =>
      match aft with
      | String c aft' => search_from r (String c bef) aft'
      | EmptyString => None
      end
  end.

Definition re_search (r : re) (s : string) : option captures :=
  search_from r "" s.

(** [m.group(n)] of an optional match.  The groups the extractors read stand
    outside every [?] of their pattern, so a match always sets them. *)
Definition matched_group (n : nat) (m : option captures) : option string :=
  match m with Some g => group n g | None => None end.

End Regex.

(** ** [codebase.py]: symbol extraction *)

Module Symbols.
Import Text Regex.

Record SymbolInfo := mkSymbolInfo {
  name : string;
  kind : string;
  line_start : Z;
  line_end : Z
}.

Definition space_star := Star is_space.
Definition space_plus := Plus is_space.
Definition identifier := Plus is_ident.

(** [\bclass\s+([A-Za-z0-9_]+)] *)
Definition CLASS_RE : re :=
  (WordBoundary & Lit "class" & space_plus & Group 1 identifier)%re.

(** [\bfunction\s+([A-Za-z0-9_]+)\s*\(] *)
Definition TS_FUNCTION_RE : re :=
  (WordBoundary & Lit "function" & space_plus & Group 1 identifier
   & space_star & Lit "(")%re.

Definition access_modifier : re :=
  (Lit "public" || Lit "protected" || Lit "private")%re.

(** [^\s*(public|protected|private)?\s*(static\s+)?(async\s+)?([A-Za-z0-9_]+)\s*\(] *)
Definition TS_METHOD_RE : re :=
  (Bol & space_star & Opt (Group 1 access_modifier) & space_star
   & Opt (Group 2 (Lit "static" & space_plus))
   & Opt (Group 3 (Lit "async" & space_plus))
   & Group 4 identifier & space_star & Lit "(")%re.

(** [^\s*(public|protected|private)?\s*(static\s+)?([A-Za-z0-9_]+)\s*=\s*(async\s+)?\(] *)
Definition TS_ARROW_METHOD_RE : re :=
  (Bol & space_star & Opt (Group 1 access_modifier) & space_star
   & Opt (Group 2 (Lit "static" & space_plus))
   & Group 3 identifier & space_star & Lit "=" & space_star
   & Opt (Group 4 (Lit "async" & space_plus)) & Lit "(")%re.

(** [^\s*def\s+([A-Za-z0-9_]+)\s*\(] *)
Definition PY_DEF_RE : re :=
  (Bol & space_star & Lit "def" & space_plus & Group 1 identifier
   & space_star & Lit "(")%re.

(** [^\s*class\s+([A-Za-z0-9_]+)] *)
Definition PY_CLASS_RE : re :=
  (Bol & space_star & Lit "class" & space_plus & Group 1 identifier)%re.

(** The class stack of both extractors, innermost class first (the source
    appends to and pops from the end of a list). *)
Definition class_stack := list (string * Z).

(** *** [_extract_typescript_symbols] *)

Record ts_state := mkTs {
  ts_symbols : list SymbolInfo;
  brace_depth : Z;
  ts_stack : class_stack
}.

(** [while class_stack and brace_depth < class_stack[-1][1]: class_stack.pop()] *)
Fixpoint pop_closed (depth : Z) (stack : class_stack) : class_stack :=
  match stack with
  | (_, closes) :: below =>
      if depth <? closes then pop_closed depth below else stack
  | [] => []
  end.

(** [class_stack[-1][0] if class_stack else None], and its truth value. *)
Definition current_class (stack : class_stack) : option string :=
  match stack with
  | (c, _) :: _ => if is_empty c then None else Some c
  | [] => None
  end.

Definition qualified (class_name member : string) : string :=
  class_name ++ "." ++ member.

Definition record_method (found : option string) (cls : option string)
    (idx : Z) (symbols : list SymbolInfo) : list SymbolInfo :=
  match found, cls with
  | Some method_name, Some c =>
      (symbols ++ [mkSymbolInfo (qualified c method_name) "method" idx idx])%list
  | _, _ => symbols
  end.

Definition ts_step (idx : Z) (line : string) (st : ts_state) : ts_state :=
  let brace_delta := count "{" line - count "}" line in
  let stack1 :=
    match matched_group 1 (re_search CLASS_RE line) with
    | Some class_name =>
        (class_name, brace_depth st + Z.max brace_delta 1) :: ts_stack st
    | None => ts_stack st
    end in
  let cls := current_class stack1 in
  let symbols1 :=
    record_method (matched_group 4 (re_match TS_METHOD_RE line)) cls idx
                  (ts_symbols st) in
  let symbols2 :=
    record_method (matched_group 3 (re_match TS_ARROW_METHOD_RE line)) cls idx
                  symbols1 in
  let symbols3 :=
    match matched_group 1 (re_search TS_FUNCTION_RE line) with
    | Some func_name =>
        (symbols2 ++ [mkSymbolInfo func_name "function" idx idx])%list
    | None => symbols2
    end in
  let depth' := brace_depth st + brace_delta in
  mkTs symbols3 depth' (pop_closed depth' stack1).

(** What one line can add: a method or a function that starts there. *)
Definition ts_line_symbol (idx : Z) (s : SymbolInfo) : Prop :=
  line_start s = idx /\ (kind s = "method" \/ kind s = "function").

Fixpoint ts_loop (idx : Z) (lines : list string) (st : ts_state) : ts_state :=
  match lines with
  | [] => st
  | line :: rest => ts_loop (idx + 1) rest (ts_step idx line st)
  end.

Definition _extract_typescript_symbols (lines : list string)
  : list SymbolInfo :=
  ts_symbols (ts_loop 1 lines (mkTs [] 0 [])).

(** *** [_extract_python_symbols] *)

Record py_state := mkPy {
  py_symbols : list SymbolInfo;
  py_stack : class_stack
}.

(** [while class_stack and indent <= class_stack[-1][1]: class_stack.pop()] *)
Fixpoint pop_dedented (indent : Z) (stack : class_stack) : class_stack :=
  match stack with
  | (_, class_indent) :: below =>
      if indent <=? class_indent then pop_dedented indent below else stack
  | [] => []
  end.

(** [indent = len(line) - len(line.lstrip())] *)
Definition indentation (line : string) : Z :=
  let stripped := lstrip line in
  len line - len stripped.

Definition py_step (idx : Z) (line : string) (st : py_state) : py_state :=
  let indent := indentation line in
  let stack1 := pop_dedented indent (py_stack st) in
  match matched_group 1 (re_match PY_CLASS_RE line) with
  | Some class_name =>
      mkPy (py_symbols st ++ [mkSymbolInfo class_name "class" idx idx])
           ((class_name, indent) :: stack1)
  | None =>
      match matched_group 1 (re_match PY_DEF_RE line) with
      | Some func_name =>
          let func_name' :=
            match stack1 with
            | (c, _) :: _ => qualified c func_name
            | [] => func_name
            end in
          mkPy (py_symbols st ++ [mkSymbolInfo func_name' "function" idx idx])
               stack1
      | None => mkPy (py_symbols st) stack1
      end
  end.

Fixpoint py_loop (idx : Z) (lines : list string) (st : py_state) : py_state :=
  match lines with
  | [] => st
  | line :: rest => py_loop (idx + 1) rest (py_step idx line st)
  end.

Definition _extract_python_symbols (lines : list string) : list SymbolInfo :=
  py_symbols (py_loop 1 lines (mkPy [] [])).

(** *** [_fill_symbol_line_ends] *)

(** [list.sort(key=...)]: a stable sort that compares keys with [<] only;
    with [reverse=True] the order is descending and still stable. *)
Section Sort.
Context {A K : Type} (lt : K -> K -> bool) (key : A -> K).

Fixpoint insert_asc (x : A) (l : list A) : list A :=
  match l with
  | [] => [x]
  | y :: l' => if lt (key y) (key x) then y :: insert_asc x l' else x :: l
  end.

Fixpoint insert_desc (x : A) (l : list A) : list A :=
  match l with
  | [] => [x]
  | y :: l' => if lt (key x) (key y) then y :: insert_desc x l' else x :: l
  end.

Definition sort_by (reverse : bool) (l : list A) : list A :=
  fold_right (if reverse then insert_desc else insert_asc) [] l.

(** The key of [a] is not below the key of [b]. *)
Definition not_below (a b : A) : Prop := lt (key a) (key b) = false.

End Sort.

Definition with_line_end (s : SymbolInfo) (e : Z) : SymbolInfo :=
  mkSymbolInfo (name s) (kind s) (line_start s) e.

(** The loop over the sorted symbols: each one looks at the start of the
    next, which the loop has not modified. *)
Fixpoint fill_ends (symbols : list SymbolInfo) (total_lines : Z)
  : list SymbolInfo :=
  match symbols with
  | [] => []
  | symbol :: rest =>
      match rest with
      | next :: _ =>
          with_line_end symbol
            (Z.max (line_start symbol) (line_start next - 1))
      | [] => with_line_end symbol total_lines
      end :: fill_ends rest total_lines
  end.

(** The list [symbols] after the call. *)
Definition _fill_symbol_line_ends (symbols : list SymbolInfo)
    (total_lines : Z) : list SymbolInfo :=
  fill_ends (sort_by Z.ltb line_start false symbols) total_lines.

(** The symbols are in ascending order of start line. *)
Definition starts_ascending : list SymbolInfo -> Prop :=
  Sorted (fun a b => line_start a <= line_start b).

(** *** [extract_symbol_table], on the text [read_text(path)] returns *)

Definition extract_symbol_table (text language : string) : list SymbolInfo :=
  let lines := splitlines text in
  let symbols :=
    if (String.eqb language "TypeScript" || String.eqb language "JavaScript")%bool
    then _extract_typescript_symbols lines
    else if String.eqb language "Python"
    then _extract_python_symbols lines
    else [] in
  let total_lines :=
    if is_nil lines then 1 else Z.of_nat (List.length lines) in
  _fill_symbol_line_ends symbols total_lines.

End Symbols.

(** ** [codebase.py]: candidate selection *)

Module Selection.
Import Text Symbols.

Definition SOURCE_EXTENSIONS : list (string * string) :=
  [ (".py", "Python"); (".ts", "TypeScript"); (".tsx", "TypeScript");
    (".js", "JavaScript"); (".jsx", "JavaScript"); (".java", "Java");
    (".go", "Go"); (".rs", "Rust"); (".cs", "C#"); (".rb", "Ruby");
    (".php", "PHP"); (".swift", "Swift"); (".kt", "Kotlin"); (".c", "C");
    (".h", "C"); (".cpp", "C++"); (".hpp", "C++"); (".m", "Objective-C");
    (".scala", "Scala"); (".sql", "SQL"); (".yaml", "YAML");
    (".yml", "YAML"); (".json", "JSON"); (".md", "Markdown") ].

Definition SKIP_EXTENSIONS : list string :=
  [ ".png"; ".jpg"; ".jpeg"; ".gif"; ".bmp"; ".ico"; ".svg"; ".pdf";
    ".lock"; ".bin"; ".exe"; ".dll"; ".so"; ".dylib" ].

Definition SKIP_DIR_NAMES : list string :=
  [ "__pycache__"; ".git"; ".hg"; ".svn"; ".venv"; "venv"; "env";
    "node_modules"; "dist"; "build"; "out"; "coverage"; ".idea"; ".vscode";
    ".pytest_cache" ].

(** [x in s] for a set of strings, [d.get(k)] for a dict with string keys. *)
Definition mem (x : string) (s : list string) : bool :=
  existsb (String.eqb x) s.

Fixpoint get (k : string) (d : list (string * string)) : option string :=
  match d with
  | [] => None
  | (k', v) :: d' => if String.eqb k k' then Some v else get k d'
  end.

(** A [Path] is the tuple of its [parts]. *)
Definition Path := list string.

(** [name.rfind('.')], as the text before the last dot and the text from it. *)
Fixpoint split_last_dot (s : string) : option (string * string) :=
  match s with
  | EmptyString => None
  | String c s' =>
      match split_last_dot s' with
      | Some (b, e) => Some (String c b, e)
      | None => if Ascii.eqb c "." then Some (EmptyString, s) else None
      end
  end.

(** [PurePath.suffix]: the last component from its last dot on, when that dot
    is neither its first nor its last character. *)
Definition suffix (p : Path) : string :=
  match split_last_dot (last p "") with
  | Some (b, e) =>
      if (negb (is_empty b) && (1 <? String.length e)%nat)%bool
      then e else ""
  | None => ""
  end.

(** The fields of [Settings] the pipeline reads. *)
Record Settings := mkSettings {
  max_candidate_files : Z;
  max_file_bytes : Z;
  max_tokens_per_chunk : Z
}.

Record FileCandidate := mkFileCandidate {
  path : Path;
  relative_path : Path;
  language : string;
  size_bytes : Z;
  weight : float
}.

(** What [root.rglob("*")] yields, in its order: the path [root / rel] of
    each entry below [root], whether it is a regular file, and [st_size]. *)
Record Entry := mkEntry {
  rel : Path;
  is_file : bool;
  st_size : N
}.

(** [iter_source_files]. *)
Definition keep_source_file (root : Path) (e : Entry) : bool :=
  let path := (root ++ rel e)%list in
  (is_file e
   && negb (mem (lower (suffix path)) SKIP_EXTENSIONS)
   && negb (existsb (fun part => mem part SKIP_DIR_NAMES) path))%bool.

Definition iter_source_files (root : Path) (tree : list Entry) : list Entry :=
  filter (keep_source_file root) tree.

(** Conversion of an [int] to [float], and [a / b] on [int]s.  Both are
    exact renderings of Python for operands below [2^53] in absolute value,
    where the conversion is exact and the quotient is the float division of
    the converted operands; the pipeline only has file sizes and depths. *)
Definition float_of_int (z : Z) : float := PrimFloat.of_uint63 (Uint63.of_Z z).

Definition true_div (a b : Z) : float :=
  (float_of_int a / float_of_int b)%float.

(** [compute_weight]. *)
Definition compute_weight (relative_path : Path) (size : Z)
    (language : string) : float :=
  let depth := Z.max (Z.of_nat (List.length relative_path) - 1) 0 in
  let depth_penalty := (1 / float_of_int (1 + depth))%float in
  let size_score := (1 / (1 + true_div size 2000))%float in
  let language_bonus :=
    if mem language ["Python"; "TypeScript"; "JavaScript"]
    then 1.5%float else 1%float in
  let special_bonus :=
    if existsb (fun segment => mem segment ["src"; "app"; "server"; "service"])
               relative_path
    then 0x1.3333333333333p+0%float (* 1.2 *) else 1%float in
  (depth_penalty * size_score * language_bonus * special_bonus)%float.

(** The body of the loop of [collect_source_candidates] for one file. *)
Definition candidate_of (root : Path) (settings : Settings) (e : Entry)
  : option FileCandidate :=
  let file_path := (root ++ rel e)%list in
  let size := Z.of_N (st_size e) in
  if ((size =? 0) || (size >? max_file_bytes settings))%bool then None
  else
    let ext := lower (suffix file_path) in
    match get ext SOURCE_EXTENSIONS with
    | None => None
    | Some language =>
        if is_empty language then None
        else
          let relative := rel e in
          Some (mkFileCandidate file_path relative language size
                                (compute_weight relative size language))
    end.

(** The candidates in discovery order, before they are sorted. *)
Definition gather_candidates (root : Path) (settings : Settings)
    (tree : list Entry) : list FileCandidate :=
  flat_map (fun e => match candidate_of root settings e with
                     | Some c => [c]
                     | None => []
                     end)
           (iter_source_files root tree).

(** [l[:n]] for any [int] [n]. *)
Definition slice_to {A} (n : Z) (l : list A) : list A :=
  if n <? 0 then firstn (Z.to_nat (Z.of_nat (List.length l) + n)) l
  else firstn (Z.to_nat n) l.

Definition collect_source_candidates (root : Path) (settings : Settings)
    (tree : list Entry) : list FileCandidate :=
  let candidates := gather_candidates root settings tree in
  let candidates := sort_by PrimFloat.ltb weight true candidates in
  if Z.of_nat (List.length candidates) >? max_candidate_files settings
  then slice_to (max_candidate_files settings) candidates
  else candidates.

End Selection.

(** ** The weight on the sizes and depths of the default configuration *)

Module WeightGrid.
Import Selection.
Local Open Scope list_scope.

(** The factors of [compute_weight]. *)
Definition depth_of (relative_path : Path) : Z :=
  Z.max (Z.of_nat (List.length relative_path) - 1) 0.

Definition language_bonus (language : string) : float :=
  if mem language ["Python"; "TypeScript"; "JavaScript"]
  then 1.5%float else 1%float.

Definition special_bonus (relative_path : Path) : float :=
  if existsb (fun segment => mem segment ["src"; "app"; "server"; "service"])
             relative_path
  then 0x1.3333333333333p+0%float else 1%float.

Definition depth_penalty (depth : Z) : float :=
  (1 / float_of_int (1 + depth))%float.

Definition size_score (size : Z) : float :=
  (1 / (1 + true_div size 2000))%float.

Definition weight_at (depth size : Z) (lb sb : float) : float :=
  (depth_penalty depth * size_score size * lb * sb)%float.

Definition scaled (x lb sb dp : float) : float := (dp * x * lb * sb)%float.

Definition lt_pair (p : float * float) : bool := PrimFloat.ltb (fst p) (snd p).

(** For one pair of bonuses and the size scores [x], [x'] of a size and of
    the next size: at every depth the weight of the next size is below, and
    the weight of every depth is below the weight of the depth before. *)
Definition combo_ok (dps : list float) (x x' lb sb : float) : bool :=
  (forallb lt_pair (combine (map (scaled x' lb sb) dps)
                            (map (scaled x lb sb) dps))
   && forallb lt_pair (combine (tl (map (scaled x lb sb) dps))
                               (map (scaled x lb sb) dps)))%bool.

Definition row_ok (dps : list float) (x x' : float) : bool :=
  (combo_ok dps x x' 1.5 0x1.3333333333333p+0
   && combo_ok dps x x' 1.5 1
   && combo_ok dps x x' 1 0x1.3333333333333p+0
   && combo_ok dps x x' 1 1)%bool.

Fixpoint grid (dps : list float) (n : nat) (size : Z) (x : float) : bool :=
  match n with
  | O => true
  | S n' =>
      let x' := size_score (size + 1) in
      (row_ok dps x x' && grid dps n' (size + 1) x')%bool
  end.

Definition depths : list Z := map Z.of_nat (seq 0 16).
Definition max_depth : Z := 15.
Definition max_size : Z := 200000.

(** The depth penalties of the depths checked. *)
Definition dps : list float := map depth_penalty depths.

(** The values the two bonuses take. *)
Definition is_bonus_pair (lb sb : float) : Prop :=
  (lb = 1.5%float \/ lb = 1%float) /\
  (sb = 0x1.3333333333333p+0%float \/ sb = 1%float).


End WeightGrid.

(** ** [summarizer.py]: per-file summaries *)

Module Summarizer.
Import Text Symbols Selection Chunker.

Record FileSummary := mkFileSummary {
  fs_path : Path;
  fs_relative_path : Path;
  fs_language : string;
  summary : string;
  symbols : list SymbolInfo
}.

(** The list of what an optional value holds. *)
Definition option_list {A} (o : option A) : list A :=
  match o with Some a => [a] | None => [] end.

(** [_combine_chunk_summaries]. *)
Definition _combine_chunk_summaries (chunk_summaries : list string) : string :=
  match chunk_summaries with
  | [only] => only
  | _ =>
      let bullet_points :=
        join newline (map (fun s => "- " ++ strip s) chunk_summaries) in
      "Key points:" ++ newline ++ bullet_points
  end.

(** How one iteration of the outer loop of [summarize_candidates] ends:
    with [continue], with a summary appended, or with an exception that
    leaves the loop and the function. *)
Inductive iteration : Type :=
| Skipped
| Summarized (s : FileSummary)
| Aborted.

(** What an iteration appends to the summaries. *)
Definition appended (i : iteration) : list FileSummary :=
  match i with
  | Summarized s => [s]
  | Skipped | Aborted => []
  end.

Section WithServices.

(** The collaborators of [GPTSummarizer]: the file system behind
    [read_text] ([None] when reading raises), the tokenizer ([None] when
    [encode] raises), the settings, and the language-model call of
    [_summarize_chunk], whose [OpenAIError] is [None]. *)
Variable read_text : Path -> option string.
Variable encode_len : string -> option nat.
Variable settings : Settings.
Variable _summarize_chunk : CodeChunk -> FileCandidate -> string -> option string.

(** The inner loop of [summarize_candidates], with its [try] and [except
    OpenAIError]: the summaries of the chunks whose call succeeded, in chunk
    order. *)
Fixpoint summarize_chunks (chunks : list CodeChunk) (candidate : FileCandidate)
    (problem_description : string) : list string :=
  match chunks with
  | [] => []
  | chunk :: rest =>
      match _summarize_chunk chunk candidate problem_description with
      | None => summarize_chunks rest candidate problem_description
      | Some chunk_summary =>
          chunk_summary
            :: summarize_chunks rest candidate problem_description
      end
  end.

(** The chunks of the text of a candidate; [None] when reading the text or
    cutting it raises. *)
Definition chunks_of (candidate : FileCandidate) : option (list CodeChunk) :=
  match read_text (path candidate) with
  | Some text => _chunk_text encode_len (max_tokens_per_chunk settings) text
  | None => None
  end.

(** One iteration of the outer loop.  [read_text] and [_chunk_text] are
    called outside every [try], and [extract_symbol_table] reads the file
    once more. *)
Definition summarize_candidate (candidate : FileCandidate)
    (problem_description : string) : iteration :=
  match read_text (path candidate) with
  | None => Aborted
  | Some text =>
      match _chunk_text encode_len (max_tokens_per_chunk settings) text with
      | None => Aborted
      | Some chunks =>
          if is_nil chunks then Skipped
          else
            match read_text (path candidate) with
            | None => Aborted
            | Some text' =>
                let symbols :=
                  extract_symbol_table text' (language candidate) in
                let chunk_summaries :=
                  summarize_chunks chunks candidate problem_description in
                if is_nil chunk_summaries then Skipped
                else
                  Summarized
                    (mkFileSummary (path candidate) (relative_path candidate)
                                   (language candidate)
                                   (_combine_chunk_summaries chunk_summaries)
                                   symbols)
            end
      end
  end.

(** [summarize_candidates]: the summaries, or [None] when an exception
    leaves the loop. *)
Fixpoint summarize_candidates (candidates : list FileCandidate)
    (problem_description : string) : option (list FileSummary) :=
  match candidates with
  | [] => Some []
  | candidate :: rest =>
      match summarize_candidate candidate problem_description with
      | Aborted => None
      | Skipped => summarize_candidates rest problem_description
      | Summarized s =>
          option_map (cons s) (summarize_candidates rest problem_description)
      end
  end.

End WithServices.
End Summarizer.

(** ** [report.py]: validation of the report *)

Module Report.
Import Text.

(** What [json.loads] returns. *)
Unset Elimination Schemes.
Inductive json : Type :=
| JNull
| JBool (b : bool)
| JInt (z : Z)
| JFloat (f : float)
| JString (s : string)
| JArray (items : list json)
| JObject (members : list (string * json)).
Set Elimination Schemes.

(** How a call of [_validate_report] ends: it returns [data], raises
    [ReportGenerationError] with a message, or raises [TypeError]. *)
Inductive outcome : Type :=
| Returned (data : json)
| ReportGenerationError (message : string)
| TypeError.

Fixpoint starts_with (k s : string) : bool :=
  match k, s with
  | EmptyString, _ => true
  | String a k', String c s' => (Ascii.eqb a c && starts_with k' s')%bool
  | String _ _, EmptyString => false
  end.

Fixpoint occurs_in (k s : string) : bool :=
  (starts_with k s
   || match s with
      | String _ s' => occurs_in k s'
      | EmptyString => false
      end)%bool.

(** [k in data] for a [str] [k]: a key of a dict, an element of a list, a
    substring of a str; any other value is not iterable and the test raises
    [TypeError], here [None]. *)
Definition contains (k : string) (data : json) : option bool :=
  match data with
  | JObject members => Some (existsb (fun m => String.eqb (fst m) k) members)
  | JArray items =>
      Some (existsb (fun v => match v with
                              | JString s => String.eqb s k
                              | _ => false
                              end) items)
  | JString s => Some (occurs_in k s)
  | JNull | JBool _ | JInt _ | JFloat _ => None
  end.

Definition missing_keys : string :=
  "Model response missing required keys 'feature_analysis' or 'execution_plan_suggestion'.".

Section WithJson.

(** [json.loads], whose [JSONDecodeError] is [None]. *)
Variable json_loads : string -> option json.

Definition _validate_report (text : string) : outcome :=
  match json_loads text with
  | None => ReportGenerationError "Model returned invalid JSON"
  | Some data =>
      match contains "feature_analysis" data with
      | None => TypeError
      | Some false => ReportGenerationError missing_keys
      | Some true =>
          match contains "execution_plan_suggestion" data with
          | None => TypeError
          | Some false => ReportGenerationError missing_keys
          | Some true => Returned data
          end
      end
  end.

End WithJson.
End Report.

(** ** Sample inputs the properties are run on *)

Module Samples.
Import Text Symbols Selection.

Definition nl : string := String "010" "".

Definition three_lines : string := "alpha" ++ nl ++ "beta" ++ nl ++ "gamma".

Definition sample_symbols : list SymbolInfo :=
  [ mkSymbolInfo "first" "function" 1 1;
    mkSymbolInfo "second" "function" 10 10;
    mkSymbolInfo "third" "function" 25 25 ].

Definition ts_class_sample : list string :=
  [ "class Foo {";
    "  m1() {";
    "  }";
    "  m2() {";
    "  }";
    "}" ].

Definition ts_function_sample : list string :=
  [ "function topLevel(a) {";
    "  return a;";
    "}" ].

(** A method after an empty line in the body of its class, and a method of
    a class nested after such an empty line. *)
Definition py_blank_sample : list string :=
  [ "class A:";
    "    x = 1";
    "";
    "    class B:";
    "        y = 2";
    "    def f(self):";
    "        pass" ].

Definition py_nested_sample : list string :=
  [ "class A:";
    "";
    "    class B:";
    "        def f(self):";
    "            pass" ].

(** A JSON reader for two texts. *)
Definition quoted (s : string) : string :=
  String "034" (s ++ String "034" "").

Definition sample_array_text : string :=
  "[" ++ quoted "feature_analysis" ++ ", "
      ++ quoted "execution_plan_suggestion" ++ "]".

Definition sample_loads (text : string) : option Report.json :=
  if String.eqb text "5" then Some (Report.JInt 5)
  else if String.eqb text sample_array_text
  then Some (Report.JArray [Report.JString "feature_analysis";
                            Report.JString "execution_plan_suggestion"])
  else None.

(** A repository of three source files, and a configuration whose cap on the
    number of candidates is negative. *)
Definition sample_root : Path := ["/"; "repo"].

Definition sample_tree : list Entry :=
  [ mkEntry ["a.py"] true 10;
    mkEntry ["src"; "b.ts"] true 20;
    mkEntry ["docs"; "c.md"] true 30 ].

Definition default_settings : Settings := mkSettings 200 200000 1800.
Definition negative_cap : Settings := mkSettings (-1) 200000 1800.

(** Two files and a language model that fails on every chunk of [a.py]. *)
Definition a_py : FileCandidate :=
  mkFileCandidate ["/"; "repo"; "a.py"] ["a.py"] "Python" 5
                  (compute_weight ["a.py"] 5 "Python").

Definition b_py : FileCandidate :=
  mkFileCandidate ["/"; "repo"; "b.py"] ["b.py"] "Python" 17
                  (compute_weight ["b.py"] 17 "Python").

(** A source line that spells a special token of the tokenizer. *)
Definition tokens_text : string := "END = " ++ quoted "<|endoftext|>".

Definition sample_read_text (p : Path) : option string :=
  if String.eqb (last p "") "a.py" then Some "x = 1"
  else if String.eqb (last p "") "b.py"
  then Some ("def f():" ++ nl ++ "    pass")
  else if String.eqb (last p "") "tokens.py" then Some tokens_text
  else Some "".

(** Two tokenizers that count one token per character: one accepts every
    text, the other, like the encodings of tiktoken called without
    [disallowed_special], raises on a text that spells the special token
    [<|endoftext|>]. *)
Definition char_encode_len (s : string) : option nat := Some (String.length s).

Definition special_encode_len (s : string) : option nat :=
  if Report.occurs_in "<|endoftext|>" s then None else Some (String.length s).

Definition tokens_py : FileCandidate :=
  mkFileCandidate ["/"; "repo"; "tokens.py"] ["tokens.py"] "Python" 21
                  (compute_weight ["tokens.py"] 21 "Python").

Definition sample_summarize_chunk (chunk : Chunker.CodeChunk)
    (candidate : FileCandidate) (problem_description : string)
  : option string :=
  if String.eqb (last (path candidate) "") "a.py" then None
  else Some "defines f".

End Samples.

(** * The rest of the pipeline *)

(** ** Greedy chunks *)

Module Greedy.
Import Text Chunker.

Section WithEncoding.
Variable encode_len : string -> option nat.
Variable max_tokens : Z.

(** [greedy tail from lines cs]: [cs] cuts [lines] as [chunked] says, and no
    run could have taken the line that follows it ([tail] is what follows
    [lines]). *)
Inductive greedy (tail : list string)
  : Z -> list string -> list CodeChunk -> Prop :=
| greedy_nil : forall from, greedy tail from [] []
| greedy_cons : forall from g rest cs,
    g <> [] ->
    within_budget encode_len max_tokens from g ->
    (forall l more,
       (rest ++ tail)%list = l :: more ->
       total_tokens encode_len from g
       + line_cost encode_len (from + Z.of_nat (List.length g)) l
       > max_tokens) ->
    greedy tail (from + Z.of_nat (List.length g)) rest cs ->
    greedy tail from (g ++ rest)
           (mkCodeChunk (join newline (decorate from g)) from
                        (from + Z.of_nat (List.length g) - 1) :: cs).

(** The loop invariant of [_chunk_text] with the greedy condition. *)
Definition greedy_inv (done : list string) (st : state) : Prop :=
  exists closed cur,
    done = (closed ++ cur)%list /\
    greedy cur 1 closed (chunks st) /\
    (cur = [] -> chunks st = []) /\
    current_lines st = decorate (1 + Z.of_nat (List.length closed)) cur /\
    current_tokens st
    = total_tokens encode_len (1 + Z.of_nat (List.length closed)) cur /\
    (cur <> [] ->
     chunk_start_line st = 1 + Z.of_nat (List.length closed) /\
     within_budget encode_len max_tokens
                   (1 + Z.of_nat (List.length closed)) cur).

End WithEncoding.

(** No character of the string is a line boundary. *)
Fixpoint no_linebreak (s : string) : bool :=
  match s with
  | EmptyString => true
  | String c s' => (negb (is_linebreak c) && no_linebreak s')%bool
  end.

(** What [str.splitlines] reads next after the line boundary [c]: CR LF is
    one boundary. *)
Definition after_break (c : ascii) (s : string) : string :=
  match c, s with
  | "013"%char, String "010"%char s' => s'
  | _, _ => s
  end.

End Greedy.

(** ** Class scopes of the symbol extractors *)

Module Scopes.
Import Text Regex Symbols.

(** [brace_delta = line.count("{") - line.count("}")] *)
Definition brace_delta (line : string) : Z :=
  count "{" line - count "}" line.

(** Read from brace depth [depth] (counted from where a class body opened),
    the lines never close the body. *)
Fixpoint stays_open (depth : Z) (lines : list string) : Prop :=
  match lines with
  | [] => True
  | line :: rest =>
      0 <= depth + brace_delta line /\
      stays_open (depth + brace_delta line) rest
  end.

(** The line matches [CLASS_RE] somewhere ([CLASS_RE.search(line)]). *)
Definition is_class_line (line : string) : bool :=
  match matched_group 1 (re_search CLASS_RE line) with
  | Some _ => true
  | None => false
  end.

(** The line (1-based) a symbol starts on. *)
Definition line_of (lines : list string) (s : SymbolInfo) : option string :=
  nth_error lines (Z.to_nat (line_start s - 1)).

End Scopes.

(** ** [config.py] *)

Module Config.
Import Text.

Definition DEFAULT_OPENAI_MODEL : string := "gpt-5".
Definition PLACEHOLDER_SENTINEL : string := "REPLACE_WITH_OPENAI_API_KEY".
Definition OPENAI_API_KEY_PLACEHOLDER : string := "REPLACE_WITH_OPENAI_API_KEY".

Record Settings := mkSettings {
  openai_api_key : string;
  openai_model : string;
  openai_base_url : option string;
  max_candidate_files : Z;
  max_file_bytes : Z;
  max_tokens_per_chunk : Z;
  max_prompt_tokens : Z;
  summarize_temperature : float;
  report_temperature : float;
  environment : string
}.

(** The fields of [Settings] that candidate selection and chunking read. *)
Definition selection_settings (s : Settings) : Selection.Settings :=
  Selection.mkSettings (max_candidate_files s) (max_file_bytes s)
                       (max_tokens_per_chunk s).

(** How the evaluation of an expression of [config.py] ends: with a value,
    with [RuntimeError] and its message, or with the [ValueError] of [int]
    or [float]. *)
Inductive loaded (A : Type) : Type :=
| Value (a : A)
| RuntimeError (message : string)
| ValueError.
Arguments Value {A} a.
Arguments RuntimeError {A} message.
Arguments ValueError {A}.

Definition bind {A B} (x : loaded A) (f : A -> loaded B) : loaded B :=
  match x with
  | Value a => f a
  | RuntimeError m => RuntimeError m
  | ValueError => ValueError
  end.

Definition missing_prefix (name : string) : string :=
  "Missing required environment variable '" ++ name ++ "'. ".

Definition missing_with_placeholder (name : string) : string :=
  missing_prefix name
  ++ "Set it before starting the service, or update "
  ++ "`OPENAI_API_KEY_PLACEHOLDER` in app/config.py with your key.".

Definition missing (name : string) : string :=
  missing_prefix name ++ "Set it before starting the service.".

Section WithEnvironment.

(** [os.getenv(name)], and the parsers [int] and [float] on a [str], whose
    [ValueError] is [None]. *)
Variable getenv : string -> option string.
Variable int_of_str : string -> option Z.
Variable float_of_str : string -> option float.

(** [os.getenv(name, default)] *)
Definition getenv_default (name default : string) : string :=
  match getenv name with
  | Some v => v
  | None => default
  end.

(** The truth value of a [str | None]. *)
Definition truthy (v : option string) : bool :=
  match v with
  | Some s => negb (is_empty s)
  | None => false
  end.

Definition _get_required_env (name : string) (default : option string)
  : loaded string :=
  match getenv name, truthy (getenv name) with
  | Some env_value, true => Value env_value
  | _, _ =>
      match default, truthy default with
      | Some d, true =>
          if String.eqb d PLACEHOLDER_SENTINEL
          then RuntimeError (missing_with_placeholder name)
          else Value d
      | _, _ => RuntimeError (missing name)
      end
  end.

Definition parsed {A} (v : option A) : loaded A :=
  match v with
  | Some a => Value a
  | None => ValueError
  end.

(** The function under the decorator, [get_settings.__wrapped__]: the
    keyword arguments of [Settings(...)] are evaluated in the order in which
    they are written. *)
Definition get_settings_wrapped : loaded Settings :=
  bind (_get_required_env "OPENAI_API_KEY" (Some OPENAI_API_KEY_PLACEHOLDER))
    (fun key =>
  let model := getenv_default "OPENAI_MODEL" DEFAULT_OPENAI_MODEL in
  let base_url := getenv "OPENAI_BASE_URL" in
  bind (parsed (int_of_str (getenv_default "MAX_CANDIDATE_FILES" "200")))
    (fun candidate_files =>
  bind (parsed (int_of_str (getenv_default "MAX_FILE_BYTES" "200000")))
    (fun file_bytes =>
  bind (parsed (int_of_str (getenv_default "MAX_TOKENS_PER_CHUNK" "1800")))
    (fun tokens_per_chunk =>
  bind (parsed (int_of_str (getenv_default "MAX_PROMPT_TOKENS" "10000")))
    (fun prompt_tokens =>
  bind (parsed (float_of_str (getenv_default "SUMMARIZE_TEMPERATURE" "0.1")))
    (fun summarize =>
  bind (parsed (float_of_str (getenv_default "REPORT_TEMPERATURE" "0.0")))
    (fun report =>
  Value (mkSettings key model base_url candidate_files file_bytes
                    tokens_per_chunk prompt_tokens summarize report
                    (getenv_default "ENVIRONMENT" "development"))))))))).

(** [get_settings] under [@lru_cache(maxsize=1)].  [cache] is what the cache
    holds when the call is made, and the call gives back what the cache
    holds afterwards: a call that finds settings there returns them without
    running the function, a call that returns stores what it returns, and a
    call that raises stores nothing. *)
Definition get_settings (cache : option Settings)
  : loaded Settings * option Settings :=
  match cache with
  | Some cached => (Value cached, cache)
  | None =>
      match get_settings_wrapped with
      | Value s => (Value s, Some s)
      | RuntimeError message => (RuntimeError message, None)
      | ValueError => (ValueError, None)
      end
  end.

End WithEnvironment.
End Config.

(** ** [codebase.py]: the directory overview *)

Module Overview.
Import Text Symbols Selection.

Definition MAX_TREE_DEPTH : Z := 3.

(** An entry of [root.rglob("*")] with what [is_dir] says about it. *)
Record Node := mkNode {
  entry : Entry;
  is_dir : bool
}.

(** [str(path)] and [path.as_posix()] of a POSIX path given by its parts. *)
Definition as_posix (p : Path) : string :=
  match p with
  | [] => "."
  | "/" :: rest => "/" ++ join "/" rest
  | _ => join "/" p
  end.

(** [s * k] *)
Fixpoint repeat_nat (s : string) (k : nat) : string :=
  match k with
  | O => ""
  | S k' => s ++ repeat_nat s k'
  end.

Definition repeat_str (s : string) (k : Z) : string :=
  repeat_nat s (Z.to_nat k).

(** [<] on the tuples [(int, str)] of the sort key. *)
Definition key_lt (a b : Z * string) : bool :=
  if negb (fst a =? fst b) then fst a <? fst b
  else String.ltb (snd a) (snd b).

Definition depth_of (n : Node) : Z := Z.of_nat (List.length (rel (entry n))).

Section WithRoot.

(** The resolved root, and the branch prefix of a line: a box-drawing tee, a
    box-drawing dash and a space. *)
Variable root : Path.
Variable branch : string.

Definition sort_key (n : Node) : Z * string :=
  (depth_of n, as_posix (root ++ rel (entry n))%list).

Definition display (n : Node) : string :=
  let relative := rel (entry n) in
  let depth := depth_of n in
  let indent := repeat_str "  " (depth - 1) in
  let prefix := if depth >? 0 then branch else "" in
  indent ++ prefix ++ last relative "".

(** The line of an entry that has one. *)
Definition line_for (n : Node) : string :=
  if is_dir n then display n ++ "/" else display n.

(** The body of the loop for one path; [None] is [continue]. *)
Definition overview_line (n : Node) : option string :=
  if is_nil (rel (entry n)) then None
  else if depth_of n >? MAX_TREE_DEPTH then None
  else if is_dir n then Some (display n ++ "/")
  else if mem (lower (suffix (root ++ rel (entry n))%list)) SKIP_EXTENSIONS
  then None
  else Some (display n).

Definition overview_lines (tree : list Node) : list string :=
  flat_map (fun n => Summarizer.option_list (overview_line n))
           (sort_by key_lt sort_key false tree).

Definition build_directory_overview (tree : list Node) : string :=
  join Chunker.newline (overview_lines tree).

(** The entries that get a line, in the order of their lines. *)
Definition shown (tree : list Node) : list Node :=
  filter (fun n => match overview_line n with Some _ => true | None => false end)
         (sort_by key_lt sort_key false tree).

End WithRoot.
End Overview.

(** ** [report.py]: the prompt and the pipeline *)

Module Prompt.
Import Text Symbols Selection Summarizer.

Record AnalysisArtifacts := mkAnalysisArtifacts {
  directory_overview : string;
  candidates : list FileCandidate;
  summaries : list FileSummary
}.

(** [str(n)] for an [int]. *)
Definition str_int (n : Z) : string :=
  if n <? 0 then String "-" (digits (- n)) else digits n.

(** [s[:k]] for [k >= 0]. *)
Fixpoint str_take (k : nat) (s : string) : string :=
  match k, s with
  | S k', String c s' => String c (str_take k' s')
  | _, _ => ""
  end.

Definition symbol_line (symbol : SymbolInfo) : string :=
  let line_display :=
    if line_start symbol =? line_end symbol
    then str_int (line_start symbol)
    else str_int (line_start symbol) ++ "-" ++ str_int (line_end symbol) in
  "- " ++ name symbol ++ " (" ++ kind symbol ++ ") lines " ++ line_display.

Definition summary_lines (s : FileSummary) : list string :=
  List.app
    [ "### " ++ Overview.as_posix (fs_relative_path s);
      "Language: " ++ fs_language s;
      summary s;
      "" ]
    (if is_nil (symbols s) then []
     else "Symbols with line ranges:"
            :: List.app (map symbol_line (symbols s)) [""]).

Definition output_format : list string :=
  [ "## Output Format";
    "Return a JSON object with:";
    "- feature_analysis: array of objects with feature_description (string, Simplified Chinese) and implementation_location (array with file, function, lines).";
    "- execution_plan_suggestion: string with concise instructions to run the project in Simplified Chinese.";
    "Use the symbol table above to cite precise function or method names and provide line numbers or ranges.";
    "Do not leave function or lines as null; if only a single line is known, use that number.";
    "Only output JSON without additional commentary." ].

Definition prompt_lines (problem_description : string)
    (artifacts : AnalysisArtifacts) : list string :=
  List.app
    [ "# Task";
      "Analyze the repository and map implementation details to the requested features.";
      "";
      "## Requirements";
      strip problem_description;
      "";
      "## Repository Overview";
      (if is_empty (directory_overview artifacts)
       then "(overview truncated)" else directory_overview artifacts);
      "";
      "## File Summaries" ]
    (List.app
       (if is_nil (summaries artifacts)
        then [ "No summaries available; rely on repository overview and prior knowledge." ]
        else flat_map summary_lines (summaries artifacts))
       output_format).

Definition truncation_marker : string :=
  Chunker.newline ++ "...[context truncated due to length]...".

Definition _compose_prompt (problem_description : string)
    (artifacts : AnalysisArtifacts) (max_chars : Z) : string :=
  let prompt :=
    join Chunker.newline (prompt_lines problem_description artifacts) in
  if len prompt >? max_chars
  then str_take (Z.to_nat (Z.max 0 (max_chars - 100))) prompt
       ++ truncation_marker
  else prompt.

End Prompt.

Module Pipeline.
Import Text Symbols Selection Summarizer Report Prompt.

Section WithServices.

(** What the pipeline works with: the tree [rglob] finds below the
    repository, [read_text] and the tokenizer (both [None] when they raise),
    the two language-model calls (whose [OpenAIError] is [None]),
    [json.loads], and the branch prefix of the overview. *)
Variable tree : list Overview.Node.
Variable read_text : Path -> option string.
Variable encode_len : string -> option nat.
Variable _summarize_chunk
  : Config.Settings -> Chunker.CodeChunk -> FileCandidate -> string
    -> option string.
Variable create_response : Config.Settings -> string -> option string.
Variable json_loads : string -> option json.
Variable branch : string.

(** [_gather_artifacts]; [None] when an exception leaves
    [summarize_candidates]. *)
Definition _gather_artifacts (problem_description : string)
    (repo_path : Path) (settings : Config.Settings)
  : option AnalysisArtifacts :=
  let candidates :=
    collect_source_candidates repo_path (Config.selection_settings settings)
                              (map Overview.entry tree) in
  match summarize_candidates read_text encode_len
                             (Config.selection_settings settings)
                             (_summarize_chunk settings)
                             candidates problem_description with
  | None => None
  | Some summaries =>
      let overview := Overview.build_directory_overview repo_path branch tree in
      Some (mkAnalysisArtifacts overview candidates summaries)
  end.

(** [_request_report]: an [OpenAIError] becomes [ReportGenerationError]. *)
Definition _request_report (prompt : string) (settings : Config.Settings)
  : string + string :=
  match create_response settings prompt with
  | Some output_text => inl output_text
  | None => inr "Failed to generate report"
  end.

(** [analyze_repository]; [None] when an exception leaves
    [_gather_artifacts]. *)
Definition analyze_repository (problem_description : string)
    (repo_path : Path) (settings : Config.Settings) : option outcome :=
  match _gather_artifacts problem_description repo_path settings with
  | None => None
  | Some artifacts =>
      let prompt :=
        _compose_prompt problem_description artifacts
                        (Config.max_prompt_tokens settings * 4) in
      match _request_report prompt settings with
      | inr message => Some (ReportGenerationError message)
      | inl raw_report => Some (_validate_report json_loads raw_report)
      end
  end.

End WithServices.
End Pipeline.

(** ** What the patterns can capture *)

Module Names.
Import Text Regex Symbols.

Fixpoint all_chars (p : ascii -> bool) (s : string) : bool :=
  match s with
  | EmptyString => true
  | String c s' => (p c && all_chars p s')%bool
  end.

(** The texts a pattern can read, whatever stands around them (the anchors
    read nothing). *)
Fixpoint lang (r : re) (m : string) : Prop :=
  match r with
  | Bol | WordBoundary => m = ""
  | Lit s => m = s
  | Star p => all_chars p m = true
  | Plus p => m <> "" /\ all_chars p m = true
  | Opt r1 => m = "" \/ lang r1 m
  | Alt r1 r2 => lang r1 m \/ lang r2 m
  | Seq r1 r2 => exists m1 m2, m = m1 ++ m2 /\ lang r1 m1 /\ lang r2 m2
  | Group _ r1 => lang r1 m
  end.

(** The texts group [n] of a pattern can hold. *)
Fixpoint captured (r : re) (n : nat) (s : string) : Prop :=
  match r with
  | Group m r1 => (m = n /\ lang r1 s) \/ captured r1 n s
  | Seq r1 r2 | Alt r1 r2 => captured r1 n s \/ captured r2 n s
  | Opt r1 => captured r1 n s
  | _ => False
  end.

(** A non-empty run of [[A-Za-z0-9_]]. *)
Definition is_identifier (s : string) : bool :=
  (negb (is_empty s) && all_chars is_ident s)%bool.

Definition is_qualified (s : string) : Prop :=
  exists c m, s = qualified c m /\
              is_identifier c = true /\ is_identifier m = true.

(** A class under its identifier, a function under its identifier or
    qualified by a class, a method qualified by a class. *)
Definition well_named (s : SymbolInfo) : Prop :=
  (kind s = "class" /\ is_identifier (name s) = true) \/
  (kind s = "function" /\
   (is_identifier (name s) = true \/ is_qualified (name s))) \/
  (kind s = "method" /\ is_qualified (name s)).

End Names.

(** ** The range of the weight *)

Module Bounds.

(** The highest weight a file can have: both bonuses, depth 0, size 0. *)
Definition top_weight : float := (1.5 * 0x1.3333333333333p+0)%float.

End Bounds.

(** ** More samples *)

Module MoreSamples.
Import Samples.

(** A JSON reader for an object with the two keys and one more, and for a
    string that mentions both keys. *)
Definition sample_object_text : string :=
  "{" ++ quoted "feature_analysis" ++ ": [], "
      ++ quoted "execution_plan_suggestion" ++ ": " ++ quoted "run it" ++ ", "
      ++ quoted "notes" ++ ": null}".

Definition sample_object : Report.json :=
  Report.JObject [ ("feature_analysis", Report.JArray []);
                   ("execution_plan_suggestion", Report.JString "run it");
                   ("notes", Report.JNull) ].

Definition sample_string : string :=
  "no feature_analysis and no execution_plan_suggestion today".

Definition more_loads (text : string) : option Report.json :=
  if String.eqb text sample_object_text then Some sample_object
  else if String.eqb text (quoted sample_string)
  then Some (Report.JString sample_string)
  else None.

End MoreSamples.

(** * Properties *)

Import Samples.

(** ** Sanity checks of the runtime operations *)

Example splitlines_keeps_blank :
  Text.splitlines ("a" ++ String "010" (String "010" "b")) = ["a"; ""; "b"].
Proof. reflexivity. Qed.

Example splitlines_crlf :
  Text.splitlines ("a" ++ String "013" (String "010" "b" ++ String "010" ""))
  = ["a"; "b"].
Proof. reflexivity. Qed.

Example format_04_examples :
  Text.format_04 7 = "0007" /\ Text.format_04 12345 = "12345".
Proof. split; reflexivity. Qed.


(** The patterns on lines where backtracking decides the outcome. *)
Example method_pattern_groups :
  Regex.re_match Symbols.TS_METHOD_RE "  public static async foo (x) {"
  = Some [(4%nat, "foo"); (3%nat, "async "); (2%nat, "static ");
          (1%nat, "public")].
Proof. reflexivity. Qed.

Example method_pattern_backtracks :
  Regex.matched_group 4 (Regex.re_match Symbols.TS_METHOD_RE "public(")
  = Some "public" /\
  Regex.matched_group 4 (Regex.re_match Symbols.TS_METHOD_RE "async (x) => 1")
  = Some "async".
Proof. split; reflexivity. Qed.

Example class_pattern_word_boundary :
  Regex.re_search Symbols.CLASS_RE "subclass Bar" = None /\
  Regex.matched_group 1
    (Regex.re_search Symbols.CLASS_RE "export default class Bar extends Baz {")
  = Some "Bar".
Proof. split; reflexivity. Qed.

(** ** The chunker *)

Section ChunkerFacts.
Import Text Chunker.
Local Open Scope list_scope.

Variable encode_len : string -> option nat.
Variable max_tokens : Z.

Local Abbreviation token_count := (token_count encode_len).
Local Abbreviation line_cost := (line_cost encode_len).
Local Abbreviation accepted := (accepted encode_len).
Local Abbreviation total_tokens := (total_tokens encode_len).
Local Abbreviation within_budget := (within_budget encode_len max_tokens).
Local Abbreviation chunked := (chunked encode_len max_tokens).
Local Abbreviation chunk_step := (chunk_step encode_len max_tokens).
Local Abbreviation chunk_loop := (chunk_loop encode_len max_tokens).
Local Abbreviation chunk_lines := (chunk_lines encode_len max_tokens).
Local Abbreviation _chunk_text := (_chunk_text encode_len max_tokens).
Local Abbreviation chunk_inv := (chunk_inv encode_len max_tokens).

Lemma splitlines_from_nonempty cur s :
  cur <> "" \/ s <> "" -> splitlines_from cur s <> [].
Proof.
  revert cur. induction s as [|c s IH]; intros cur H; simpl.
  - destruct cur; simpl; [destruct H; congruence | discriminate].
  - destruct (is_linebreak c).
    + destruct c as [[] [] [] [] [] [] [] []]; try discriminate;
        destruct s as [|[[] [] [] [] [] [] [] []] s]; discriminate.
    + apply IH. left. destruct cur; discriminate.
Qed.

Lemma splitlines_nonempty s : s <> "" -> splitlines s <> [].
Proof. intro H. apply splitlines_from_nonempty. now right. Qed.

Lemma decorate_length from ls : List.length (decorate from ls) = List.length ls.
Proof. revert from. induction ls; simpl; intros; [reflexivity | now rewrite IHls]. Qed.

Lemma decorate_app from a b :
  decorate from (a ++ b)
  = (decorate from a ++ decorate (from + Z.of_nat (List.length a)) b)%list.
Proof.
  revert from. induction a as [|x a IH]; intros from; simpl.
  - now rewrite Z.add_0_r.
  - rewrite IH. do 3 f_equal. lia.
Qed.

Lemma total_tokens_app from a b :
  total_tokens from (a ++ b)
  = total_tokens from a + total_tokens (from + Z.of_nat (List.length a)) b.
Proof.
  revert from. induction a as [|x a IH]; intros from; simpl.
  - now rewrite Z.add_0_r.
  - rewrite IH. replace (from + 1 + Z.of_nat (List.length a))
      with (from + Z.pos (Pos.of_succ_nat (List.length a))) by lia. lia.
Qed.

Lemma chunked_snoc from closed cs g :
  chunked from closed cs ->
  g <> [] ->
  within_budget (from + Z.of_nat (List.length closed)) g ->
  chunked from (closed ++ g)
    (cs ++ [mkCodeChunk
              (join newline (decorate (from + Z.of_nat (List.length closed)) g))
              (from + Z.of_nat (List.length closed))
              (from + Z.of_nat (List.length closed)
               + Z.of_nat (List.length g) - 1)]).
Proof.
  induction 1 as [from | from g0 rest cs Hg0 Hb0 Hrest IH]; intros Hg Hb.
  - simpl in *. rewrite Z.add_0_r in *.
    rewrite <- (app_nil_r g) at 1.
    apply chunked_cons; auto. constructor.
  - rewrite <- app_assoc. simpl.
    rewrite length_app, Nat2Z.inj_add, Z.add_assoc in *.
    apply chunked_cons; auto.
Qed.


Lemma is_nil_decorate from cur :
  is_nil (decorate from cur) = is_nil cur.
Proof. destruct cur; reflexivity. Qed.

Lemma single_within_budget n line : within_budget n [line].
Proof.
  unfold Chunker.within_budget. cbn [Chunker.total_tokens].
  destruct (Z.le_gt_cases (line_cost n line) max_tokens);
    [left; lia | right; exists line; split; [reflexivity | lia]].
Qed.

Lemma Some_eq {A} (a b : A) : Some a = Some b -> a = b.
Proof. congruence. Qed.

(** A step that returns has read the count of its line. *)
Lemma chunk_step_counted n line st st' :
  chunk_step n line st = Some st' ->
  token_count n line = Some (line_cost n line).
Proof.
  unfold Chunker.chunk_step, Chunker.line_cost.
  destruct (token_count n line); [reflexivity | discriminate].
Qed.

Ltac chunk_simpl :=
  cbn [Chunker.chunks Chunker.current_lines Chunker.current_tokens
       Chunker.chunk_start_line Text.is_nil negb andb app].

Lemma chunk_step_inv done line st st' :
  chunk_inv done st ->
  chunk_step (1 + Z.of_nat (List.length done)) line st = Some st' ->
  chunk_inv (done ++ [line]) st'.
Proof.
  intros (closed & cur & Hd & Hch & Hcl & Htok & Hcur) Hstep.
  assert (Hnil : is_nil (current_lines st) = is_nil cur)
    by (rewrite Hcl; apply is_nil_decorate).
  pose proof (chunk_step_counted _ _ _ _ Hstep) as Hcount.
  set (n := 1 + Z.of_nat (List.length done)) in *.
  unfold Chunker.chunk_step in Hstep. rewrite Hcount, Hnil in Hstep.
  apply Some_eq in Hstep. subst st'.
  assert (Hn : n = 1 + Z.of_nat (List.length closed)
                   + Z.of_nat (List.length cur)).
  { subst n done. rewrite length_app. lia. }
  destruct cur as [|c0 cur'].
  - (* no open chunk: the line opens one *)
    chunk_simpl. rewrite Hnil. chunk_simpl.
    cbn [List.length] in Hn. rewrite Z.add_0_r in Hn.
    rewrite app_nil_r in Hd. subst done.
    exists closed, [line]. rewrite <- Hn.
    repeat split; chunk_simpl; auto.
    + now rewrite Hcl.
    + rewrite Htok. cbn [Chunker.total_tokens]. lia.
    + apply single_within_budget.
  - destruct (Hcur ltac:(discriminate)) as [Hstart Hbud].
    chunk_simpl.
    destruct (current_tokens st + line_cost n line >? max_tokens) eqn:Hgt.
    + (* the open chunk is closed, the line opens the next one *)
      chunk_simpl.
      exists (closed ++ c0 :: cur'), [line].
      assert (Hlen : 1 + Z.of_nat (List.length (closed ++ c0 :: cur')) = n).
      { rewrite Hn, length_app. lia. }
      rewrite Hlen.
      repeat split; chunk_simpl; auto.
      * subst done. now rewrite <- app_assoc.
      * rewrite Hcl, Hstart.
        replace (n - 1) with (1 + Z.of_nat (List.length closed)
                              + Z.of_nat (List.length (c0 :: cur')) - 1) by lia.
        apply chunked_snoc; auto. discriminate.
      * cbn [Chunker.total_tokens]. lia.
      * apply single_within_budget.
    + (* the line joins the open chunk *)
      rewrite Hnil. chunk_simpl.
      exists closed, ((c0 :: cur') ++ [line]).
      repeat split; chunk_simpl; auto.
      * subst done. now rewrite <- app_assoc.
      * rewrite Hcl, app_comm_cons, decorate_app.
        cbn [Chunker.decorate]. now rewrite <- Hn.
      * rewrite app_comm_cons, total_tokens_app, Htok, <- Hn.
        cbn [Chunker.total_tokens]. lia.
      * left. rewrite app_comm_cons, total_tokens_app, <- Hn, <- Htok.
        cbn [Chunker.total_tokens].
        rewrite Z.gtb_ltb, Z.ltb_ge in Hgt. lia.
Qed.

Lemma chunk_loop_inv rest : forall done st st',
  chunk_inv done st ->
  chunk_loop (1 + Z.of_nat (List.length done)) rest st = Some st' ->
  chunk_inv (done ++ rest) st'.
Proof.
  induction rest as [|line rest IH]; intros done st st' H Hloop;
    cbn [Chunker.chunk_loop] in Hloop.
  - injection Hloop as <-. now rewrite app_nil_r.
  - destruct (chunk_step (1 + Z.of_nat (List.length done)) line st)
      as [st1|] eqn:Hstep; [|discriminate].
    pose proof (chunk_step_inv done line st st1 H Hstep) as H1.
    replace (1 + Z.of_nat (List.length done) + 1)
      with (1 + Z.of_nat (List.length (done ++ [line]))) in Hloop
      by (rewrite length_app; cbn [List.length]; lia).
    specialize (IH (done ++ [line]) _ _ H1 Hloop).
    rewrite <- app_assoc in IH. exact IH.
Qed.

(** The loop returns exactly when the tokenizer accepts every line. *)
Lemma chunk_loop_returns lines : forall n st,
  accepted n lines = true -> exists st', chunk_loop n lines st = Some st'.
Proof.
  induction lines as [|line rest IH]; intros n st Hacc;
    cbn [Chunker.chunk_loop Chunker.accepted] in *; [eauto|].
  unfold Chunker.chunk_step.
  destruct (token_count n line) as [tc|]; [|discriminate].
  now apply IH.
Qed.

Lemma chunk_loop_raises lines : forall n st,
  accepted n lines = false -> chunk_loop n lines st = None.
Proof.
  induction lines as [|line rest IH]; intros n st Hacc;
    cbn [Chunker.chunk_loop Chunker.accepted] in *; [discriminate|].
  unfold Chunker.chunk_step.
  destruct (token_count n line) as [tc|]; [|reflexivity].
  now apply IH.
Qed.

Lemma chunk_lines_returns lines :
  accepted 1 lines = true -> exists cs, chunk_lines lines = Some cs.
Proof.
  intros Hacc. unfold Chunker.chunk_lines.
  destruct (chunk_loop_returns lines 1 (mkState [] [] 0 1) Hacc) as [st ->].
  eauto.
Qed.

Lemma chunk_lines_raises lines :
  accepted 1 lines = false -> chunk_lines lines = None.
Proof.
  intros Hacc. unfold Chunker.chunk_lines.
  now rewrite (chunk_loop_raises lines 1 _ Hacc).
Qed.

Lemma chunk_lines_accepted lines cs :
  chunk_lines lines = Some cs -> accepted 1 lines = true.
Proof.
  intros H. destruct (accepted 1 lines) eqn:Hacc; [reflexivity|].
  rewrite (chunk_lines_raises lines Hacc) in H. discriminate.
Qed.

Lemma chunk_lines_chunked lines cs :
  chunk_lines lines = Some cs -> chunked 1 lines cs.
Proof.
  unfold Chunker.chunk_lines.
  destruct (chunk_loop 1 lines (mkState [] [] 0 1)) as [st|] eqn:Hloop;
    [|discriminate].
  intros [= <-].
  assert (H0 : chunk_inv [] (mkState [] [] 0 1)).
  { exists [], []. repeat split; simpl; try constructor; congruence. }
  pose proof (chunk_loop_inv lines [] _ _ H0 Hloop) as H. simpl in H.
  destruct H as (closed & cur & Hd & Hch & Hcl & Htok & Hcur).
  rewrite Hcl, is_nil_decorate.
  destruct cur as [|c0 cur']; simpl negb; cbv iota.
  - rewrite app_nil_r in Hd. now subst.
  - destruct (Hcur ltac:(discriminate)) as [Hstart Hbud].
    rewrite Hstart. subst lines.
    replace (Z.of_nat (List.length (closed ++ c0 :: cur')))
      with (1 + Z.of_nat (List.length closed)
            + Z.of_nat (List.length (c0 :: cur')) - 1)
      by (rewrite length_app; lia).
    apply chunked_snoc; auto. discriminate.
Qed.

Lemma chunked_tiles from lines cs :
  chunked from lines cs ->
  tiles from cs (from + Z.of_nat (List.length lines) - 1).
Proof.
  induction 1 as [from | from g rest cs Hg Hb Hrest IH]; cbn [tiles].
  - cbn [List.length]. lia.
  - cbn [start_line end_line]. repeat split.
    + destruct g; [congruence | cbn [List.length]; lia].
    + replace (from + Z.of_nat (List.length g) - 1 + 1)
        with (from + Z.of_nat (List.length g)) by lia.
      replace (from + Z.of_nat (List.length (g ++ rest)) - 1)
        with (from + Z.of_nat (List.length g)
              + Z.of_nat (List.length rest) - 1)
        by (rewrite length_app; lia).
      exact IH.
Qed.

Lemma chunked_nonempty from lines cs :
  chunked from lines cs -> lines <> [] -> cs <> [].
Proof. destruct 1; [congruence | discriminate]. Qed.

(** Every chunk is one run [g] of the file, found at its own line range. *)
Lemma chunked_In from lines cs c :
  chunked from lines cs -> In c cs ->
  exists pre g post,
    lines = pre ++ g ++ post /\ g <> [] /\
    start_line c = from + Z.of_nat (List.length pre) /\
    end_line c = start_line c + Z.of_nat (List.length g) - 1 /\
    text c = join newline (decorate (start_line c) g) /\
    within_budget (start_line c) g.
Proof.
  induction 1 as [from | from g rest cs Hg Hb Hrest IH]; intros Hin.
  - destruct Hin.
  - destruct Hin as [<- | Hin].
    + clear IH. exists [], g, rest.
      cbn [start_line end_line text app List.length].
      rewrite Z.add_0_r. repeat split; auto.
    + destruct (IH Hin) as (pre & g' & post & -> & Hg' & Hs & He & Ht & Hb').
      exists (g ++ pre), g', post. rewrite <- app_assoc.
      repeat split; auto. rewrite Hs, length_app. lia.
Qed.

Lemma line_range_found pre g post :
  line_range (pre ++ g ++ post) (1 + Z.of_nat (List.length pre))
             (1 + Z.of_nat (List.length pre) + Z.of_nat (List.length g) - 1)
  = g.
Proof.
  unfold line_range.
  replace (Z.to_nat (1 + Z.of_nat (List.length pre) - 1))
    with (List.length pre) by lia.
  replace (Z.to_nat (1 + Z.of_nat (List.length pre)
                     + Z.of_nat (List.length g) - 1
                     - (1 + Z.of_nat (List.length pre)) + 1))
    with (List.length g) by lia.
  rewrite skipn_app, skipn_all, Nat.sub_diag. cbn [skipn app].
  rewrite firstn_app, firstn_all, Nat.sub_diag. cbn [firstn].
  now rewrite app_nil_r.
Qed.

Lemma chunked_concat from lines cs :
  chunked from lines cs ->
  flat_map (fun c =>
              firstn (Z.to_nat (end_line c - start_line c + 1))
                     (skipn (Z.to_nat (start_line c - from)) lines)) cs
  = lines.
Proof.
  induction 1 as [from | from g rest cs Hg Hb Hrest IH]; cbn [flat_map].
  - reflexivity.
  - cbn [start_line end_line].
    replace (Z.to_nat (from - from)) with 0%nat by lia.
    replace (Z.to_nat (from + Z.of_nat (List.length g) - 1 - from + 1))
      with (List.length g) by lia.
    cbn [skipn]. rewrite firstn_app, firstn_all, Nat.sub_diag.
    cbn [firstn]. rewrite app_nil_r. f_equal.
    etransitivity; [|exact IH]. rewrite !flat_map_concat_map. f_equal.
    apply map_ext_in. intros c Hin.
    destruct (chunked_In _ _ _ _ Hrest Hin) as (pre & g' & post & _ & _ & Hs & _).
    f_equal.
    replace (Z.to_nat (start_line c - from))
      with (List.length g + Z.to_nat (start_line c
                                      - (from + Z.of_nat (List.length g))))%nat
      by lia.
    rewrite skipn_app.
    replace (List.length g + _ - List.length g)%nat
      with (Z.to_nat (start_line c - (from + Z.of_nat (List.length g))))
      by lia.
    rewrite skipn_all2 by lia. reflexivity.
Qed.

(** C3. The empty text yields no chunk.  For a non-empty text whose
    decorated lines the tokenizer all accepts, [_chunk_text] returns chunks
    whose inclusive line ranges tile [1 .. total_lines]: ascending,
    contiguous, without gap or overlap, and there is at least one chunk.
    But on a text with a decorated line the tokenizer raises on,
    [_chunk_text] raises too and returns no chunks at all; so whatever it
    returns tiles the lines, and it does not return for every text. *)
Theorem chunk_ranges_partition (text : string) :
  let lines := splitlines text in
  (text = "" -> _chunk_text text = Some []) /\
  (text <> "" -> accepted 1 lines = true ->
   exists cs,
     _chunk_text text = Some cs /\
     tiles 1 cs (Z.of_nat (List.length lines)) /\
     cs <> [] /\ 1 <= Z.of_nat (List.length lines)) /\
  (text <> "" -> accepted 1 lines = false -> _chunk_text text = None) /\
  (forall cs, _chunk_text text = Some cs ->
              tiles 1 cs (Z.of_nat (List.length lines))).
Proof.
  intros lines. subst lines. unfold Chunker._chunk_text.
  destruct text as [|c s].
  - repeat split; try congruence. intros cs [= <-]. reflexivity.
  - cbn [is_empty].
    pose proof (splitlines_nonempty (String c s) ltac:(discriminate)) as Hne.
    assert (Htiles : forall cs, chunk_lines (splitlines (String c s)) = Some cs ->
              tiles 1 cs (Z.of_nat (List.length (splitlines (String c s))))).
    { intros cs Hcs. apply chunk_lines_chunked, chunked_tiles in Hcs.
      now replace (1 + Z.of_nat (List.length (splitlines (String c s))) - 1)
        with (Z.of_nat (List.length (splitlines (String c s)))) in Hcs by lia. }
    split; [discriminate|]. split; [|split; [|exact Htiles]].
    + intros _ Hacc.
      destruct (chunk_lines_returns _ Hacc) as [cs Hcs].
      exists cs. split; [exact Hcs|]. split; [now apply Htiles|]. split.
      * eapply chunked_nonempty; [apply chunk_lines_chunked|]; eauto.
      * destruct (splitlines (String c s));
          [congruence | cbn [List.length]; lia].
    + intros _ Hacc. now apply chunk_lines_raises.
Qed.

(** C4. Every chunk [_chunk_text] returns is the run of decorated lines of
    its own line range, and the token total of that run is at most
    [max_tokens_per_chunk] unless the run is one line whose own cost exceeds
    the budget; the tokenizer has counted every line of the file, and the
    runs of the chunks, in order, are all the lines of the file, so no line
    is dropped. *)
Theorem chunk_budget (text : string) (cs : list CodeChunk) :
  _chunk_text text = Some cs ->
  let lines := splitlines text in
  accepted 1 lines = true /\
  (forall c, In c cs ->
     let g := line_range lines (start_line c) (end_line c) in
     1 <= start_line c <= end_line c /\
     end_line c <= Z.of_nat (List.length lines) /\
     Chunker.text c = join newline (decorate (start_line c) g) /\
     (total_tokens (start_line c) g <= max_tokens \/
      (start_line c = end_line c /\
       exists l, g = [l] /\ line_cost (start_line c) l > max_tokens))) /\
  flat_map (fun c => line_range lines (start_line c) (end_line c)) cs = lines.
Proof.
  intros Hcs lines. unfold Chunker._chunk_text in Hcs. subst lines.
  destruct text as [|c0 s].
  - apply Some_eq in Hcs. subst cs.
    split; [reflexivity|]. split; [intros c []|reflexivity].
  - cbn [is_empty] in Hcs.
    pose proof (chunk_lines_chunked _ _ Hcs) as H.
    pose proof (chunk_lines_accepted _ _ Hcs) as Hacc.
    set (lines := splitlines (String c0 s)) in *.
    split; [exact Hacc|]. split.
    + intros c Hin.
      destruct (chunked_In _ _ _ _ H Hin)
        as (pre & g' & post & Hl & Hg' & Hs & He & Ht & Hb).
      assert (Hgg : line_range lines (start_line c) (end_line c) = g').
      { rewrite Hl, He, Hs. apply line_range_found. }
      rewrite Hgg.
      assert (Hlen : (0 < List.length g')%nat)
        by (destruct g'; [congruence | cbn [List.length]; lia]).
      repeat split; auto; try lia.
      * rewrite Hl, !length_app. lia.
      * destruct Hb as [Hb | (l & -> & Hb)]; [now left | right].
        split; [cbn [List.length] in He; lia | eauto].
    + exact (chunked_concat _ _ _ H).
Qed.

End ChunkerFacts.

(** ** Validation of the report *)

Section ReportFacts.
Import Report.

Variable json_loads : string -> option json.

Local Abbreviation _validate_report := (_validate_report json_loads).


Lemma validate_invalid_json text :
  json_loads text = None ->
  _validate_report text = ReportGenerationError "Model returned invalid JSON".
Proof. unfold Report._validate_report. now intros ->. Qed.

(** On a container the outcome is decided by the two membership tests. *)
Lemma validate_container text data fa eps :
  json_loads text = Some data ->
  contains "feature_analysis" data = Some fa ->
  contains "execution_plan_suggestion" data = Some eps ->
  _validate_report text =
    if (fa && eps)%bool then Returned data
    else ReportGenerationError missing_keys.
Proof.
  unfold Report._validate_report. intros -> -> Heps.
  destruct fa; [rewrite Heps; destruct eps|]; reflexivity.
Qed.

Lemma contains_array_member k items :
  In (JString k) items -> contains k (JArray items) = Some true.
Proof.
  intros Hin. cbn [contains]. f_equal. apply existsb_exists.
  exists (JString k). split; [assumption | apply String.eqb_refl].
Qed.

(** C2 (the case the code misses). When the text is valid JSON for a number,
    a boolean or [null], the membership test of [_validate_report] raises
    [TypeError]: a failure that is not the typed report-generation failure
    escapes. *)
Theorem validate_scalar_raises_type_error (text : string) (data : json) :
  json_loads text = Some data ->
  match data with
  | JNull | JBool _ | JInt _ | JFloat _ => True
  | _ => False
  end ->
  _validate_report text = TypeError.
Proof.
  unfold Report._validate_report. intros -> Hscalar.
  destruct data; solve [reflexivity | destruct Hscalar].
Qed.

(** C10. The required keys are looked up with a membership test: a JSON array
    that has the two strings among its elements passes, and the array itself,
    which is not a mapping, is returned as the report. *)
Theorem validate_accepts_array (text : string) (items : list json) :
  json_loads text = Some (JArray items) ->
  In (JString "feature_analysis") items ->
  In (JString "execution_plan_suggestion") items ->
  _validate_report text = Returned (JArray items).
Proof.
  intros Hload Hfa Heps.
  rewrite (validate_container text _ true true Hload);
    auto using contains_array_member.
Qed.

End ReportFacts.




(** ** End-line inference *)

Section FillFacts.
Import Symbols.
Local Open Scope list_scope.


Lemma insert_asc_sorted_head (x : SymbolInfo) l :
  HdRel (fun a b => line_start a <= line_start b) x l ->
  insert_asc Z.ltb line_start x l = x :: l.
Proof.
  destruct 1 as [|y l Hxy]; cbn [insert_asc]; [reflexivity|].
  now replace (line_start y <? line_start x) with false
    by (symmetry; apply Z.ltb_ge; exact Hxy).
Qed.

(** [list.sort] leaves a list that is already in order as it is. *)
Lemma sort_by_start_sorted l :
  starts_ascending l -> sort_by Z.ltb line_start false l = l.
Proof.
  unfold sort_by. induction 1 as [|x l Hl IH Hhd]; cbn [fold_right].
  - reflexivity.
  - rewrite IH. now apply insert_asc_sorted_head.
Qed.

Lemma fill_ends_length l total : List.length (fill_ends l total) = List.length l.
Proof. induction l; cbn [fill_ends List.length]; congruence. Qed.

Lemma fill_ends_nth l total : forall i s,
  nth_error l i = Some s ->
  nth_error (fill_ends l total) i
  = Some (with_line_end s
            match nth_error l (S i) with
            | Some next => Z.max (line_start s) (line_start next - 1)
            | None => total
            end).
Proof.
  induction l as [|x l IH]; intros [|i] s H; try discriminate.
  - cbn in H. injection H as ->. cbn [fill_ends nth_error].
    destruct l; reflexivity.
  - cbn [nth_error] in H. cbn [fill_ends]. cbn [nth_error].
    now apply IH.
Qed.


(** C7. After [_fill_symbol_line_ends] on symbols in ascending order of start
    line, the list holds the same symbols in the same order; the end line of
    each is the start line of the next minus one, but at least its own start
    line, and the end line of the last is [total_lines].  Symbols that start
    at lines 1, 10 and 25 of a 30-line file end at lines 9, 24 and 30. *)
Theorem fill_line_ends_next_start (symbols : list SymbolInfo) (total_lines : Z) :
  starts_ascending symbols ->
  List.length (_fill_symbol_line_ends symbols total_lines)
    = List.length symbols /\
  (forall i s,
     nth_error symbols i = Some s ->
     nth_error (_fill_symbol_line_ends symbols total_lines) i
     = Some (with_line_end s
               match nth_error symbols (S i) with
               | Some next => Z.max (line_start s) (line_start next - 1)
               | None => total_lines
               end)) /\
  map line_end (_fill_symbol_line_ends sample_symbols 30) = [9; 24; 30].
Proof.
  intros Hsorted. unfold _fill_symbol_line_ends.
  rewrite (sort_by_start_sorted symbols Hsorted).
  split; [apply fill_ends_length|].
  split; [apply fill_ends_nth | reflexivity].
Qed.

End FillFacts.


(** ** Soft failures of the summarizer *)

Section SummarizerFacts.
Import Text Selection Chunker Summarizer.
Local Open Scope list_scope.

Variable read_text : Path -> option string.
Variable encode_len : string -> option nat.
Variable settings : Settings.
Variable _summarize_chunk : CodeChunk -> FileCandidate -> string -> option string.

Local Abbreviation chunks_of := (chunks_of read_text encode_len settings).
Local Abbreviation summarize_chunks := (summarize_chunks _summarize_chunk).
Local Abbreviation summarize_candidate :=
  (summarize_candidate read_text encode_len settings _summarize_chunk).
Local Abbreviation summarize_candidates :=
  (summarize_candidates read_text encode_len settings _summarize_chunk).


(** A failing chunk is dropped, the others keep their order. *)
Lemma summarize_chunks_flat_map chunks candidate problem :
  summarize_chunks chunks candidate problem
  = flat_map (fun chunk => option_list (_summarize_chunk chunk candidate problem))
             chunks.
Proof.
  induction chunks as [|chunk rest IH]; cbn [Summarizer.summarize_chunks flat_map].
  - reflexivity.
  - rewrite IH. now destruct (_summarize_chunk chunk candidate problem).
Qed.

Lemma summarize_chunks_all_fail chunks candidate problem :
  (forall chunk, In chunk chunks ->
                 _summarize_chunk chunk candidate problem = None) ->
  summarize_chunks chunks candidate problem = [].
Proof.
  induction chunks as [|chunk rest IH]; intros Hfail;
    cbn [Summarizer.summarize_chunks]; [reflexivity|].
  rewrite (Hfail chunk (or_introl eq_refl)).
  apply IH. intros c Hc. apply Hfail. now right.
Qed.

Lemma summarize_chunks_one_succeeds chunks candidate problem chunk :
  In chunk chunks ->
  _summarize_chunk chunk candidate problem <> None ->
  summarize_chunks chunks candidate problem <> [].
Proof.
  induction chunks as [|c rest IH]; intros Hin Hok; [destruct Hin|].
  cbn [Summarizer.summarize_chunks].
  destruct (_summarize_chunk c candidate problem) eqn:Hc; [discriminate|].
  destruct Hin as [-> | Hin]; [congruence | now apply IH].
Qed.

(** An iteration is left by an exception exactly when the text of the
    candidate cannot be read or cannot be cut. *)
Lemma summarize_candidate_aborted candidate problem :
  summarize_candidate candidate problem = Aborted <->
  chunks_of candidate = None.
Proof.
  unfold Summarizer.summarize_candidate, Summarizer.chunks_of.
  destruct (read_text (path candidate)) as [text|]; [|now split].
  destruct (_chunk_text _ _ text) as [chunks|]; [|now split].
  destruct (is_nil chunks); [split; discriminate|].
  destruct (is_nil (summarize_chunks chunks candidate problem));
    split; discriminate.
Qed.

(** A file without chunks, or whose every chunk call fails, has no summary. *)
Lemma summarize_candidate_skipped candidate problem chunks :
  chunks_of candidate = Some chunks ->
  (forall chunk, In chunk chunks ->
                 _summarize_chunk chunk candidate problem = None) ->
  summarize_candidate candidate problem = Skipped.
Proof.
  unfold Summarizer.summarize_candidate, Summarizer.chunks_of.
  destruct (read_text (path candidate)) as [text|]; [|discriminate].
  intros -> Hfail.
  destruct (is_nil chunks); [reflexivity|].
  now rewrite (summarize_chunks_all_fail _ _ _ Hfail).
Qed.

(** A file with a chunk whose call succeeds has one, built from the summaries
    of the chunks that succeeded. *)
Lemma summarize_candidate_kept candidate problem chunks chunk :
  chunks_of candidate = Some chunks ->
  In chunk chunks ->
  _summarize_chunk chunk candidate problem <> None ->
  exists text,
    read_text (path candidate) = Some text /\
    summarize_candidate candidate problem
    = Summarized
        (mkFileSummary
           (path candidate) (relative_path candidate) (language candidate)
           (_combine_chunk_summaries
              (summarize_chunks chunks candidate problem))
           (Symbols.extract_symbol_table text (language candidate))).
Proof.
  unfold Summarizer.summarize_candidate, Summarizer.chunks_of.
  destruct (read_text (path candidate)) as [text|]; [|discriminate].
  intros -> Hin Hok. exists text. split; [reflexivity|].
  destruct chunks as [|c0 cs]; [destruct Hin|].
  cbn [is_nil].
  pose proof (summarize_chunks_one_succeeds _ _ _ _ Hin Hok) as Hne.
  destruct (summarize_chunks (c0 :: cs) candidate problem);
    [congruence | reflexivity].
Qed.

(** One candidate whose iteration is left by an exception ends the run. *)
Lemma summarize_candidates_aborted candidates problem candidate :
  In candidate candidates -> chunks_of candidate = None ->
  summarize_candidates candidates problem = None.
Proof.
  intros Hin Hnone. apply summarize_candidate_aborted with (problem := problem) in Hnone.
  induction candidates as [|c rest IH]; [destruct Hin|].
  cbn [Summarizer.summarize_candidates].
  destruct Hin as [-> | Hin]; [now rewrite Hnone|].
  destruct (summarize_candidate c problem); [auto | | reflexivity].
  now rewrite (IH Hin).
Qed.

Lemma summarize_candidates_flat_map candidates problem :
  (forall c, In c candidates -> chunks_of c <> None) ->
  summarize_candidates candidates problem
  = Some (flat_map (fun c => appended (summarize_candidate c problem))
                   candidates).
Proof.
  induction candidates as [|c rest IH]; intros Hall;
    cbn [Summarizer.summarize_candidates flat_map]; [reflexivity|].
  rewrite IH by (intros c' Hc'; apply Hall; now right).
  destruct (summarize_candidate c problem) eqn:Hc; cbn; try reflexivity.
  apply summarize_candidate_aborted in Hc.
  now contradiction (Hall c (or_introl eq_refl)).
Qed.

(** C8. With the language-model call a function that may fail, the failures
    of that call are soft: as long as the text of every candidate can be read
    and cut into chunks, [summarize_candidates] returns exactly the
    summaries of the candidates that have one, in order; within a file the
    failing chunks are dropped and the others kept in order; a file without
    chunks or whose every chunk fails has no summary; so for two candidates,
    every chunk of one failing and some chunk of the other succeeding, the
    result is the one summary of the other file, whichever comes first.
    But the run can be aborted: [read_text] and [_chunk_text] are called
    outside the [try], so one candidate whose text cannot be read, or has a
    line the tokenizer raises on, ends [summarize_candidates] with that
    exception, whatever the other candidates are. *)
Theorem summarize_soft_failures (problem : string) :
  (forall candidates candidate text,
     In candidate candidates ->
     read_text (path candidate) = Some text ->
     text <> "" ->
     accepted encode_len 1 (splitlines text) = false ->
     summarize_candidates candidates problem = None) /\
  (forall candidates candidate,
     In candidate candidates ->
     read_text (path candidate) = None ->
     summarize_candidates candidates problem = None) /\
  (forall candidates,
     (forall c, In c candidates -> chunks_of c <> None) ->
     summarize_candidates candidates problem
     = Some (flat_map (fun c => appended (summarize_candidate c problem))
                      candidates)) /\
  (forall chunks candidate,
     summarize_chunks chunks candidate problem
     = flat_map (fun chunk =>
                   option_list (_summarize_chunk chunk candidate problem))
                chunks) /\
  (forall candidate chunks,
     chunks_of candidate = Some chunks ->
     (forall chunk, In chunk chunks ->
                    _summarize_chunk chunk candidate problem = None) ->
     summarize_candidate candidate problem = Skipped) /\
  (forall failing other failing_chunks chunks chunk,
     chunks_of failing = Some failing_chunks ->
     (forall c, In c failing_chunks ->
                _summarize_chunk c failing problem = None) ->
     chunks_of other = Some chunks ->
     In chunk chunks ->
     _summarize_chunk chunk other problem <> None ->
     exists s,
       summarize_candidate other problem = Summarized s /\
       fs_path s = path other /\
       summarize_candidates [failing; other] problem = Some [s] /\
       summarize_candidates [other; failing] problem = Some [s]).
Proof.
  split.
  { intros candidates candidate text Hin Hread Hne Hacc.
    apply (summarize_candidates_aborted _ _ candidate Hin).
    unfold Summarizer.chunks_of, Chunker._chunk_text. rewrite Hread.
    destruct text; [congruence|]. cbn [is_empty].
    now apply chunk_lines_raises. }
  split.
  { intros candidates candidate Hin Hread.
    apply (summarize_candidates_aborted _ _ candidate Hin).
    unfold Summarizer.chunks_of. now rewrite Hread. }
  split; [intros; now apply summarize_candidates_flat_map|].
  split; [intros; apply summarize_chunks_flat_map|].
  split; [intros candidate chunks; apply summarize_candidate_skipped|].
  intros failing other fchunks chunks chunk Hf Hfail Ho Hin Hok.
  pose proof (summarize_candidate_skipped failing problem _ Hf Hfail) as Hskip.
  destruct (summarize_candidate_kept other problem _ chunk Ho Hin Hok)
    as (text & _ & Hkept).
  eexists. split; [exact Hkept|]. split; [reflexivity|].
  cbn [Summarizer.summarize_candidates]. rewrite Hskip, Hkept.
  split; reflexivity.
Qed.

End SummarizerFacts.

(** ** Candidate selection *)

Section SortFacts.
Import Symbols.
Local Open Scope list_scope.
Context {A K : Type} (lt : K -> K -> bool) (key : A -> K).

Lemma insert_asc_perm x l : Permutation (insert_asc lt key x l) (x :: l).
Proof.
  induction l as [|y l IH]; cbn [insert_asc]; [reflexivity|].
  destruct (lt (key y) (key x)); [|reflexivity].
  rewrite IH. apply perm_swap.
Qed.

Lemma insert_desc_perm x l : Permutation (insert_desc lt key x l) (x :: l).
Proof.
  induction l as [|y l IH]; cbn [insert_desc]; [reflexivity|].
  destruct (lt (key x) (key y)); [|reflexivity].
  rewrite IH. apply perm_swap.
Qed.

(** [list.sort] rearranges the list, it neither adds nor loses an element. *)
Lemma sort_by_perm reverse l : Permutation (sort_by lt key reverse l) l.
Proof.
  unfold sort_by. induction l as [|x l IH]; cbn [fold_right]; [reflexivity|].
  destruct reverse; [rewrite insert_desc_perm | rewrite insert_asc_perm];
    now rewrite IH.
Qed.

End SortFacts.

Section SelectionFacts.
Import Text Symbols Selection.
Local Open Scope list_scope.

Lemma mem_In x s : mem x s = true <-> In x s.
Proof.
  unfold mem. rewrite existsb_exists. split.
  - intros (y & Hin & Heq). apply String.eqb_eq in Heq. now subst.
  - intros Hin. exists x. split; [assumption | apply String.eqb_refl].
Qed.

Lemma firstn_In {A} n : forall (l : list A) x, In x (firstn n l) -> In x l.
Proof.
  induction n as [|n IH]; intros [|y l] x H; cbn [firstn] in H;
    try contradiction.
  destruct H as [-> | H]; [now left | right; now apply IH].
Qed.

Lemma slice_to_In {A} n (l : list A) x : In x (slice_to n l) -> In x l.
Proof. unfold slice_to. destruct (n <? 0); apply firstn_In. Qed.

Lemma slice_to_length {A} n (l : list A) :
  0 <= n -> Z.of_nat (List.length (slice_to n l)) <= n.
Proof.
  intros Hn. unfold slice_to.
  replace (n <? 0) with false by (symmetry; apply Z.ltb_ge; exact Hn).
  pose proof (firstn_le_length (Z.to_nat n) l). lia.
Qed.

Variable root : Path.
Variable settings : Settings.
Variable tree : list Entry.

Lemma collect_In_gather c :
  In c (collect_source_candidates root settings tree) ->
  In c (gather_candidates root settings tree).
Proof.
  unfold collect_source_candidates. intros H.
  assert (Hs : In c (sort_by PrimFloat.ltb weight true
                             (gather_candidates root settings tree))).
  { destruct (_ >? _); [now apply slice_to_In in H | assumption]. }
  exact (Permutation_in _ (sort_by_perm PrimFloat.ltb weight true _) Hs).
Qed.

Lemma gather_In_entry c :
  In c (gather_candidates root settings tree) ->
  exists e, In e tree /\ keep_source_file root e = true /\
            candidate_of root settings e = Some c.
Proof.
  unfold gather_candidates, iter_source_files. intros H.
  apply in_flat_map in H as (e & He & Hc).
  apply filter_In in He as [He Hkeep].
  exists e. repeat split; auto.
  destruct (candidate_of root settings e); cbn [In] in Hc;
    [destruct Hc as [-> | []]; reflexivity | destruct Hc].
Qed.

(** What the size and extension tests let through. *)
Lemma candidate_of_Some e c :
  candidate_of root settings e = Some c ->
  path c = root ++ rel e /\
  relative_path c = rel e /\
  0 < size_bytes c <= max_file_bytes settings /\
  get (lower (suffix (path c))) SOURCE_EXTENSIONS = Some (language c).
Proof.
  unfold candidate_of.
  destruct ((Z.of_N (st_size e) =? 0)
            || (Z.of_N (st_size e) >? max_file_bytes settings))%bool eqn:Hsize;
    [discriminate|].
  apply orb_false_elim in Hsize as [H0 Hmax].
  apply Z.eqb_neq in H0. rewrite Z.gtb_ltb, Z.ltb_ge in Hmax.
  destruct (get _ SOURCE_EXTENSIONS) as [lang|] eqn:Hget; [|discriminate].
  destruct (is_empty lang); [discriminate|].
  intros [= <-]. cbn [path relative_path size_bytes language].
  repeat split; auto; lia.
Qed.

(** What [iter_source_files] lets through. *)
Lemma keep_source_file_true e :
  keep_source_file root e = true ->
  is_file e = true /\
  mem (lower (suffix (root ++ rel e))) SKIP_EXTENSIONS = false /\
  (forall part, In part (root ++ rel e) -> mem part SKIP_DIR_NAMES = false).
Proof.
  unfold keep_source_file. intros H.
  apply andb_prop in H as [H Hdirs]. apply andb_prop in H as [Hfile Hext].
  apply negb_true_iff in Hext, Hdirs.
  repeat split; auto.
  intros part Hin. destruct (mem part SKIP_DIR_NAMES) eqn:Hm; [|reflexivity].
  assert (existsb (fun part => mem part SKIP_DIR_NAMES) (root ++ rel e) = true)
    by (apply existsb_exists; eauto).
  congruence.
Qed.

(** C5 (amended). For every directory tree and configuration, every candidate
    that [collect_source_candidates] returns is a regular file found below
    the root, its size is above 0 and at most [max_file_bytes], its
    lower-cased extension is a key of the language mapping (with the
    candidate's language) and not a noise extension, and no segment of its
    path is a noise directory name; when [max_candidate_files] is not
    negative, at most that many candidates are returned. *)
Theorem collect_candidates_filtered :
  (0 <= max_candidate_files settings ->
   Z.of_nat (List.length (collect_source_candidates root settings tree))
   <= max_candidate_files settings) /\
  (forall c, In c (collect_source_candidates root settings tree) ->
     (exists e, In e tree /\ is_file e = true /\ path c = root ++ rel e) /\
     0 < size_bytes c <= max_file_bytes settings /\
     get (lower (suffix (path c))) SOURCE_EXTENSIONS = Some (language c) /\
     mem (lower (suffix (path c))) SKIP_EXTENSIONS = false /\
     (forall part, In part (path c) -> mem part SKIP_DIR_NAMES = false)).
Proof.
  split.
  - intros Hmax. unfold collect_source_candidates.
    destruct (_ >? _) eqn:Hgt.
    + now apply slice_to_length.
    + rewrite Z.gtb_ltb, Z.ltb_ge in Hgt. exact Hgt.
  - intros c Hin.
    apply collect_In_gather, gather_In_entry in Hin
      as (e & He & Hkeep & Hcand).
    apply candidate_of_Some in Hcand as (Hpath & _ & Hsize & Hext).
    apply keep_source_file_true in Hkeep as (Hfile & Hskip & Hdirs).
    rewrite Hpath in *. repeat split; eauto; lia.
Qed.

End SelectionFacts.

(** ** Symbol extraction *)

Section ExtractionFacts.
Import Text Regex Symbols.
Local Open Scope list_scope.

(** *** The brace-scoped extractor *)


Lemma record_method_new found cls idx symbols :
  exists new,
    record_method found cls idx symbols = symbols ++ new /\
    Forall (ts_line_symbol idx) new.
Proof.
  unfold record_method. destruct found as [m|], cls as [c|];
    try (exists []; split; [now rewrite app_nil_r | constructor]).
  eexists. split; [reflexivity|].
  constructor; [split; [reflexivity | left; reflexivity] | constructor].
Qed.

(** One line adds symbols at the end, all of them methods or functions that
    start at this line. *)
Lemma ts_step_symbols idx line st :
  exists new,
    ts_symbols (ts_step idx line st) = ts_symbols st ++ new /\
    Forall (ts_line_symbol idx) new.
Proof.
  unfold ts_step. cbn [ts_symbols].
  set (cls := current_class _).
  destruct (record_method_new (matched_group 4 (re_match TS_METHOD_RE line))
                              cls idx (ts_symbols st)) as (n1 & -> & H1).
  destruct (record_method_new
              (matched_group 3 (re_match TS_ARROW_METHOD_RE line))
              cls idx (ts_symbols st ++ n1)) as (n2 & -> & H2).
  destruct (matched_group 1 (re_search TS_FUNCTION_RE line)) as [f|].
  - exists (n1 ++ n2 ++ [mkSymbolInfo f "function" idx idx]).
    split; [now rewrite <- !app_assoc|].
    repeat (apply Forall_app; split); auto.
    constructor; [split; [reflexivity | right; reflexivity] | constructor].
  - exists (n1 ++ n2). split; [now rewrite <- !app_assoc|].
    apply Forall_app; auto.
Qed.

Lemma ts_loop_symbols lines : forall idx st,
  exists new,
    ts_symbols (ts_loop idx lines st) = ts_symbols st ++ new /\
    Forall (fun s => idx <= line_start s < idx + Z.of_nat (List.length lines)
                     /\ (kind s = "method" \/ kind s = "function")) new.
Proof.
  induction lines as [|line rest IH]; intros idx st; cbn [ts_loop].
  - exists []. split; [now rewrite app_nil_r | constructor].
  - destruct (IH (idx + 1) (ts_step idx line st)) as (n2 & -> & H2).
    destruct (ts_step_symbols idx line st) as (n1 & -> & H1).
    exists (n1 ++ n2). split; [now rewrite <- app_assoc|].
    apply Forall_app; split.
    + eapply Forall_impl; [|exact H1]. intros s [Hs Hk].
      cbn [List.length]. split; [lia | exact Hk].
    + eapply Forall_impl; [|exact H2]. intros s [Hs Hk].
      cbn [List.length]. split; [lia | exact Hk].
Qed.

Lemma ts_loop_app a : forall idx b st,
  ts_loop idx (a ++ b) st
  = ts_loop (idx + Z.of_nat (List.length a)) b (ts_loop idx a st).
Proof.
  induction a as [|x a IH]; intros idx b st; cbn [ts_loop app List.length].
  - now rewrite Z.add_0_r.
  - rewrite IH. f_equal. lia.
Qed.

(** A function declaration on a line outside any class adds exactly one
    symbol: the function, under its bare name. *)
Lemma ts_step_top_level_function idx line st f :
  ts_stack st = [] ->
  matched_group 1 (re_search CLASS_RE line) = None ->
  matched_group 1 (re_search TS_FUNCTION_RE line) = Some f ->
  ts_symbols (ts_step idx line st)
  = ts_symbols st ++ [mkSymbolInfo f "function" idx idx].
Proof.
  intros Hstack Hclass Hfun. unfold ts_step. cbn [ts_symbols].
  rewrite Hclass, Hstack, Hfun. cbn [current_class].
  unfold record_method.
  now destruct (matched_group 4 _), (matched_group 3 _).
Qed.

(** A function declaration is recorded under its bare name wherever it
    stands. *)
Lemma ts_function_recorded pre line post f :
  matched_group 1 (re_search TS_FUNCTION_RE line) = Some f ->
  In (mkSymbolInfo f "function" (1 + Z.of_nat (List.length pre))
                               (1 + Z.of_nat (List.length pre)))
     (_extract_typescript_symbols (pre ++ line :: post)).
Proof.
  intros Hfun. unfold _extract_typescript_symbols.
  rewrite ts_loop_app. cbn [ts_loop].
  set (st := ts_loop 1 pre _). set (idx := 1 + Z.of_nat (List.length pre)).
  destruct (ts_loop_symbols post (idx + 1) (ts_step idx line st))
    as (n & -> & _).
  apply in_or_app. left.
  unfold ts_step. cbn [ts_symbols]. rewrite Hfun.
  apply in_or_app. right. now left.
Qed.


(** *** The indentation-scoped extractor *)

Lemma lstrip_length s : (String.length (lstrip s) <= String.length s)%nat.
Proof.
  induction s as [|c s IH]; cbn [lstrip String.length]; [lia|].
  destruct (is_space c); cbn [String.length]; lia.
Qed.

Lemma indentation_nonneg line : 0 <= indentation line.
Proof. unfold indentation, len. pose proof (lstrip_length line). lia. Qed.

Lemma pop_dedented_all indent stack :
  Forall (fun entry => indent <= snd entry) stack ->
  pop_dedented indent stack = [].
Proof.
  induction 1 as [|[c i] stack Hi _ IH]; cbn [pop_dedented]; [reflexivity|].
  cbn [snd] in Hi.
  now replace (indent <=? i) with true by (symmetry; now apply Z.leb_le).
Qed.

Lemma pop_dedented_keeps (P : string * Z -> Prop) indent stack :
  Forall P stack -> Forall P (pop_dedented indent stack).
Proof.
  induction 1 as [|[c i] stack Hp Hall IH]; cbn [pop_dedented];
    [constructor|].
  destruct (indent <=? i); [exact IH | now constructor].
Qed.

(** Every class on the stack is at least as indented as [lo], as long as the
    class lines read are. *)
Lemma py_step_stack_bound lo idx line st :
  Forall (fun entry => lo <= snd entry) (py_stack st) ->
  (matched_group 1 (re_match PY_CLASS_RE line) <> None ->
   lo <= indentation line) ->
  Forall (fun entry => lo <= snd entry) (py_stack (py_step idx line st)).
Proof.
  intros Hst Hline. unfold py_step.
  pose proof (pop_dedented_keeps _ (indentation line) _ Hst) as Hpop.
  destruct (matched_group 1 (re_match PY_CLASS_RE line)) as [c|].
  - cbn [py_stack]. constructor; [apply Hline; discriminate | exact Hpop].
  - destruct (matched_group 1 (re_match PY_DEF_RE line)); exact Hpop.
Qed.

Lemma py_loop_stack_bound lo lines : forall idx st,
  Forall (fun entry => lo <= snd entry) (py_stack st) ->
  (forall m, In m lines ->
     matched_group 1 (re_match PY_CLASS_RE m) <> None ->
     lo <= indentation m) ->
  Forall (fun entry => lo <= snd entry) (py_stack (py_loop idx lines st)).
Proof.
  induction lines as [|line rest IH]; intros idx st Hst Hlines;
    cbn [py_loop]; [exact Hst|].
  apply IH.
  - apply py_step_stack_bound; [exact Hst | apply Hlines; now left].
  - intros m Hm. apply Hlines. now right.
Qed.

Lemma py_loop_app a : forall idx b st,
  py_loop idx (a ++ b) st
  = py_loop (idx + Z.of_nat (List.length a)) b (py_loop idx a st).
Proof.
  induction a as [|x a IH]; intros idx b st; cbn [py_loop app List.length].
  - now rewrite Z.add_0_r.
  - rewrite IH. f_equal. lia.
Qed.

Lemma py_step_symbols idx line st :
  exists new,
    py_symbols (py_step idx line st) = py_symbols st ++ new /\
    Forall (fun s => line_start s = idx) new.
Proof.
  unfold py_step.
  destruct (matched_group 1 (re_match PY_CLASS_RE line)) as [c|];
    [|destruct (matched_group 1 (re_match PY_DEF_RE line)) as [f|]];
    cbn [py_symbols].
  - eexists. split; [reflexivity | now repeat constructor].
  - eexists. split; [reflexivity | now repeat constructor].
  - exists []. split; [now rewrite app_nil_r | constructor].
Qed.

Lemma py_loop_symbols lines : forall idx st,
  exists new,
    py_symbols (py_loop idx lines st) = py_symbols st ++ new /\
    Forall (fun s => idx <= line_start s < idx + Z.of_nat (List.length lines))
           new.
Proof.
  induction lines as [|line rest IH]; intros idx st; cbn [py_loop].
  - exists []. split; [now rewrite app_nil_r | constructor].
  - destruct (IH (idx + 1) (py_step idx line st)) as (n2 & -> & H2).
    destruct (py_step_symbols idx line st) as (n1 & -> & H1).
    exists (n1 ++ n2). split; [now rewrite <- app_assoc|].
    apply Forall_app; split.
    + eapply Forall_impl; [|exact H1]. cbn beta. intros s Hs.
      cbn [List.length]. lia.
    + eapply Forall_impl; [|exact H2]. cbn beta. intros s Hs.
      cbn [List.length]. lia.
Qed.

(** An empty line has indentation 0 and empties the class stack. *)
Lemma py_step_blank idx st :
  Forall (fun entry => 0 <= snd entry) (py_stack st) ->
  py_step idx "" st = mkPy (py_symbols st) [].
Proof.
  intros Hst. unfold py_step.
  change (indentation "") with 0.
  change (matched_group 1 (re_match PY_CLASS_RE "")) with (@None string).
  change (matched_group 1 (re_match PY_DEF_RE "")) with (@None string).
  now rewrite (pop_dedented_all 0 _ Hst).
Qed.

Lemma py_loop_blank pre :
  py_stack (py_loop 1 (pre ++ [""]) (mkPy [] [])) = [].
Proof.
  rewrite py_loop_app. cbn [py_loop].
  rewrite py_step_blank; [reflexivity|].
  apply py_loop_stack_bound; [constructor|].
  intros. apply indentation_nonneg.
Qed.

(** A def line read with no class left on the stack is recorded under its
    bare name. *)
Lemma py_step_def_unqualified idx line st f :
  pop_dedented (indentation line) (py_stack st) = [] ->
  matched_group 1 (re_match PY_CLASS_RE line) = None ->
  matched_group 1 (re_match PY_DEF_RE line) = Some f ->
  py_symbols (py_step idx line st)
  = py_symbols st ++ [mkSymbolInfo f "function" idx idx].
Proof. intros Hpop Hclass Hdef. unfold py_step. now rewrite Hclass, Hdef, Hpop. Qed.

(** The sibling extractor records the class of every class line. *)
Lemma py_class_recorded pre line post c :
  matched_group 1 (re_match PY_CLASS_RE line) = Some c ->
  In (mkSymbolInfo c "class" (1 + Z.of_nat (List.length pre))
                             (1 + Z.of_nat (List.length pre)))
     (_extract_python_symbols (pre ++ line :: post)).
Proof.
  intros Hclass. unfold _extract_python_symbols.
  rewrite py_loop_app. cbn [py_loop].
  destruct (py_loop_symbols post (1 + Z.of_nat (List.length pre) + 1)
              (py_step (1 + Z.of_nat (List.length pre)) line
                       (py_loop 1 pre (mkPy [] []))))
    as (new & -> & _).
  apply in_or_app. left. unfold py_step. rewrite Hclass.
  cbn [py_symbols]. apply in_or_app. right. now left.
Qed.

Lemma fill_ends_kinds (P : string -> Prop) l total :
  Forall (fun s => P (kind s)) l ->
  Forall (fun s => P (kind s)) (fill_ends l total).
Proof.
  induction 1 as [|x l Hx Hl IH]; cbn [fill_ends]; constructor; auto.
  destruct l; exact Hx.
Qed.

(** C1 (the case the code misses). The brace-scoped extractor never records
    a class: for every file, every symbol it returns, and every symbol of
    the symbol table of a TypeScript or JavaScript text, has kind [method]
    or [function].  So the class [Foo] with the two methods [m1] and [m2]
    yields [Foo.m1] and [Foo.m2] and no symbol for [Foo], where the
    indentation-scoped extractor records the class of every class line.
    The rest of the claim holds: a function declaration is recorded with
    kind [function] under its bare name, wherever its line stands in the
    file. *)
Theorem ts_symbols_methods_and_functions :
  (forall lines s,
     In s (_extract_typescript_symbols lines) ->
     kind s = "method" \/ kind s = "function") /\
  (forall text language s,
     language = "TypeScript" \/ language = "JavaScript" ->
     In s (extract_symbol_table text language) ->
     kind s = "method" \/ kind s = "function") /\
  extract_symbol_table (join nl ts_class_sample) "TypeScript"
  = [ mkSymbolInfo "Foo.m1" "method" 2 3;
      mkSymbolInfo "Foo.m2" "method" 4 6 ] /\
  (forall pre line post c,
     matched_group 1 (re_match PY_CLASS_RE line) = Some c ->
     In (mkSymbolInfo c "class" (1 + Z.of_nat (List.length pre))
                                (1 + Z.of_nat (List.length pre)))
        (_extract_python_symbols (pre ++ line :: post))) /\
  (forall pre line post f,
     matched_group 1 (re_search TS_FUNCTION_RE line) = Some f ->
     In (mkSymbolInfo f "function" (1 + Z.of_nat (List.length pre))
                                  (1 + Z.of_nat (List.length pre)))
        (_extract_typescript_symbols (pre ++ line :: post))).
Proof.
  assert (Hkinds : forall lines,
            Forall (fun s => kind s = "method" \/ kind s = "function")
                   (_extract_typescript_symbols lines)).
  { intros lines. unfold _extract_typescript_symbols.
    destruct (ts_loop_symbols lines 1 (mkTs [] 0 [])) as (new & -> & Hall).
    cbn [ts_symbols app]. eapply Forall_impl; [|exact Hall].
    cbn beta. intros s [_ Hs]. exact Hs. }
  split; [|split; [|split; [|split]]].
  - intros lines s Hin. specialize (Hkinds lines).
    rewrite Forall_forall in Hkinds. now apply Hkinds.
  - intros text language s Hlang Hin.
    assert (Hall : Forall (fun s => kind s = "method" \/ kind s = "function")
                          (extract_symbol_table text language)).
    { unfold extract_symbol_table, _fill_symbol_line_ends.
      apply (fill_ends_kinds (fun k => k = "method" \/ k = "function")).
      eapply Permutation_Forall; [symmetry; apply sort_by_perm|].
      destruct Hlang as [-> | ->]; cbn [String.eqb orb]; apply Hkinds. }
    rewrite Forall_forall in Hall. now apply Hall.
  - vm_compute. reflexivity.
  - intros. now apply py_class_recorded.
  - intros. now apply ts_function_recorded.
Qed.

(** C9 (amended). In the indentation-scoped extractor an empty line has
    indentation 0 and leaves the class stack empty, whatever came before it.
    A def line after it is recorded under its bare name, with kind
    [function], provided that every class line between the empty line and
    the def is indented at least as much as the def (so that no class opened
    after the empty line encloses it). *)
Theorem blank_line_unqualifies_def (pre mid post : list string)
    (line f : string) :
  (forall m, In m mid ->
     matched_group 1 (re_match PY_CLASS_RE m) <> None ->
     indentation line <= indentation m) ->
  matched_group 1 (re_match PY_CLASS_RE line) = None ->
  matched_group 1 (re_match PY_DEF_RE line) = Some f ->
  let idx := 1 + Z.of_nat (List.length pre) + 1 + Z.of_nat (List.length mid) in
  indentation "" = 0 /\
  py_stack (py_loop 1 (pre ++ [""]) (mkPy [] [])) = [] /\
  exists before after,
    _extract_python_symbols (pre ++ "" :: mid ++ line :: post)
    = before ++ mkSymbolInfo f "function" idx idx :: after /\
    Forall (fun s => line_start s < idx) before /\
    Forall (fun s => idx < line_start s) after.
Proof.
  intros Hmid Hclass Hdef idx.
  split; [reflexivity|]. split; [apply py_loop_blank|].
  unfold _extract_python_symbols.
  replace (pre ++ "" :: mid ++ line :: post)
    with ((pre ++ [""]) ++ mid ++ line :: post)
    by (rewrite <- app_assoc; reflexivity).
  rewrite py_loop_app, py_loop_app. cbn [py_loop].
  set (s1 := py_loop 1 (pre ++ [""]) (mkPy [] [])).
  set (i1 := 1 + Z.of_nat (List.length (pre ++ [""]))).
  set (s2 := py_loop i1 mid s1).
  assert (Hidx : i1 + Z.of_nat (List.length mid) = idx).
  { subst i1 idx. rewrite length_app. cbn [List.length]. lia. }
  rewrite Hidx.
  assert (Hs2 : Forall (fun entry => indentation line <= snd entry)
                       (py_stack s2)).
  { apply py_loop_stack_bound; [|exact Hmid].
    subst s1. rewrite py_loop_blank. constructor. }
  destruct (py_loop_symbols post (idx + 1) (py_step idx line s2))
    as (after & -> & Hafter).
  rewrite (py_step_def_unqualified idx line s2 f
             (pop_dedented_all _ _ Hs2) Hclass Hdef).
  destruct (py_loop_symbols mid i1 s1) as (n2 & Hn2 & Hmid2).
  destruct (py_loop_symbols (pre ++ [""]) 1 (mkPy [] []))
    as (n1 & Hn1 & Hpre).
  fold s1 in Hn1. fold s2 in Hn2. cbn [py_symbols app] in Hn1.
  exists (py_symbols s2), after. rewrite <- app_assoc. cbn [app].
  repeat split.
  - rewrite Hn2, Hn1. apply Forall_app; split.
    + eapply Forall_impl; [|exact Hpre]. cbn beta. intros s Hs.
      fold i1 in Hs. lia.
    + eapply Forall_impl; [|exact Hmid2]. cbn beta. intros s Hs. lia.
  - eapply Forall_impl; [|exact Hafter]. cbn beta. intros s Hs. lia.
Qed.

End ExtractionFacts.


(** ** The order of binary64 weights *)

Section FloatOrder.

Ltac compare_cases :=
  repeat match goal with
  | H : context [Pos.compare_cont Eq ?a ?b] |- _ =>
      change (Pos.compare_cont Eq a b) with (Pos.compare a b) in H
  | |- context [Pos.compare_cont Eq ?a ?b] =>
      change (Pos.compare_cont Eq a b) with (Pos.compare a b)
  | H : context [Z.compare ?a ?b] |- _ => destruct (Z.compare_spec a b)
  | |- context [Z.compare ?a ?b] => destruct (Z.compare_spec a b)
  | H : context [Pos.compare ?a ?b] |- _ => destruct (Pos.compare_spec a b)
  | |- context [Pos.compare ?a ?b] => destruct (Pos.compare_spec a b)
  end;
  subst; cbn in *; try discriminate; try reflexivity; try lia.

Lemma SFltb_asym x y : SFltb x y = true -> SFltb y x = false.
Proof.
  unfold SFltb, SFcompare.
  destruct x as [[]|[]| |[] mx ex], y as [[]|[]| |[] my ey];
    intros H; try discriminate; try reflexivity; compare_cases.
Qed.

Lemma SFltb_trans x y z :
  SFltb x y = true -> SFltb y z = true -> SFltb x z = true.
Proof.
  unfold SFltb, SFcompare.
  destruct x as [[]|[]| |[] mx ex], y as [[]|[]| |[] my ey],
           z as [[]|[]| |[] mz ez];
    intros H1 H2; try discriminate; try reflexivity; compare_cases.
Qed.


Lemma SFleb_trans x y z :
  SFleb x y = true -> SFleb y z = true -> SFleb x z = true.
Proof.
  unfold SFleb, SFcompare.
  destruct x as [[]|[]| |[] mx ex], y as [[]|[]| |[] my ey],
           z as [[]|[]| |[] mz ez];
    intros H1 H2; try discriminate; try reflexivity; compare_cases.
Qed.

Lemma SFleb_total x y :
  SFeqb x x = true -> SFeqb y y = true ->
  SFltb x y = false -> SFleb y x = true.
Proof.
  unfold SFeqb, SFleb, SFltb, SFcompare.
  destruct x as [[]|[]| |[] mx ex], y as [[]|[]| |[] my ey];
    intros H1 H2 H3; try discriminate; try reflexivity; compare_cases.
Qed.

(** [<] on floats is asymmetric and transitive, and two floats that are [==]
    to a third are not [<] one another; [<=] is transitive, and total on
    floats that are not NaN. *)
Lemma float_ltb_asym (x y : float) :
  PrimFloat.ltb x y = true -> PrimFloat.ltb y x = false.
Proof. rewrite !ltb_spec. apply SFltb_asym. Qed.

Lemma float_ltb_trans (x y z : float) :
  PrimFloat.ltb x y = true -> PrimFloat.ltb y z = true ->
  PrimFloat.ltb x z = true.
Proof. rewrite !ltb_spec. apply SFltb_trans. Qed.


Lemma float_leb_trans (x y z : float) :
  PrimFloat.leb x y = true -> PrimFloat.leb y z = true ->
  PrimFloat.leb x z = true.
Proof. rewrite !leb_spec. apply SFleb_trans. Qed.

Lemma float_leb_total (x y : float) :
  PrimFloat.is_nan x = false -> PrimFloat.is_nan y = false ->
  PrimFloat.ltb x y = false -> PrimFloat.leb y x = true.
Proof.
  unfold PrimFloat.is_nan. rewrite !negb_false_iff, !eqb_spec, ltb_spec, leb_spec.
  apply SFleb_total.
Qed.

End FloatOrder.

(** ** Sorting by a key *)

Section SortedFacts.
Import Symbols.
Local Open Scope list_scope.
Context {A K : Type} (lt : K -> K -> bool) (key : A -> K).
Hypothesis lt_asym : forall a b, lt a b = true -> lt b a = false.

Local Abbreviation not_below := (not_below lt key).


Lemma insert_desc_HdRel x y l :
  not_below y x -> HdRel not_below y l ->
  HdRel not_below y (insert_desc lt key x l).
Proof.
  intros Hyx Hl. destruct l as [|z l]; cbn [insert_desc].
  - now constructor.
  - destruct (lt (key x) (key z)); constructor; [|exact Hyx].
    now inversion Hl.
Qed.

Lemma insert_desc_sorted x l :
  Sorted not_below l -> Sorted not_below (insert_desc lt key x l).
Proof.
  induction 1 as [|y l Hl IH Hhd]; cbn [insert_desc].
  - repeat constructor.
  - destruct (lt (key x) (key y)) eqn:Hxy.
    + constructor; [exact IH|].
      apply insert_desc_HdRel; [|exact Hhd].
      now apply lt_asym.
    + repeat constructor; assumption.
Qed.

(** [list.sort(key=..., reverse=True)] returns a list in which no element
    has a key below the key of the next one. *)
Lemma sort_by_reverse_sorted l : Sorted not_below (sort_by lt key true l).
Proof.
  unfold sort_by. induction l as [|x l IH]; cbn [fold_right].
  - constructor.
  - now apply insert_desc_sorted.
Qed.

Lemma Sorted_firstn (R : A -> A -> Prop) n : forall l,
  Sorted R l -> Sorted R (firstn n l).
Proof.
  induction n as [|n IH]; intros l Hl; cbn [firstn]; [constructor|].
  destruct Hl as [|x l Hl Hhd]; [constructor|].
  constructor; [now apply IH|].
  destruct Hhd; destruct n; cbn [firstn]; constructor; assumption.
Qed.

(** The elements of one class [P] of keys that are never below one another
    keep their order. *)
Variable P : A -> bool.
Hypothesis P_class :
  forall a b, P a = true -> P b = true -> lt (key a) (key b) = false.




End SortedFacts.

(** ** The weight on the sizes and depths of the default configuration *)

Section WeightFacts.
Import Selection WeightGrid.
Local Open Scope list_scope.

Lemma compute_weight_factors relative_path size language :
  compute_weight relative_path size language
  = weight_at (depth_of relative_path) size (language_bonus language)
              (special_bonus relative_path).
Proof. reflexivity. Qed.

Lemma forallb_combine_map {A B} (g : B * B -> bool) (f' f : A -> B) l :
  forallb g (combine (map f' l) (map f l)) = true ->
  forall a, In a l -> g (f' a, f a) = true.
Proof.
  induction l as [|x l IH]; cbn [map combine forallb]; intros H a Ha;
    [destruct Ha|].
  apply andb_prop in H as [Hx Hl].
  destruct Ha as [<- | Ha]; [exact Hx | now apply IH].
Qed.

Lemma forallb_adjacent {A B} (g : B * B -> bool) (f : A -> B) l :
  forallb g (combine (tl (map f l)) (map f l)) = true ->
  forall i a b, nth_error l i = Some a -> nth_error l (S i) = Some b ->
                g (f b, f a) = true.
Proof.
  induction l as [|x l IH]; intros H i a b Ha Hb; [now destruct i|].
  destruct l as [|y l]; [now destruct i|].
  cbn [map tl combine forallb] in H. apply andb_prop in H as [Hxy Hl].
  destruct i as [|i].
  - cbn in Ha, Hb. injection Ha as <-. injection Hb as <-. exact Hxy.
  - apply (IH Hl i); assumption.
Qed.

Lemma grid_row dps : forall n size,
  grid dps n size (size_score size) = true ->
  forall k, (k < n)%nat ->
    row_ok dps (size_score (size + Z.of_nat k))
               (size_score (size + Z.of_nat k + 1)) = true.
Proof.
  induction n as [|n IH]; intros size H k Hk; [lia|].
  cbn [grid] in H. apply andb_prop in H as [Hrow Hrest].
  destruct k as [|k].
  - cbn [Z.of_nat]. now rewrite Z.add_0_r.
  - replace (size + Z.of_nat (S k)) with (size + 1 + Z.of_nat k) by lia.
    apply IH; [exact Hrest | lia].
Qed.


(** The exhaustive check: every size from 0 to 200000, every depth from 0 to
    15, the four pairs of bonuses. *)
Lemma grid_checked :
  grid dps (Z.to_nat (max_size + 1)) 0 (size_score 0) = true.
Proof. vm_compute. reflexivity. Qed.


Lemma language_special_bonus_pair relative_path language :
  is_bonus_pair (language_bonus language) (special_bonus relative_path).
Proof.
  unfold is_bonus_pair, language_bonus, special_bonus.
  destruct (mem language _), (existsb _ relative_path); auto.
Qed.

Lemma combo_checked size lb sb :
  0 <= size <= max_size -> is_bonus_pair lb sb ->
  combo_ok dps (size_score size) (size_score (size + 1)) lb sb = true.
Proof.
  unfold max_size. intros Hsize [Hlb Hsb].
  pose proof (grid_row dps _ _ grid_checked (Z.to_nat size) ltac:(unfold max_size; lia)) as H.
  replace (0 + Z.of_nat (Z.to_nat size)) with size in H by lia.
  unfold row_ok in H.
  apply andb_prop in H as [H H4]. apply andb_prop in H as [H H3].
  apply andb_prop in H as [H1 H2].
  destruct Hlb as [-> | ->], Hsb as [-> | ->]; assumption.
Qed.

Lemma nth_depth depth :
  0 <= depth <= max_depth -> nth_error depths (Z.to_nat depth) = Some depth.
Proof.
  unfold max_depth, depths. intros H.
  rewrite nth_error_map, (nth_error_nth' _ 0%nat), seq_nth;
    rewrite ?length_seq; try lia.
  cbn [option_map]. f_equal. lia.
Qed.

Lemma depth_in_range depth :
  0 <= depth <= max_depth -> In depth depths.
Proof. intros H. eapply nth_error_In, nth_depth, H. Qed.

(** One more byte, one more directory level: the weight goes down. *)
Lemma weight_size_step depth size lb sb :
  0 <= depth <= max_depth -> 0 <= size <= max_size -> is_bonus_pair lb sb ->
  PrimFloat.ltb (weight_at depth (size + 1) lb sb) (weight_at depth size lb sb)
  = true.
Proof.
  intros Hd Hs Hb. pose proof (combo_checked size lb sb Hs Hb) as H.
  apply andb_prop in H as [H _].
  exact (forallb_combine_map lt_pair _ _ dps H (depth_penalty depth)
           (in_map depth_penalty _ _ (depth_in_range depth Hd))).
Qed.

Lemma weight_depth_step depth size lb sb :
  0 <= depth < max_depth -> 0 <= size <= max_size -> is_bonus_pair lb sb ->
  PrimFloat.ltb (weight_at (depth + 1) size lb sb) (weight_at depth size lb sb)
  = true.
Proof.
  intros Hd Hs Hb. pose proof (combo_checked size lb sb Hs Hb) as H.
  apply andb_prop in H as [_ H].
  apply (forallb_adjacent lt_pair _ dps H (Z.to_nat depth)
           (depth_penalty depth) (depth_penalty (depth + 1))).
  - unfold dps. rewrite nth_error_map, nth_depth; [reflexivity | lia].
  - unfold dps. replace (S (Z.to_nat depth)) with (Z.to_nat (depth + 1)) by lia.
    rewrite nth_error_map, nth_depth; [reflexivity | unfold max_depth in *; lia].
Qed.

Lemma weight_size_decreasing depth lb sb (n : nat) : forall size,
  0 <= depth <= max_depth -> is_bonus_pair lb sb ->
  0 <= size -> size + 1 + Z.of_nat n <= max_size + 1 ->
  PrimFloat.ltb (weight_at depth (size + 1 + Z.of_nat n) lb sb)
                (weight_at depth size lb sb) = true.
Proof.
  induction n as [|n IH]; intros size Hd Hb H0 Hmax.
  - cbn [Z.of_nat]. rewrite Z.add_0_r. apply weight_size_step; auto. lia.
  - apply float_ltb_trans with (weight_at depth (size + 1) lb sb).
    + replace (size + 1 + Z.of_nat (S n)) with (size + 1 + 1 + Z.of_nat n)
        by lia.
      apply IH; auto; lia.
    + apply weight_size_step; auto. lia.
Qed.

Lemma weight_depth_decreasing size lb sb (n : nat) : forall depth,
  0 <= size <= max_size -> is_bonus_pair lb sb ->
  0 <= depth -> depth + 1 + Z.of_nat n <= max_depth ->
  PrimFloat.ltb (weight_at (depth + 1 + Z.of_nat n) size lb sb)
                (weight_at depth size lb sb) = true.
Proof.
  induction n as [|n IH]; intros depth Hs Hb H0 Hmax.
  - cbn [Z.of_nat]. rewrite Z.add_0_r. apply weight_depth_step; auto. lia.
  - apply float_ltb_trans with (weight_at (depth + 1) size lb sb).
    + replace (depth + 1 + Z.of_nat (S n)) with (depth + 1 + 1 + Z.of_nat n)
        by lia.
      apply IH; auto; lia.
    + apply weight_depth_step; auto. lia.
Qed.

End WeightFacts.

Section WeightOrder.
Import Symbols Selection WeightGrid.
Local Open Scope list_scope.


Lemma slice_to_firstn {A} n (l : list A) : exists k, slice_to n l = firstn k l.
Proof. unfold slice_to. destruct (n <? 0); eauto. Qed.

(** The candidates come out as a prefix of the candidates sorted by
    descending weight. *)
Lemma collect_prefix_of_sorted root settings tree :
  exists k,
    collect_source_candidates root settings tree
    = firstn k (sort_by PrimFloat.ltb weight true
                        (gather_candidates root settings tree)).
Proof.
  unfold collect_source_candidates.
  destruct (_ >? _); [apply slice_to_firstn|].
  eexists. symmetry. apply firstn_all.
Qed.

(** Without a NaN among the weights, a list in which no weight is below the
    next one is in descending order throughout. *)
Lemma not_below_descending (l : list FileCandidate) :
  Sorted (fun a b => PrimFloat.ltb (weight a) (weight b) = false) l ->
  Forall (fun c => PrimFloat.is_nan (weight c) = false) l ->
  StronglySorted (fun a b => PrimFloat.leb (weight b) (weight a) = true) l.
Proof.
  intros Hsorted Hnan. apply Sorted_StronglySorted.
  - intros a b c Hab Hbc. exact (float_leb_trans _ _ _ Hbc Hab).
  - induction Hsorted as [|a l Hl IH Hhd]; constructor.
    + apply IH. now inversion Hnan.
    + destruct Hhd as [|b l Hab]; constructor.
      inversion Hnan as [|? ? Ha Hrest]; subst.
      inversion Hrest as [|? ? Hb _]; subst.
      now apply float_leb_total.
Qed.




End WeightOrder.

(** ** The properties on the sample inputs *)

Section Runs.
Import Text Regex Symbols Selection WeightGrid Chunker Summarizer.
Local Open Scope list_scope.

(** C3 (the case the code misses). A one-line file that spells the special
    token [<|endoftext|>]: the tokenizer raises on its decorated line, and
    [_chunk_text] raises with it instead of returning the chunk of line 1. *)
Lemma chunk_ranges_partition_witness :
  _chunk_text special_encode_len 30 tokens_text = None.
Proof.
  destruct (chunk_ranges_partition special_encode_len 30 tokens_text)
    as (_ & _ & Hraises & _).
  apply Hraises; [discriminate | reflexivity].
Defined.

(** The chunker run with one token per character and a budget of 30. *)
Lemma chunk_budget_witness :
  total_tokens char_encode_len 1 ["alpha"; "beta"] <= 30.
Proof.
  destruct (chunk_budget char_encode_len 30 three_lines
              [mkCodeChunk ("0001: alpha" ++ nl ++ "0002: beta") 1 2;
               mkCodeChunk "0003: gamma" 3 3] eq_refl) as (_ & Hall & _).
  destruct (Hall (mkCodeChunk ("0001: alpha" ++ nl ++ "0002: beta") 1 2)
                 (or_introl eq_refl)) as (_ & _ & _ & [Hfits | [Hone _]]).
  - exact Hfits.
  - discriminate Hone.
Defined.

(** C5 (as stated). With [max_candidate_files = -1] the slice drops the last
    candidate only: two candidates are returned, more than the cap. *)
Lemma negative_cap_exceeded :
  List.length (collect_source_candidates sample_root negative_cap sample_tree)
  = 2%nat /\
  ~ Z.of_nat (List.length
                (collect_source_candidates sample_root negative_cap sample_tree))
    <= max_candidate_files negative_cap.
Proof.
  split; [vm_compute; reflexivity|].
  vm_compute. intros H. now apply H.
Qed.

(** C8 (the case the code misses). Two candidates, the language model
    answering for both: the text of [tokens.py] spells [<|endoftext|>], the
    tokenizer raises while it is cut into chunks, and the run ends there
    without the summary of [b.py]. *)
Lemma summarize_soft_failures_witness :
  summarize_candidates sample_read_text special_encode_len default_settings
                       sample_summarize_chunk [b_py; tokens_py] "requirements"
  = None.
Proof.
  destruct (summarize_soft_failures sample_read_text special_encode_len
              default_settings sample_summarize_chunk "requirements")
    as (Haborts & _).
  apply (Haborts [b_py; tokens_py] tokens_py tokens_text).
  - right. left. reflexivity.
  - reflexivity.
  - discriminate.
  - reflexivity.
Defined.

(** C9 (as stated). A def after an empty line of the class body is recorded
    with a qualified name when a class declared after the empty line encloses
    it: the method [f] of the nested class is recorded as [B.f]. *)
Lemma nested_def_after_blank_qualified :
  _extract_python_symbols py_nested_sample
  = [ mkSymbolInfo "A" "class" 1 1;
      mkSymbolInfo "B" "class" 3 3;
      mkSymbolInfo "B.f" "function" 4 4 ].
Proof. vm_compute. reflexivity. Qed.

Lemma blank_line_unqualifies_def_witness :
  exists before after,
    _extract_python_symbols py_blank_sample
    = before ++ mkSymbolInfo "f" "function" 6 6 :: after.
Proof.
  destruct (blank_line_unqualifies_def
              ["class A:"; "    x = 1"]
              ["    class B:"; "        y = 2"]
              ["        pass"] "    def f(self):" "f")
    as (_ & _ & before & after & Heq & _).
  - intros m [<- | [<- | []]] Hclass.
    + vm_compute. discriminate.
    + exfalso. apply Hclass. reflexivity.
  - reflexivity.
  - reflexivity.
  - exists before, after. exact Heq.
Defined.

Lemma fill_line_ends_next_start_witness :
  List.length (Symbols._fill_symbol_line_ends sample_symbols 30) = 3%nat /\
  nth_error (Symbols._fill_symbol_line_ends sample_symbols 30) 1
  = Some (Symbols.mkSymbolInfo "second" "function" 10 24).
Proof.
  assert (Hs : starts_ascending sample_symbols).
  { repeat constructor; cbn; lia. }
  destruct (fill_line_ends_next_start sample_symbols 30 Hs) as (Hlen & Hnth & _).
  split; [exact Hlen | exact (Hnth 1%nat _ eq_refl)].
Defined.



Lemma validate_scalar_raises_type_error_witness :
  Report._validate_report sample_loads "5" = Report.TypeError.
Proof.
  apply (validate_scalar_raises_type_error sample_loads "5" (Report.JInt 5)).
  - reflexivity.
  - exact I.
Defined.

Lemma validate_accepts_array_witness :
  Report._validate_report sample_loads sample_array_text
  = Report.Returned (Report.JArray [Report.JString "feature_analysis";
                                    Report.JString "execution_plan_suggestion"]).
Proof.
  apply (validate_accepts_array sample_loads sample_array_text).
  - reflexivity.
  - simpl. auto.
  - simpl. auto.
Defined.

End Runs.

(** * More properties *)

(** ** Greedy chunks *)

Section GreedyFacts.
Import Text Chunker Greedy.
Local Open Scope list_scope.

Variable encode_len : string -> option nat.
Variable max_tokens : Z.

Local Abbreviation token_count := (token_count encode_len).
Local Abbreviation line_cost := (line_cost encode_len).
Local Abbreviation accepted := (accepted encode_len).
Local Abbreviation total_tokens := (total_tokens encode_len).
Local Abbreviation within_budget := (within_budget encode_len max_tokens).
Local Abbreviation greedy := (greedy encode_len max_tokens).
Local Abbreviation chunk_step := (chunk_step encode_len max_tokens).
Local Abbreviation chunk_loop := (chunk_loop encode_len max_tokens).
Local Abbreviation chunk_lines := (chunk_lines encode_len max_tokens).
Local Abbreviation _chunk_text := (_chunk_text encode_len max_tokens).
Local Abbreviation greedy_inv := (greedy_inv encode_len max_tokens).

Ltac state_simpl :=
  cbn [Chunker.chunks Chunker.current_lines Chunker.current_tokens
       Chunker.chunk_start_line Text.is_nil negb andb app].

(** What follows the lines only matters through its first line. *)
Lemma greedy_tail tail tail' from lines cs :
  (forall l more', tail' = l :: more' -> exists more, tail = l :: more) ->
  greedy tail from lines cs -> greedy tail' from lines cs.
Proof.
  intros Hhead. induction 1 as [from | from g rest cs Hg Hb Hnext Hrest IH].
  - constructor.
  - constructor; auto. intros l more Hl.
    destruct rest as [|r rest'].
    + cbn [app] in Hl. destruct (Hhead _ _ Hl) as [more0 ->].
      eapply Hnext. reflexivity.
    + cbn [app] in Hl. injection Hl as -> _. eapply Hnext. reflexivity.
Qed.

Lemma greedy_snoc tail' from closed cs g :
  greedy g from closed cs ->
  g <> [] ->
  within_budget (from + Z.of_nat (List.length closed)) g ->
  (forall l more, tail' = l :: more ->
     total_tokens (from + Z.of_nat (List.length closed)) g
     + line_cost (from + Z.of_nat (List.length closed)
                    + Z.of_nat (List.length g)) l > max_tokens) ->
  greedy tail' from (closed ++ g)
    (cs ++ [mkCodeChunk
              (join newline (decorate (from + Z.of_nat (List.length closed)) g))
              (from + Z.of_nat (List.length closed))
              (from + Z.of_nat (List.length closed)
               + Z.of_nat (List.length g) - 1)]).
Proof.
  induction 1 as [from | from g0 rest cs Hg0 Hb0 Hnext Hrest IH];
    intros Hg Hb Hlast.
  - cbn [List.length app] in *. rewrite Z.add_0_r in *.
    rewrite <- (app_nil_r g) at 1.
    apply greedy_cons; [assumption | assumption | | constructor].
    intros l more Hl. cbn [app] in Hl. eauto.
  - rewrite <- app_assoc. cbn [app].
    rewrite length_app, Nat2Z.inj_add, Z.add_assoc in *.
    apply greedy_cons; [assumption | assumption | | auto].
    intros l more Hl. destruct rest as [|r rest'].
    + cbn [app] in Hl. destruct g as [|x g']; [congruence|].
      injection Hl as -> _. eapply Hnext. reflexivity.
    + cbn [app] in Hl. injection Hl as -> _. eapply Hnext. reflexivity.
Qed.

Lemma greedy_step_inv done line st st' :
  greedy_inv done st ->
  chunk_step (1 + Z.of_nat (List.length done)) line st = Some st' ->
  greedy_inv (done ++ [line]) st'.
Proof.
  intros (closed & cur & Hd & Hch & Hfirst & Hcl & Htok & Hcur) Hstep.
  assert (Hnil : is_nil (current_lines st) = is_nil cur)
    by (rewrite Hcl; apply is_nil_decorate).
  pose proof (chunk_step_counted _ _ _ _ _ _ Hstep) as Hcount.
  set (n := 1 + Z.of_nat (List.length done)) in *.
  unfold Chunker.chunk_step in Hstep. rewrite Hcount, Hnil in Hstep.
  apply Some_eq in Hstep. subst st'.
  assert (Hn : n = 1 + Z.of_nat (List.length closed)
                   + Z.of_nat (List.length cur)).
  { subst n done. rewrite length_app. lia. }
  destruct cur as [|c0 cur'].
  - (* no open chunk: this is the first line of the file *)
    state_simpl. rewrite Hnil. state_simpl.
    cbn [List.length] in Hn. rewrite Z.add_0_r in Hn.
    rewrite app_nil_r in Hd. subst done.
    specialize (Hfirst eq_refl). rewrite Hfirst in Hch.
    assert (closed = []) as ->.
    { inversion Hch. reflexivity. }
    exists [], [line]. rewrite <- Hn.
    repeat split; state_simpl; auto.
    + rewrite Hfirst. constructor.
    + now rewrite Hcl.
    + rewrite Htok. cbn [Chunker.total_tokens]. lia.
    + apply single_within_budget.
  - destruct (Hcur ltac:(discriminate)) as [Hstart Hbud].
    state_simpl.
    destruct (current_tokens st + line_cost n line >? max_tokens) eqn:Hgt.
    + (* the open chunk is closed: the line did not fit *)
      state_simpl.
      exists (closed ++ c0 :: cur'), [line].
      assert (Hlen : 1 + Z.of_nat (List.length (closed ++ c0 :: cur')) = n).
      { rewrite Hn, length_app. lia. }
      rewrite Hlen.
      repeat split; state_simpl; auto.
      * subst done. now rewrite <- app_assoc.
      * rewrite Hcl, Hstart.
        replace (n - 1) with (1 + Z.of_nat (List.length closed)
                              + Z.of_nat (List.length (c0 :: cur')) - 1) by lia.
        apply greedy_snoc; auto; [discriminate|].
        intros l more Hl. injection Hl as <- _.
        rewrite <- Hn, <- Htok. lia.
      * discriminate.
      * cbn [Chunker.total_tokens]. lia.
      * apply single_within_budget.
    + (* the line joins the open chunk *)
      rewrite Hnil. state_simpl.
      exists closed, ((c0 :: cur') ++ [line]).
      repeat split; state_simpl; auto.
      * subst done. now rewrite <- app_assoc.
      * eapply greedy_tail; [|exact Hch].
        intros l more' Hl. injection Hl as <- _. eauto.
      * discriminate.
      * rewrite Hcl, app_comm_cons, decorate_app.
        cbn [Chunker.decorate]. now rewrite <- Hn.
      * rewrite app_comm_cons, total_tokens_app, Htok, <- Hn.
        cbn [Chunker.total_tokens]. lia.
      * left. rewrite app_comm_cons, total_tokens_app, <- Hn, <- Htok.
        cbn [Chunker.total_tokens].
        rewrite Z.gtb_ltb, Z.ltb_ge in Hgt. lia.
Qed.

Lemma greedy_loop_inv rest : forall done st st',
  greedy_inv done st ->
  chunk_loop (1 + Z.of_nat (List.length done)) rest st = Some st' ->
  greedy_inv (done ++ rest) st'.
Proof.
  induction rest as [|line rest IH]; intros done st st' H Hloop;
    cbn [Chunker.chunk_loop] in Hloop.
  - apply Some_eq in Hloop. subst st'. now rewrite app_nil_r.
  - destruct (chunk_step (1 + Z.of_nat (List.length done)) line st)
      as [st1|] eqn:Hstep; [|discriminate].
    pose proof (greedy_step_inv done line st st1 H Hstep) as H1.
    replace (1 + Z.of_nat (List.length done) + 1)
      with (1 + Z.of_nat (List.length (done ++ [line]))) in Hloop
      by (rewrite length_app; cbn [List.length]; lia).
    specialize (IH (done ++ [line]) _ _ H1 Hloop).
    rewrite <- app_assoc in IH. exact IH.
Qed.

Lemma chunk_lines_greedy lines cs :
  chunk_lines lines = Some cs -> greedy [] 1 lines cs.
Proof.
  unfold Chunker.chunk_lines.
  destruct (chunk_loop 1 lines (mkState [] [] 0 1)) as [st|] eqn:Hloop;
    [|discriminate].
  intros Hcs. apply Some_eq in Hcs. subst cs.
  assert (H0 : greedy_inv [] (mkState [] [] 0 1)).
  { exists [], []. repeat split; simpl; try constructor; congruence. }
  pose proof (greedy_loop_inv lines [] _ _ H0 Hloop) as H. simpl in H.
  destruct H as (closed & cur & Hd & Hch & Hfirst & Hcl & Htok & Hcur).
  rewrite Hcl, is_nil_decorate.
  destruct cur as [|c0 cur']; simpl negb; cbv iota.
  - rewrite app_nil_r in Hd. now subst.
  - destruct (Hcur ltac:(discriminate)) as [Hstart Hbud].
    rewrite Hstart. subst lines.
    replace (Z.of_nat (List.length (closed ++ c0 :: cur')))
      with (1 + Z.of_nat (List.length closed)
            + Z.of_nat (List.length (c0 :: cur')) - 1)
      by (rewrite length_app; lia).
    apply greedy_snoc; auto; discriminate.
Qed.

Lemma total_tokens_nonneg from ls : 0 <= total_tokens from ls.
Proof.
  revert from. induction ls as [|l ls IH]; intros from;
    cbn [Chunker.total_tokens]; [lia|].
  specialize (IH (from + 1)). unfold Chunker.line_cost, Chunker.token_count.
  destruct (encode_len _); cbn [option_map]; lia.
Qed.

Lemma greedy_chunked tail from lines cs :
  greedy tail from lines cs -> chunked encode_len max_tokens from lines cs.
Proof. induction 1; constructor; auto. Qed.

(** Two neighbouring chunks: the first line of the second did not fit. *)
Lemma greedy_adjacent tail from lines cs :
  greedy tail from lines cs ->
  forall pre c1 c2 post, cs = pre ++ c1 :: c2 :: post ->
  exists before g l rest,
    lines = before ++ g ++ l :: rest /\
    start_line c1 = from + Z.of_nat (List.length before) /\
    end_line c1 = start_line c1 + Z.of_nat (List.length g) - 1 /\
    start_line c2 = end_line c1 + 1 /\
    total_tokens (start_line c1) g + line_cost (start_line c2) l
    > max_tokens.
Proof.
  induction 1 as [from | from g rest cs Hg Hb Hnext Hrest IH];
    intros pre c1 c2 post Hcs.
  - destruct pre; discriminate.
  - destruct pre as [|p pre].
    + cbn [app] in Hcs. injection Hcs as <- ->. clear IH.
      inversion Hrest as [| from' g2 rest2 cs2 Hg2 Hb2 Hnext2 Hrest2 Hf Hl Hc].
      subst. destruct g2 as [|l g2]; [congruence|].
      exists [], g, l, (g2 ++ rest2).
      cbn [start_line end_line app List.length]. rewrite Z.add_0_r.
      repeat split; try lia.
      replace (from + Z.of_nat (List.length g) - 1 + 1)
        with (from + Z.of_nat (List.length g)) by lia.
      eapply Hnext. reflexivity.
    + cbn [app] in Hcs. injection Hcs as _ Hcs.
      destruct (IH _ _ _ _ Hcs)
        as (before & g1 & l & rest1 & -> & Hs & He & Hs2 & Hgt).
      exists (g ++ before), g1, l, rest1. rewrite <- app_assoc.
      repeat split; auto. rewrite Hs, length_app. lia.
Qed.

(** X1. Chunks are cut greedily: of two neighbouring chunks of
    [_chunk_text], the second starts on the line after the first ends, and
    the tokens of the first together with the cost of that line exceed
    [max_tokens_per_chunk]; a chunk is closed only when the next line does
    not fit. *)
Theorem chunk_closed_only_when_full (text : string) pre c1 c2 post :
  _chunk_text text = Some (pre ++ c1 :: c2 :: post) ->
  let lines := splitlines text in
  start_line c2 = end_line c1 + 1 /\
  exists l,
    line_range lines (start_line c2) (start_line c2) = [l] /\
    total_tokens (start_line c1)
                 (line_range lines (start_line c1) (end_line c1))
    + line_cost (start_line c2) l > max_tokens.
Proof.
  intros Hcs lines. subst lines. unfold Chunker._chunk_text in Hcs.
  destruct text as [|c0 s];
    [apply Some_eq in Hcs; destruct pre; discriminate|].
  cbn [is_empty] in Hcs.
  destruct (greedy_adjacent _ _ _ _ (chunk_lines_greedy _ _ Hcs) _ _ _ _
              eq_refl)
    as (before & g & l & rest & Hl & Hs & He & Hs2 & Hgt).
  split; [exact Hs2|]. exists l. rewrite Hl. split.
  - rewrite Hs2, He, Hs.
    replace (before ++ g ++ l :: rest)
      with ((before ++ g) ++ [l] ++ rest) by now rewrite <- app_assoc.
    pose proof (line_range_found (before ++ g) [l] rest) as Hr.
    rewrite length_app in Hr. cbn [List.length] in Hr.
    etransitivity; [|exact Hr]. f_equal; lia.
  - rewrite He, Hs, line_range_found, <- Hs. exact Hgt.
Qed.

Lemma greedy_nil_inv tail from cs : greedy tail from [] cs -> cs = [].
Proof.
  inversion 1 as [| f g rest cs' Hg _ _ _ Hf Hl Hc]; [reflexivity|].
  destruct g; [congruence | discriminate].
Qed.

Lemma greedy_fits tail from lines cs :
  greedy tail from lines cs -> tail = [] -> lines <> [] ->
  total_tokens from lines <= max_tokens ->
  cs = [mkCodeChunk (join newline (decorate from lines)) from
                    (from + Z.of_nat (List.length lines) - 1)].
Proof.
  destruct 1 as [from | from g rest cs Hg Hb Hnext Hrest];
    intros -> Hne Hfit; [congruence|].
  destruct rest as [|l more].
  - apply greedy_nil_inv in Hrest. subst cs. now rewrite app_nil_r.
  - exfalso. rewrite app_nil_r in Hnext. specialize (Hnext l more eq_refl).
    rewrite total_tokens_app in Hfit. cbn [Chunker.total_tokens] in Hfit.
    pose proof (total_tokens_nonneg (from + Z.of_nat (List.length g) + 1) more).
    lia.
Qed.

(** X2. A non-empty file whose lines the tokenizer accepts and which all
    fit the budget together is one chunk, which covers lines 1 to the last
    and carries every decorated line. *)
Theorem chunk_single_when_fits (text : string) :
  text <> "" ->
  accepted 1 (splitlines text) = true ->
  total_tokens 1 (splitlines text) <= max_tokens ->
  _chunk_text text
  = Some [mkCodeChunk (join newline (decorate 1 (splitlines text))) 1
                      (Z.of_nat (List.length (splitlines text)))].
Proof.
  intros Hne Hacc Hfit. unfold Chunker._chunk_text.
  destruct text as [|c0 s]; [congruence|]. cbn [is_empty].
  pose proof (splitlines_nonempty _ Hne) as Hlines.
  destruct (chunk_lines_returns encode_len max_tokens _ Hacc) as [cs Hcs].
  rewrite Hcs.
  rewrite (greedy_fits _ _ _ _ (chunk_lines_greedy _ _ Hcs) eq_refl Hlines
             Hfit).
  do 3 f_equal. lia.
Qed.

(** X3. No cut of the file into consecutive non-empty runs that respect the
    budget (or are one oversized line) has fewer chunks than
    [_chunk_text] returns. *)
Theorem chunk_count_minimal (text : string) (cs gs : list CodeChunk) :
  chunked encode_len max_tokens 1 (splitlines text) cs ->
  _chunk_text text = Some gs ->
  (List.length gs <= List.length cs)%nat.
Proof.
  intros Hcs Hgs. unfold Chunker._chunk_text in Hgs.
  destruct text as [|c0 s]; [apply Some_eq in Hgs; subst gs; cbn; lia|].
  cbn [is_empty] in Hgs.
  pose proof (chunk_lines_greedy _ _ Hgs) as H.
  enough (Hgen : forall tail from lines gs,
             greedy tail from lines gs -> tail = [] ->
             forall x from2 cs2,
               from2 + Z.of_nat (List.length x) = from ->
               chunked encode_len max_tokens from2 (x ++ lines) cs2 ->
               (List.length gs <= List.length cs2)%nat).
  { apply (Hgen [] 1 _ _ H eq_refl [] 1); [cbn; lia | exact Hcs]. }
  clear. intros tail from lines gs Hgr.
  induction Hgr as [from | from g rest gs Hg Hb Hnext Hrest IH];
    intros -> x from2 cs2 Hfrom Hcs2.
  - cbn. lia.
  - rewrite app_nil_r in Hnext.
    inversion Hcs2 as [f Hf Hl Hc | f g2 rest2 cs2' Hg2 Hb2 Hrest2 Hf Hl Hc].
    { exfalso. destruct x; [destruct g; [congruence | discriminate]
                           | discriminate]. }
    subst f cs2. cbn [List.length]. apply le_n_S.
    assert (Hsplit : x ++ g ++ rest = (x ++ g) ++ rest)
      by now rewrite app_assoc.
    rewrite Hsplit in Hl. apply app_eq_app in Hl.
    destruct Hl as [y [[-> ->] | [Hxg ->]]].
    + (* the other run reaches beyond the greedy one *)
      destruct y as [|l y].
      * rewrite app_nil_r in *. cbn [app] in Hrest2.
        apply (IH eq_refl [] (from2 + Z.of_nat (List.length (x ++ g))));
          [rewrite length_app; cbn [List.length]; lia | exact Hrest2].
      * exfalso. specialize (Hnext l (y ++ rest2) eq_refl).
        destruct Hb2 as [Hb2 | (l0 & Hone & _)].
        -- rewrite <- app_assoc, total_tokens_app, total_tokens_app in Hb2.
           cbn [Chunker.total_tokens] in Hb2.
           pose proof (total_tokens_nonneg from2 x).
           pose proof (total_tokens_nonneg
                         (from2 + Z.of_nat (List.length x)
                          + Z.of_nat (List.length g) + 1) y).
           rewrite Hfrom in *. lia.
        -- apply (f_equal (@List.length string)) in Hone.
           rewrite !length_app in Hone. cbn [List.length] in Hone.
           destruct g; [congruence | cbn [List.length] in Hone; lia].
    + (* the other run ends inside or with the greedy one *)
      apply (IH eq_refl y (from2 + Z.of_nat (List.length g2)));
        [|exact Hrest2].
      apply (f_equal (@List.length string)) in Hxg.
      rewrite !length_app in Hxg. lia.
Qed.

(** *** The text of a chunk splits back into its lines *)

Lemma string_app_assoc (a b c : string) :
  ((a ++ b) ++ c = a ++ (b ++ c))%string.
Proof. induction a as [|x a IH]; cbn; [reflexivity | now rewrite IH]. Qed.

Lemma string_app_nil_r (a : string) : (a ++ "" = a)%string.
Proof. induction a as [|x a IH]; cbn; [reflexivity | now rewrite IH]. Qed.

Lemma no_linebreak_app a b :
  no_linebreak (a ++ b)%string = (no_linebreak a && no_linebreak b)%bool.
Proof.
  induction a as [|x a IH]; cbn [String.append no_linebreak];
    [reflexivity | now rewrite IH, andb_assoc].
Qed.

Lemma splitlines_from_break cur c s :
  is_linebreak c = true ->
  splitlines_from cur (String c s)
  = cur :: splitlines_from "" (after_break c s).
Proof.
  intros Hc. cbn [splitlines_from]. rewrite Hc.
  destruct c as [[] [] [] [] [] [] [] []]; try reflexivity;
    destruct s as [|[[] [] [] [] [] [] [] []] s]; reflexivity.
Qed.

Lemma splitlines_from_line cur l s :
  no_linebreak l = true ->
  splitlines_from cur (l ++ s)%string = splitlines_from (cur ++ l)%string s.
Proof.
  revert cur. induction l as [|c l IH]; intros cur Hl.
  - now rewrite string_app_nil_r.
  - cbn [no_linebreak] in Hl. apply andb_prop in Hl as [Hc Hl].
    apply negb_true_iff in Hc.
    cbn [String.append splitlines_from]. rewrite Hc, IH by exact Hl.
    now rewrite string_app_assoc.
Qed.

Lemma splitlines_join ls :
  Forall (fun l => no_linebreak l = true /\ l <> "") ls ->
  splitlines (join newline ls) = ls.
Proof.
  unfold splitlines, join.
  induction 1 as [|l ls [Hl Hne] Hls IH]; [reflexivity|].
  cbn [String.concat]. destruct ls as [|l2 ls].
  - rewrite <- (string_app_nil_r l) at 1.
    rewrite splitlines_from_line by exact Hl. cbn [String.append splitlines_from].
    destruct l; [congruence | reflexivity].
  - rewrite splitlines_from_line by exact Hl.
    cbn [String.append]. unfold newline at 1.
    cbn [String.append]. rewrite splitlines_from_break by reflexivity.
    cbn [after_break]. now rewrite IH.
Qed.

Lemma after_break_length c s :
  (String.length (after_break c s) <= String.length s)%nat.
Proof.
  unfold after_break.
  destruct c as [[] [] [] [] [] [] [] []]; try lia;
    destruct s as [|[[] [] [] [] [] [] [] []] s]; cbn [String.length]; lia.
Qed.

Lemma splitlines_from_no_linebreak n : forall s cur,
  (String.length s <= n)%nat ->
  no_linebreak cur = true ->
  Forall (fun l => no_linebreak l = true) (splitlines_from cur s).
Proof.
  induction n as [|n IH]; intros s cur Hlen Hcur.
  - destruct s; [|cbn in Hlen; lia]. cbn.
    destruct (is_empty cur); repeat constructor; exact Hcur.
  - destruct s as [|c s].
    + cbn. destruct (is_empty cur); repeat constructor; exact Hcur.
    + cbn [String.length] in Hlen.
      destruct (is_linebreak c) eqn:Hc.
      * rewrite splitlines_from_break by exact Hc.
        constructor; [exact Hcur|]. apply IH; [|reflexivity].
        pose proof (after_break_length c s). lia.
      * cbn [splitlines_from]. rewrite Hc. apply IH; [lia|].
        rewrite no_linebreak_app, Hcur. cbn. now rewrite Hc.
Qed.

Lemma splitlines_no_linebreak s :
  Forall (fun l => no_linebreak l = true) (splitlines s).
Proof. eapply splitlines_from_no_linebreak; [apply le_n | reflexivity]. Qed.

Lemma no_linebreak_uint d :
  no_linebreak (NilEmpty.string_of_uint d) = true.
Proof. induction d; cbn; auto. Qed.

Lemma no_linebreak_digits n : no_linebreak (digits n) = true.
Proof.
  unfold digits, NilZero.string_of_uint.
  destruct (N.to_uint (Z.to_N n)); try apply no_linebreak_uint. reflexivity.
Qed.

Lemma no_linebreak_zfill w d :
  no_linebreak d = true -> no_linebreak (zfill w d) = true.
Proof.
  intros Hd. unfold zfill. rewrite no_linebreak_app, Hd, andb_true_r.
  induction (w - String.length d)%nat; cbn; auto.
Qed.

Lemma no_linebreak_formatted n l :
  no_linebreak l = true ->
  no_linebreak (formatted n l) = true /\ formatted n l <> "".
Proof.
  intros Hl. unfold formatted. split.
  - rewrite !no_linebreak_app, Hl. unfold format_04.
    destruct (n <? 0); cbn [no_linebreak];
      rewrite no_linebreak_zfill by apply no_linebreak_digits; reflexivity.
  - destruct (format_04 n); discriminate.
Qed.

Lemma decorate_no_linebreak from ls :
  Forall (fun l => no_linebreak l = true) ls ->
  Forall (fun l => no_linebreak l = true /\ l <> "") (decorate from ls).
Proof.
  intros H. revert from. induction H as [|l ls Hl Hls IH]; intros from;
    cbn [Chunker.decorate]; constructor; auto.
  now apply no_linebreak_formatted.
Qed.

(** X4. The text of a chunk splits back, with [str.splitlines], into
    exactly the decorated lines of its line range: one line of text per
    source line, each with its own number in front. *)
Theorem chunk_text_lines (text : string) (cs : list CodeChunk)
    (c : CodeChunk) :
  _chunk_text text = Some cs ->
  In c cs ->
  splitlines (Chunker.text c)
  = decorate (start_line c)
             (line_range (splitlines text) (start_line c) (end_line c)) /\
  Z.of_nat (List.length (splitlines (Chunker.text c)))
  = end_line c - start_line c + 1.
Proof.
  intros Hcs Hin. unfold Chunker._chunk_text in Hcs.
  destruct text as [|c0 s];
    [apply Some_eq in Hcs; subst cs; destruct Hin|].
  cbn [is_empty] in Hcs.
  pose proof (chunk_lines_chunked encode_len max_tokens _ _ Hcs) as H.
  pose proof (splitlines_no_linebreak (String c0 s)) as Hnb.
  destruct (chunked_In _ _ _ _ _ _ H Hin)
    as (pre & g & post & Hl & Hg & Hs & He & Ht & Hb).
  rewrite Hl in Hnb |- *.
  apply Forall_app in Hnb as [_ Hnb]. apply Forall_app in Hnb as [Hnb _].
  assert (Hsplit : splitlines (Chunker.text c) = decorate (start_line c) g).
  { rewrite Ht. apply splitlines_join. now apply decorate_no_linebreak. }
  rewrite Hsplit, decorate_length. split; [|lia].
  f_equal. rewrite He, Hs. symmetry. apply line_range_found.
Qed.

End GreedyFacts.

(** ** Line ranges of the symbol table *)

Section TableFacts.
Import Text Symbols.
Local Open Scope list_scope.

Local Abbreviation by_start := (fun a b => line_start a <= line_start b).

Lemma insert_asc_start_HdRel x y l :
  line_start y <= line_start x -> HdRel by_start y l ->
  HdRel by_start y (insert_asc Z.ltb line_start x l).
Proof.
  intros Hyx Hl. destruct l as [|z l]; cbn [insert_asc].
  - now constructor.
  - destruct (line_start z <? line_start x); constructor;
      [now inversion Hl | exact Hyx].
Qed.

Lemma insert_asc_start_sorted x l :
  starts_ascending l -> starts_ascending (insert_asc Z.ltb line_start x l).
Proof.
  unfold starts_ascending.
  induction 1 as [|y l Hl IH Hhd]; cbn [insert_asc].
  - repeat constructor.
  - destruct (line_start y <? line_start x) eqn:Hyx.
    + constructor; [exact IH|].
      apply insert_asc_start_HdRel; [|exact Hhd].
      apply Z.ltb_lt in Hyx. lia.
    + apply Z.ltb_ge in Hyx. repeat constructor; assumption.
Qed.

(** [symbols.sort(key=lambda s: s.line_start)] leaves the list in ascending
    order of start line, whatever order it had. *)
Lemma sort_by_start_ascending l :
  starts_ascending (sort_by Z.ltb line_start false l).
Proof.
  unfold sort_by. induction l as [|x l IH]; cbn [fold_right].
  - constructor.
  - now apply insert_asc_start_sorted.
Qed.

Lemma fill_ends_ascending l total :
  starts_ascending l -> starts_ascending (fill_ends l total).
Proof.
  unfold starts_ascending.
  induction 1 as [|x l Hl IH Hhd]; cbn [fill_ends]; [constructor|].
  constructor; [exact IH|].
  destruct Hhd as [|y l Hxy]; cbn [fill_ends]; [constructor|].
  constructor. destruct l; exact Hxy.
Qed.

Lemma fill_ends_erased l total :
  map (fun s => with_line_end s 0) (fill_ends l total)
  = map (fun s => with_line_end s 0) l.
Proof.
  induction l as [|x l IH]; cbn [fill_ends map]; [reflexivity|].
  rewrite IH. f_equal. destruct l; reflexivity.
Qed.

Lemma fill_ends_bounds l total :
  Forall (fun s => 1 <= line_start s <= total) l ->
  Forall (fun s => 1 <= line_start s /\ line_start s <= line_end s
                   /\ line_end s <= total) (fill_ends l total).
Proof.
  induction 1 as [|x l Hx Hl IH]; cbn [fill_ends]; [constructor|].
  constructor; [|exact IH].
  destruct Hl as [|y l Hy _]; cbn [with_line_end line_start line_end]; lia.
Qed.

(** X5. [_fill_symbol_line_ends] works on any list of symbols: the result
    holds the same symbols (their line ends apart) in ascending order of
    start line; every symbol but the last ends on its own start line or on
    the line before the next symbol starts, whichever is later, so it never
    ends after the next one starts; the last symbol ends at [total_lines]. *)
Theorem fill_line_ends_any_order (symbols : list SymbolInfo) (total_lines : Z) :
  let out := _fill_symbol_line_ends symbols total_lines in
  Permutation (map (fun s => with_line_end s 0) out)
              (map (fun s => with_line_end s 0) symbols) /\
  starts_ascending out /\
  (forall i a b,
     nth_error out i = Some a -> nth_error out (S i) = Some b ->
     line_end a = Z.max (line_start a) (line_start b - 1) /\
     line_start a <= line_end a <= line_start b) /\
  (forall i a,
     nth_error out i = Some a -> nth_error out (S i) = None ->
     line_end a = total_lines).
Proof.
  intros out. subst out. unfold _fill_symbol_line_ends.
  set (sorted := sort_by Z.ltb line_start false symbols).
  assert (Hasc : starts_ascending sorted) by apply sort_by_start_ascending.
  assert (Hnth : forall i a,
             nth_error (fill_ends sorted total_lines) i = Some a ->
             exists s, nth_error sorted i = Some s /\
                       a = with_line_end s
                             match nth_error sorted (S i) with
                             | Some next =>
                                 Z.max (line_start s) (line_start next - 1)
                             | None => total_lines
                             end).
  { intros i a Ha.
    destruct (nth_error sorted i) as [s|] eqn:Hs.
    - rewrite (fill_ends_nth _ _ _ _ Hs) in Ha. injection Ha as <-. eauto.
    - apply nth_error_None in Hs. rewrite <- (fill_ends_length _ total_lines) in Hs.
      apply nth_error_None in Hs. congruence. }
  split; [|split; [|split]].
  - rewrite fill_ends_erased. apply Permutation_map, sort_by_perm.
  - now apply fill_ends_ascending.
  - intros i a b Ha Hb.
    destruct (Hnth _ _ Ha) as (s & Hs & ->).
    destruct (Hnth _ _ Hb) as (s' & Hs' & ->).
    rewrite Hs'. cbn [with_line_end line_start line_end].
    assert (line_start s <= line_start s'); [|lia].
    clear - Hasc Hs Hs'. revert i Hs Hs'.
    induction Hasc as [|x l Hl IH Hhd]; intros [|i] Hs Hs';
      cbn [nth_error] in *; try discriminate.
    + injection Hs as ->. destruct Hhd as [|y l Hxy]; [discriminate|].
      cbn [nth_error] in Hs'. now injection Hs' as ->.
    + eapply IH; eassumption.
  - intros i a Ha Hb.
    destruct (Hnth _ _ Ha) as (s & Hs & ->).
    apply nth_error_None in Hb. rewrite fill_ends_length in Hb.
    apply nth_error_None in Hb. now rewrite Hb.
Qed.

Lemma ts_symbols_in_file lines :
  Forall (fun s => 1 <= line_start s <= Z.of_nat (List.length lines))
         (_extract_typescript_symbols lines).
Proof.
  unfold _extract_typescript_symbols.
  destruct (ts_loop_symbols lines 1 (mkTs [] 0 [])) as (new & -> & Hnew).
  cbn [ts_symbols app]. eapply Forall_impl; [|exact Hnew].
  cbn beta. intros s [Hs _]. lia.
Qed.

Lemma py_symbols_in_file lines :
  Forall (fun s => 1 <= line_start s <= Z.of_nat (List.length lines))
         (_extract_python_symbols lines).
Proof.
  unfold _extract_python_symbols.
  destruct (py_loop_symbols lines 1 (mkPy [] [])) as (new & -> & Hnew).
  cbn [py_symbols app]. eapply Forall_impl; [|exact Hnew].
  cbn beta. intros s Hs. lia.
Qed.

(** X6. Every symbol of [extract_symbol_table] has a line range inside the
    file: [1 <= line_start <= line_end <= number of lines], for every text
    and every language; the table is in ascending order of start line. *)
Theorem symbol_table_ranges_in_file (text language : string) :
  Forall (fun s => 1 <= line_start s /\ line_start s <= line_end s /\
                   line_end s <= Z.of_nat (List.length (splitlines text)))
         (extract_symbol_table text language) /\
  starts_ascending (extract_symbol_table text language).
Proof.
  unfold extract_symbol_table, _fill_symbol_line_ends.
  set (lines := splitlines text).
  set (symbols := if (_ || _)%bool then _ else _).
  assert (Hsym : Forall (fun s => 1 <= line_start s
                                  <= Z.of_nat (List.length lines)) symbols).
  { subst symbols.
    destruct (_ || _)%bool; [apply ts_symbols_in_file|].
    destruct (String.eqb language "Python");
      [apply py_symbols_in_file | constructor]. }
  split; [|apply fill_ends_ascending, sort_by_start_ascending].
  destruct lines as [|l0 lines'] eqn:Hlines.
  - destruct symbols as [|s symbols']; [constructor|].
    inversion Hsym as [|? ? Hs _]. cbn [List.length] in Hs. lia.
  - cbn [is_nil]. apply fill_ends_bounds.
    eapply Permutation_Forall; [|exact Hsym].
    symmetry. apply sort_by_perm.
Qed.

End TableFacts.

(** ** The names of the symbols *)

Section NameFacts.
Import Text Regex Symbols Names.
Local Open Scope list_scope.

Lemma rev_onto_app a b acc :
  rev_onto (a ++ b)%string acc = rev_onto b (rev_onto a acc).
Proof.
  revert acc. induction a as [|c a IH]; intros acc; cbn; [reflexivity|].
  apply IH.
Qed.

Lemma rev_onto_twice m : forall acc acc',
  rev_onto (rev_onto m acc) acc' = rev_onto acc (m ++ acc')%string.
Proof.
  induction m as [|c m IH]; intros acc acc'; cbn; [reflexivity|].
  now rewrite IH.
Qed.

Lemma rev_onto_length m : forall acc,
  String.length (rev_onto m acc) = (String.length m + String.length acc)%nat.
Proof.
  induction m as [|c m IH]; intros acc; cbn; [reflexivity|].
  rewrite IH. cbn. lia.
Qed.

Lemma rev_onto_acc m : forall acc,
  rev_onto m acc = (rev_onto m "" ++ acc)%string.
Proof.
  induction m as [|c m IH]; intros acc; cbn; [reflexivity|].
  rewrite IH, (IH (String c "")), string_app_assoc. reflexivity.
Qed.

Lemma take_app_exact a b : take (String.length a) (a ++ b)%string = a.
Proof. induction a as [|c a IH]; cbn; [now destruct b | now rewrite IH]. Qed.

(** The text between the cursor at which a sub-pattern starts and the cursor
    at which it ends is the text it has read. *)
Lemma consumed_read m bef : consumed bef (rev_onto m bef) = m.
Proof.
  unfold consumed. rewrite rev_onto_length.
  replace (String.length m + String.length bef - String.length bef)%nat
    with (String.length (rev_onto m "")) by (rewrite rev_onto_length; cbn; lia).
  rewrite (rev_onto_acc m bef), take_app_exact, rev_onto_twice.
  cbn. apply string_app_nil_r.
Qed.

Lemma skip_lit_read lit : forall bef aft bef' aft',
  skip_lit lit bef aft = Some (bef', aft') ->
  aft = (lit ++ aft')%string /\ bef' = rev_onto lit bef.
Proof.
  induction lit as [|a lit IH]; intros bef aft bef' aft'; cbn [skip_lit].
  - intros [= <- <-]. split; reflexivity.
  - destruct aft as [|c aft]; [discriminate|].
    destruct (Ascii.eqb_spec a c) as [<- | _]; [|discriminate].
    intros H. apply IH in H as [-> ->]. split; reflexivity.
Qed.

Section Soundness.
Variable A : Type.

Lemma star_read p (k : cont A) aft : forall bef g x,
  star A p k bef aft g = Some x ->
  exists m aft',
    aft = (m ++ aft')%string /\ all_chars p m = true /\
    k (rev_onto m bef) aft' g = Some x.
Proof.
  induction aft as [|c aft IH]; intros bef g x; cbn [star].
  - intros H. exists "", "". repeat split. exact H.
  - destruct (p c) eqn:Hp.
    + destruct (star A p k (String c bef) aft g) as [y|] eqn:Hstar.
      * intros [= <-]. apply IH in Hstar as (m & aft' & -> & Hm & Hk).
        exists (String c m), aft'. cbn. rewrite Hp, Hm. auto.
      * intros H. exists "", (String c aft). repeat split. exact H.
    + intros H. exists "", (String c aft). repeat split. exact H.
Qed.

(** A successful run of a pattern has read a text of its language, has
    added only captures its groups can hold, and has then called what was to
    be matched next. *)
Lemma run_read (r : re) : forall (k : cont A) bef aft g x,
  run A r k bef aft g = Some x ->
  exists m aft' new,
    aft = (m ++ aft')%string /\ lang r m /\
    Forall (fun e => captured r (fst e) (snd e)) new /\
    k (rev_onto m bef) aft' (new ++ g) = Some x.
Proof.
  induction r as [| | s | p | p | r1 IH1 | r1 IH1 r2 IH2 | r1 IH1 r2 IH2
                  | n r1 IH1];
    intros k bef aft g x; cbn [run].
  - destruct (is_empty bef); [|discriminate]. intros H.
    exists "", aft, []. repeat split; auto.
  - destruct (xorb _ _); [|discriminate]. intros H.
    exists "", aft, []. repeat split; auto.
  - destruct (skip_lit s bef aft) as [[bef' aft']|] eqn:Hskip; [|discriminate].
    apply skip_lit_read in Hskip as [-> ->]. intros H.
    exists s, aft', []. repeat split; auto.
  - intros H. apply star_read in H as (m & aft' & -> & Hm & Hk).
    exists m, aft', []. repeat split; auto.
  - destruct aft as [|c aft]; [discriminate|].
    destruct (p c) eqn:Hp; [|discriminate].
    intros H. apply star_read in H as (m & aft' & -> & Hm & Hk).
    exists (String c m), aft', []. cbn. rewrite Hp, Hm.
    repeat split; auto. discriminate.
  - destruct (run A r1 k bef aft g) as [y|] eqn:Hrun.
    + intros [= <-]. apply IH1 in Hrun as (m & aft' & new & -> & Hm & Hn & Hk).
      exists m, aft', new. cbn. auto.
    + intros H. exists "", aft, []. cbn. repeat split; auto.
  - destruct (run A r1 k bef aft g) as [y|] eqn:Hrun.
    + intros [= <-]. apply IH1 in Hrun as (m & aft' & new & -> & Hm & Hn & Hk).
      exists m, aft', new. cbn. repeat split; auto.
      eapply Forall_impl; [|exact Hn]. cbn. auto.
    + intros H. apply IH2 in H as (m & aft' & new & -> & Hm & Hn & Hk).
      exists m, aft', new. cbn. repeat split; auto.
      eapply Forall_impl; [|exact Hn]. cbn. auto.
  - intros H.
    apply IH1 in H as (m1 & aft1 & new1 & -> & Hm1 & Hn1 & H).
    apply IH2 in H as (m2 & aft2 & new2 & -> & Hm2 & Hn2 & H).
    exists (m1 ++ m2)%string, aft2, (new2 ++ new1).
    rewrite string_app_assoc, rev_onto_app, <- app_assoc.
    repeat split; auto.
    + cbn. eauto.
    + apply Forall_app. split; (eapply Forall_impl; [|eassumption]); cbn; auto.
  - intros H. apply IH1 in H as (m & aft' & new & -> & Hm & Hn & H).
    rewrite consumed_read in H.
    exists m, aft', ((n, m) :: new). repeat split; auto.
    constructor; [cbn; auto|].
    eapply Forall_impl; [|exact Hn]. cbn. auto.
Qed.

End Soundness.

Lemma group_captured r n g v :
  Forall (fun e => captured r (fst e) (snd e)) g ->
  group n g = Some v -> captured r n v.
Proof.
  unfold group. intros Hall Hg.
  destruct (find (fun p => Nat.eqb (fst p) n) g) as [[n' s]|] eqn:Hfind;
    [|discriminate].
  injection Hg as ->. apply find_some in Hfind as [Hin Hn].
  cbn in Hn. apply Nat.eqb_eq in Hn. subst n'.
  rewrite Forall_forall in Hall. exact (Hall _ Hin).
Qed.

Lemma run_accept_captured r bef aft n v :
  matched_group n (run captures r accept bef aft []) = Some v ->
  captured r n v.
Proof.
  unfold matched_group.
  destruct (run captures r accept bef aft []) as [g|] eqn:Hrun; [|discriminate].
  apply run_read in Hrun as (m & aft' & new & _ & _ & Hnew & Hk).
  unfold accept in Hk. injection Hk as <-. rewrite app_nil_r.
  now apply group_captured.
Qed.

(** What [m.group(n)] holds after [pattern.match] or [pattern.search] is a
    text the group can capture. *)
Lemma re_match_captured r s n v :
  matched_group n (re_match r s) = Some v -> captured r n v.
Proof. apply run_accept_captured. Qed.

Lemma re_search_captured r s n v :
  matched_group n (re_search r s) = Some v -> captured r n v.
Proof.
  unfold re_search. generalize "" as bef.
  induction s as [|c s IH]; intros bef; cbn [search_from].
  - destruct (run captures r accept bef "" []) eqn:Hrun; [|discriminate].
    rewrite <- Hrun. apply run_accept_captured.
  - destruct (run captures r accept bef (String c s) []) eqn:Hrun.
    + rewrite <- Hrun. apply run_accept_captured.
    + apply IH.
Qed.

Ltac identifier_group H :=
  cbn in H;
  repeat match type of H with
         | _ \/ _ => destruct H as [H | H]
         | _ /\ _ => let Hn := fresh in destruct H as [Hn H];
                     try discriminate Hn
         | False => destruct H
         end;
  try solve [ unfold is_identifier;
              match goal with
              | Hne : ?v <> "" |- _ =>
                  destruct v; [congruence | cbn [is_empty negb andb]; assumption]
              end ].

Lemma class_name_identifier line c :
  matched_group 1 (re_search CLASS_RE line) = Some c -> is_identifier c = true.
Proof. intros H. apply re_search_captured in H. identifier_group H. Qed.

Lemma ts_function_name_identifier line f :
  matched_group 1 (re_search TS_FUNCTION_RE line) = Some f ->
  is_identifier f = true.
Proof. intros H. apply re_search_captured in H. identifier_group H. Qed.

Lemma ts_method_name_identifier line f :
  matched_group 4 (re_match TS_METHOD_RE line) = Some f ->
  is_identifier f = true.
Proof. intros H. apply re_match_captured in H. identifier_group H. Qed.

Lemma ts_arrow_name_identifier line f :
  matched_group 3 (re_match TS_ARROW_METHOD_RE line) = Some f ->
  is_identifier f = true.
Proof. intros H. apply re_match_captured in H. identifier_group H. Qed.

Lemma py_class_name_identifier line c :
  matched_group 1 (re_match PY_CLASS_RE line) = Some c ->
  is_identifier c = true.
Proof. intros H. apply re_match_captured in H. identifier_group H. Qed.

Lemma py_def_name_identifier line f :
  matched_group 1 (re_match PY_DEF_RE line) = Some f ->
  is_identifier f = true.
Proof. intros H. apply re_match_captured in H. identifier_group H. Qed.

Local Abbreviation named_stack :=
  (Forall (fun entry : string * Z => is_identifier (fst entry) = true)).

Lemma pop_closed_keeps (P : string * Z -> Prop) depth stack :
  Forall P stack -> Forall P (pop_closed depth stack).
Proof.
  induction 1 as [|[c closes] stack Hc Hstack IH]; cbn [pop_closed];
    [constructor|].
  destruct (depth <? closes); [exact IH | now constructor].
Qed.

Lemma py_step_names idx line st :
  named_stack (py_stack st) -> Forall well_named (py_symbols st) ->
  named_stack (py_stack (py_step idx line st)) /\
  Forall well_named (py_symbols (py_step idx line st)).
Proof.
  intros Hstack Hsyms. unfold py_step.
  pose proof (pop_dedented_keeps _ (indentation line) _ Hstack) as Hpop.
  destruct (matched_group 1 (re_match PY_CLASS_RE line)) as [c|] eqn:Hclass.
  - apply py_class_name_identifier in Hclass. cbn [py_stack py_symbols].
    split; [now constructor|].
    apply Forall_app. split; [exact Hsyms|].
    constructor; [|constructor]. left. now split.
  - destruct (matched_group 1 (re_match PY_DEF_RE line)) as [f|] eqn:Hdef;
      cbn [py_stack py_symbols]; [|now split].
    apply py_def_name_identifier in Hdef.
    split; [exact Hpop|].
    apply Forall_app. split; [exact Hsyms|].
    constructor; [|constructor]. right. left. split; [reflexivity|].
    cbn [name].
    destruct (pop_dedented (indentation line) (py_stack st))
      as [|[c ind] below]; [now left | right].
    inversion Hpop as [|? ? Hc _]. cbn in Hc.
    exists c, f. auto.
Qed.

Lemma py_loop_names lines : forall idx st,
  named_stack (py_stack st) -> Forall well_named (py_symbols st) ->
  Forall well_named (py_symbols (py_loop idx lines st)).
Proof.
  induction lines as [|line rest IH]; intros idx st Hstack Hsyms;
    cbn [py_loop]; [exact Hsyms|].
  destruct (py_step_names idx line st Hstack Hsyms). now apply IH.
Qed.

Lemma record_method_names found c idx symbols :
  (forall m, found = Some m -> is_identifier m = true) ->
  (forall c', c = Some c' -> is_identifier c' = true) ->
  Forall well_named symbols ->
  Forall well_named (record_method found c idx symbols).
Proof.
  intros Hfound Hc Hsyms. unfold record_method.
  destruct found as [m|]; [|exact Hsyms].
  destruct c as [c'|]; [|exact Hsyms].
  apply Forall_app. split; [exact Hsyms|].
  constructor; [|constructor]. right. right. split; [reflexivity|].
  exists c', m. auto.
Qed.

Lemma ts_step_names idx line st :
  named_stack (ts_stack st) -> Forall well_named (ts_symbols st) ->
  named_stack (ts_stack (ts_step idx line st)) /\
  Forall well_named (ts_symbols (ts_step idx line st)).
Proof.
  intros Hstack Hsyms. unfold ts_step. cbn [ts_stack ts_symbols].
  set (stack1 := match matched_group 1 (re_search CLASS_RE line) with
                 | Some _ => _ | None => _ end).
  assert (Hstack1 : named_stack stack1).
  { subst stack1.
    destruct (matched_group 1 (re_search CLASS_RE line)) as [c|] eqn:Hclass;
      [|exact Hstack].
    apply class_name_identifier in Hclass. now constructor. }
  assert (Hcls : forall c', current_class stack1 = Some c' ->
                            is_identifier c' = true).
  { intros c'. unfold current_class.
    destruct Hstack1 as [|[c closes] below Hc _]; [discriminate|].
    destruct (is_empty c); [discriminate|]. now intros [= <-]. }
  split; [now apply pop_closed_keeps|].
  set (symbols2 := record_method _ _ idx (record_method _ _ idx _)).
  assert (Hsyms2 : Forall well_named symbols2).
  { subst symbols2. apply record_method_names; auto.
    - intros m. apply ts_arrow_name_identifier.
    - apply record_method_names; auto.
      intros m. apply ts_method_name_identifier. }
  destruct (matched_group 1 (re_search TS_FUNCTION_RE line)) as [f|] eqn:Hfun;
    [|exact Hsyms2].
  apply ts_function_name_identifier in Hfun.
  apply Forall_app. split; [exact Hsyms2|].
  constructor; [|constructor]. right. left. split; [reflexivity | now left].
Qed.

Lemma ts_loop_names lines : forall idx st,
  named_stack (ts_stack st) -> Forall well_named (ts_symbols st) ->
  Forall well_named (ts_symbols (ts_loop idx lines st)).
Proof.
  induction lines as [|line rest IH]; intros idx st Hstack Hsyms;
    cbn [ts_loop]; [exact Hsyms|].
  destruct (ts_step_names idx line st Hstack Hsyms). now apply IH.
Qed.

Lemma fill_ends_names l total :
  Forall well_named l -> Forall well_named (fill_ends l total).
Proof.
  induction 1 as [|x l Hx Hl IH]; cbn [fill_ends]; constructor; auto.
  destruct l; exact Hx.
Qed.

(** X7. The names in the symbol table are well formed, whatever the text:
    a class stands under an identifier (a non-empty run of letters, digits
    and underscores), a function under an identifier or under
    [Class.identifier], a method under [Class.identifier]; no name is empty
    and there is no other kind of symbol. *)
Theorem symbol_names_well_formed (text language : string) :
  Forall well_named (extract_symbol_table text language).
Proof.
  unfold extract_symbol_table, _fill_symbol_line_ends.
  apply fill_ends_names.
  eapply Permutation_Forall; [symmetry; apply sort_by_perm|].
  destruct (_ || _)%bool.
  - apply ts_loop_names; constructor.
  - destruct (String.eqb language "Python"); [|constructor].
    apply py_loop_names; constructor.
Qed.

End NameFacts.

(** ** Class scopes *)

Section ScopeFacts.
Import Text Regex Symbols Scopes Names.
Local Open Scope list_scope.

(** *** Python: indentation *)

Lemma py_step_keeps_class idx line st C indent below :
  py_stack st = (C, indent) :: below ->
  indent < indentation line ->
  matched_group 1 (re_match PY_CLASS_RE line) = None ->
  py_stack (py_step idx line st) = (C, indent) :: below.
Proof.
  intros Hst Hind Hclass. unfold py_step. rewrite Hclass, Hst.
  cbn [pop_dedented].
  replace (indentation line <=? indent) with false
    by (symmetry; apply Z.leb_gt; exact Hind).
  now destruct (matched_group 1 (re_match PY_DEF_RE line)).
Qed.

Lemma py_loop_keeps_class mid : forall idx st C indent below,
  py_stack st = (C, indent) :: below ->
  (forall m, In m mid ->
     indent < indentation m /\
     matched_group 1 (re_match PY_CLASS_RE m) = None) ->
  py_stack (py_loop idx mid st) = (C, indent) :: below.
Proof.
  induction mid as [|m mid IH]; intros idx st C indent below Hst Hmid;
    cbn [py_loop]; [exact Hst|].
  apply IH; [|intros; apply Hmid; now right].
  destruct (Hmid m (or_introl eq_refl)) as [Hind Hclass].
  now apply py_step_keeps_class.
Qed.

Lemma py_loop_keeps_symbols lines idx st s :
  In s (py_symbols st) -> In s (py_symbols (py_loop idx lines st)).
Proof.
  intros Hin. destruct (py_loop_symbols lines idx st) as (new & -> & _).
  apply in_or_app. now left.
Qed.

(** X8. A def line below a class line is recorded as [Class.def] when every
    line between the two, and the def line itself, is indented more than the
    class line and none of the lines between is a class line. *)
Theorem py_def_in_class_qualified (pre mid post : list string)
    (cls line C f : string) :
  matched_group 1 (re_match PY_CLASS_RE cls) = Some C ->
  (forall m, In m mid ->
     indentation cls < indentation m /\
     matched_group 1 (re_match PY_CLASS_RE m) = None) ->
  indentation cls < indentation line ->
  matched_group 1 (re_match PY_CLASS_RE line) = None ->
  matched_group 1 (re_match PY_DEF_RE line) = Some f ->
  let idx := 1 + Z.of_nat (List.length pre) + 1 + Z.of_nat (List.length mid) in
  In (mkSymbolInfo (qualified C f) "function" idx idx)
     (_extract_python_symbols (pre ++ cls :: mid ++ line :: post)).
Proof.
  intros Hcls Hmid Hind Hclass Hdef idx. subst idx.
  unfold _extract_python_symbols.
  rewrite py_loop_app. cbn [py_loop].
  set (st0 := py_loop 1 pre _).
  set (st1 := py_step _ cls st0).
  assert (Hst1 : py_stack st1
                 = (C, indentation cls)
                     :: pop_dedented (indentation cls) (py_stack st0)).
  { subst st1. unfold py_step. now rewrite Hcls. }
  rewrite py_loop_app. cbn [py_loop].
  set (st2 := py_loop _ mid st1).
  assert (Hst2 : py_stack st2
                 = (C, indentation cls)
                     :: pop_dedented (indentation cls) (py_stack st0))
    by (subst st2; now apply py_loop_keeps_class).
  apply py_loop_keeps_symbols.
  unfold py_step at 1. rewrite Hclass, Hdef, Hst2. cbn [pop_dedented].
  replace (indentation line <=? indentation cls) with false
    by (symmetry; apply Z.leb_gt; exact Hind).
  cbn [py_symbols]. apply in_or_app. right. now left.
Qed.

(** X9. A def line that is not indented more than any class line before it
    is recorded under its bare name: dedenting to the level of a class ends
    the scope of that class. A def at indentation 0 is never qualified. *)
Theorem py_dedent_unqualifies (pre post : list string) (line f : string) :
  (forall m, In m pre ->
     matched_group 1 (re_match PY_CLASS_RE m) <> None ->
     indentation line <= indentation m) ->
  matched_group 1 (re_match PY_CLASS_RE line) = None ->
  matched_group 1 (re_match PY_DEF_RE line) = Some f ->
  let idx := 1 + Z.of_nat (List.length pre) in
  In (mkSymbolInfo f "function" idx idx)
     (_extract_python_symbols (pre ++ line :: post)).
Proof.
  intros Hpre Hclass Hdef idx. subst idx.
  unfold _extract_python_symbols.
  rewrite py_loop_app. cbn [py_loop].
  apply py_loop_keeps_symbols.
  rewrite (py_step_def_unqualified _ _ _ f); auto.
  - apply in_or_app. right. now left.
  - apply pop_dedented_all.
    apply (py_loop_stack_bound (indentation line)); [constructor | exact Hpre].
Qed.

(** *** TypeScript: braces *)

Lemma ts_loop_keeps_symbols lines idx st s :
  In s (ts_symbols st) -> In s (ts_symbols (ts_loop idx lines st)).
Proof.
  intros Hin. destruct (ts_loop_symbols lines idx st) as (new & -> & _).
  apply in_or_app. now left.
Qed.

Lemma ts_step_stays_open idx line st C closes below :
  ts_stack st = (C, closes) :: below ->
  closes <= brace_depth st + brace_delta line ->
  is_class_line line = false ->
  ts_stack (ts_step idx line st) = (C, closes) :: below /\
  brace_depth (ts_step idx line st) = brace_depth st + brace_delta line.
Proof.
  unfold is_class_line, brace_delta. intros Hst Hopen Hclass.
  unfold ts_step. cbn [ts_stack brace_depth].
  destruct (matched_group 1 (re_search CLASS_RE line)); [discriminate|].
  rewrite Hst. cbn [pop_closed].
  replace (_ <? closes) with false by (symmetry; apply Z.ltb_ge; exact Hopen).
  split; reflexivity.
Qed.

Lemma ts_loop_stays_open mid : forall idx st C closes below,
  ts_stack st = (C, closes) :: below ->
  stays_open (brace_depth st - closes) mid ->
  (forall m, In m mid -> is_class_line m = false) ->
  ts_stack (ts_loop idx mid st) = (C, closes) :: below.
Proof.
  induction mid as [|m mid IH]; intros idx st C closes below Hst Hopen Hmid;
    cbn [ts_loop]; [exact Hst|].
  cbn [stays_open] in Hopen. destruct Hopen as [Hm Hopen].
  destruct (ts_step_stays_open idx m st C closes below Hst ltac:(lia)
              (Hmid m (or_introl eq_refl))) as [Hst' Hd'].
  apply IH; [exact Hst' | | intros; apply Hmid; now right].
  rewrite Hd'.
  now replace (brace_depth st + brace_delta m - closes)
    with (brace_depth st - closes + brace_delta m) by lia.
Qed.

(** X10. A method line inside an open class body is recorded as
    [Class.method]: the class line opens more braces than it closes, the
    lines between never bring the brace depth below the level of the body,
    and no line between or the method line itself matches [CLASS_RE]. *)
Theorem ts_method_in_open_class (pre mid post : list string)
    (cls line C f : string) :
  matched_group 1 (re_search CLASS_RE cls) = Some C ->
  1 <= brace_delta cls ->
  stays_open 0 mid ->
  (forall m, In m mid -> is_class_line m = false) ->
  is_class_line line = false ->
  matched_group 4 (re_match TS_METHOD_RE line) = Some f ->
  let idx := 1 + Z.of_nat (List.length pre) + 1 + Z.of_nat (List.length mid) in
  In (mkSymbolInfo (qualified C f) "method" idx idx)
     (_extract_typescript_symbols (pre ++ cls :: mid ++ line :: post)).
Proof.
  intros Hcls Hdelta Hopen Hmid Hline Hmeth idx. subst idx.
  assert (HC : C <> "").
  { apply class_name_identifier in Hcls. now destruct C. }
  unfold _extract_typescript_symbols.
  rewrite ts_loop_app. cbn [ts_loop].
  set (st0 := ts_loop 1 pre _).
  set (st1 := ts_step _ cls st0).
  set (closes := brace_depth st0 + brace_delta cls).
  assert (Hst1 : ts_stack st1 = (C, closes) :: ts_stack st0
                 /\ brace_depth st1 = closes).
  { subst st1 closes. unfold ts_step. rewrite Hcls.
    cbn [ts_stack brace_depth]. fold (brace_delta cls).
    rewrite Z.max_l by lia. cbn [pop_closed].
    now rewrite Z.ltb_irrefl. }
  destruct Hst1 as [Hst1 Hd1].
  rewrite ts_loop_app. cbn [ts_loop].
  set (st2 := ts_loop _ mid st1).
  assert (Hst2 : ts_stack st2 = (C, closes) :: ts_stack st0).
  { subst st2. apply ts_loop_stays_open; auto.
    now rewrite Hd1, Z.sub_diag. }
  apply ts_loop_keeps_symbols.
  unfold is_class_line in Hline.
  unfold ts_step. destruct (matched_group 1 (re_search CLASS_RE line));
    [discriminate|].
  rewrite Hst2, Hmeth. cbn [current_class ts_symbols].
  destruct C as [|c0 C']; [congruence|]. cbn [is_empty record_method].
  set (m := mkSymbolInfo _ "method" _ _).
  assert (Hin : In m (ts_symbols st2 ++ [m])) by (apply in_or_app; right; now left).
  revert Hin. generalize (ts_symbols st2 ++ [m]). intros l1 Hin.
  destruct (record_method_new
              (matched_group 3 (re_match TS_ARROW_METHOD_RE line))
              (Some (String c0 C'))
              (1 + Z.of_nat (List.length pre) + 1 + Z.of_nat (List.length mid))
              l1) as (n2 & -> & _).
  destruct (matched_group 1 (re_search TS_FUNCTION_RE line));
    repeat (apply in_or_app; left); exact Hin.
Qed.

(** One line read with an empty class stack, when a class line never opens
    more braces than it closes: the stack is empty again afterwards, and a
    method is recorded only if the line is a class line. *)
Lemma ts_step_closed_class idx line st :
  ts_stack st = [] ->
  (is_class_line line = true -> brace_delta line <= 0) ->
  ts_stack (ts_step idx line st) = [] /\
  exists new,
    ts_symbols (ts_step idx line st) = ts_symbols st ++ new /\
    Forall (fun s => line_start s = idx /\
                     (kind s = "function" \/
                      kind s = "method" /\ is_class_line line = true)) new.
Proof.
  intros Hst Hclosed. unfold is_class_line, brace_delta in Hclosed.
  destruct (matched_group 1 (re_search CLASS_RE line)) as [C|] eqn:Hclass.
  - specialize (Hclosed eq_refl). split.
    + unfold ts_step. rewrite Hclass, Hst. cbn [ts_stack pop_closed].
      rewrite Z.max_r by lia.
      replace (_ <? _) with true by (symmetry; apply Z.ltb_lt; lia).
      reflexivity.
    + destruct (ts_step_symbols idx line st) as (new & -> & Hnew).
      exists new. split; [reflexivity|].
      eapply Forall_impl; [|exact Hnew]. intros s [Hs [Hk | Hk]];
        unfold is_class_line; rewrite Hclass; auto.
  - unfold ts_step. rewrite Hclass, Hst.
    cbn [current_class record_method ts_stack ts_symbols pop_closed].
    split; [reflexivity|].
    assert (Hnone : forall found l, record_method found None idx l = l)
      by (intros [x|] l; reflexivity).
    rewrite !Hnone.
    destruct (matched_group 1 (re_search TS_FUNCTION_RE line)) as [g|].
    + eexists. split; [reflexivity|]. repeat constructor.
    + exists []. split; [now rewrite app_nil_r | constructor].
Qed.

Lemma ts_loop_closed_class lines : forall idx st,
  ts_stack st = [] ->
  (forall l, In l lines -> is_class_line l = true -> brace_delta l <= 0) ->
  exists new,
    ts_symbols (ts_loop idx lines st) = ts_symbols st ++ new /\
    Forall (fun s =>
              idx <= line_start s /\
              (kind s = "function" \/
               kind s = "method" /\
               exists l,
                 nth_error lines (Z.to_nat (line_start s - idx)) = Some l
                 /\ is_class_line l = true)) new.
Proof.
  induction lines as [|line rest IH]; intros idx st Hst Hclosed;
    cbn [ts_loop].
  - exists []. split; [now rewrite app_nil_r | constructor].
  - destruct (ts_step_closed_class idx line st Hst
                (Hclosed line (or_introl eq_refl)))
      as (Hst' & n1 & Hn1 & H1).
    destruct (IH (idx + 1) _ Hst' (fun l Hl => Hclosed l (or_intror Hl)))
      as (n2 & -> & H2).
    rewrite Hn1. exists (n1 ++ n2). split; [now rewrite <- app_assoc|].
    apply Forall_app; split.
    + eapply Forall_impl; [|exact H1]. cbn beta.
      intros s [Hs [Hk | [Hk Hc]]]; (split; [lia|]); [now left | right].
      split; [exact Hk|]. exists line. rewrite Hs, Z.sub_diag. now split.
    + eapply Forall_impl; [|exact H2]. cbn beta.
      intros s [Hr [Hk | [Hk (l & Hl & Hc)]]]; (split; [lia|]);
        [now left | right].
      split; [exact Hk|]. exists l. split; [|exact Hc].
      replace (Z.to_nat (line_start s - idx))
        with (S (Z.to_nat (line_start s - (idx + 1)))) by lia.
      exact Hl.
Qed.

(** X11. When no class line of a file opens more braces than it closes (the
    opening brace of a class is on the next line, or the class is closed on
    its own line), the class is out of scope before the next line is read:
    a method is recorded only for a line that itself matches [CLASS_RE], all
    other symbols are functions. *)
Theorem ts_class_brace_on_next_line (lines : list string) :
  (forall l, In l lines -> is_class_line l = true -> brace_delta l <= 0) ->
  Forall (fun s => kind s = "function" \/
                   kind s = "method" /\
                   exists l, line_of lines s = Some l /\ is_class_line l = true)
         (_extract_typescript_symbols lines).
Proof.
  intros Hclosed. unfold _extract_typescript_symbols, line_of.
  destruct (ts_loop_closed_class lines 1 (mkTs [] 0 []) eq_refl Hclosed)
    as (new & -> & Hnew).
  cbn [ts_symbols app]. eapply Forall_impl; [|exact Hnew].
  cbn beta. intros s [_ Hs]. exact Hs.
Qed.

(** X12. A file without any line that matches [CLASS_RE] yields function
    symbols only. *)
Theorem ts_no_class_only_functions (lines : list string) :
  (forall l, In l lines -> is_class_line l = false) ->
  Forall (fun s => kind s = "function") (_extract_typescript_symbols lines).
Proof.
  intros Hnone. unfold _extract_typescript_symbols.
  destruct (ts_loop_closed_class lines 1 (mkTs [] 0 []) eq_refl) as (new & -> & Hnew).
  { intros l Hl Hc. rewrite (Hnone l Hl) in Hc. discriminate. }
  cbn [ts_symbols app].
  eapply Forall_impl; [|exact Hnew]. cbn beta.
  intros s [_ [Hk | [_ (l & Hl & Hc)]]]; [exact Hk|].
  apply nth_error_In in Hl. rewrite (Hnone l Hl) in Hc. discriminate.
Qed.

End ScopeFacts.

(** ** Which files are selected *)

Section MoreSelectionFacts.
Import Text Symbols Selection.
Local Open Scope list_scope.

Lemma get_In k v d : get k d = Some v -> In (k, v) d.
Proof.
  induction d as [|[k' v'] d IH]; cbn [get]; [discriminate|].
  destruct (String.eqb_spec k k') as [<- | _].
  - intros [= <-]. now left.
  - intros H. right. now apply IH.
Qed.

(** No extension is both a source extension and a noise extension, and no
    language name of the table is empty. *)
Lemma source_extension_kept ext lang :
  get ext SOURCE_EXTENSIONS = Some lang ->
  mem ext SKIP_EXTENSIONS = false /\ is_empty lang = false.
Proof.
  intros H. apply get_In in H. unfold SOURCE_EXTENSIONS in H.
  cbn [In] in H.
  repeat (destruct H as [H | H]; [injection H as <- <-; split; reflexivity|]).
  destruct H.
Qed.

Variable root : Path.
Variable settings : Settings.
Variable tree : list Entry.

Lemma sort_by_weight_length (l : list FileCandidate) :
  List.length (sort_by PrimFloat.ltb weight true l) = List.length l.
Proof. apply Permutation_length, sort_by_perm. Qed.

(** X13. How many candidates come back. With a cap [max_candidate_files >= 0]
    it is the smaller of the cap and the number of eligible files; with a
    negative cap [-k] the [k] last candidates of the sorted list are dropped;
    and when the eligible files do not exceed the cap, all of them are
    returned. *)
Theorem collect_candidates_count :
  let eligible := gather_candidates root settings tree in
  let cap := max_candidate_files settings in
  let result := collect_source_candidates root settings tree in
  (0 <= cap ->
   Z.of_nat (List.length result)
   = Z.min cap (Z.of_nat (List.length eligible))) /\
  (cap < 0 ->
   Z.of_nat (List.length result)
   = Z.max 0 (Z.of_nat (List.length eligible) + cap)) /\
  (Z.of_nat (List.length eligible) <= cap -> Permutation result eligible).
Proof.
  intros eligible cap result. subst result.
  unfold collect_source_candidates. fold eligible. fold cap.
  pose proof (sort_by_weight_length eligible) as Hlen.
  set (sorted := sort_by PrimFloat.ltb weight true eligible) in *.
  rewrite Hlen.
  destruct (Z.of_nat (List.length eligible) >? cap) eqn:Hgt;
    rewrite Z.gtb_ltb in Hgt;
    [apply Z.ltb_lt in Hgt | apply Z.ltb_ge in Hgt].
  - unfold slice_to. repeat split.
    + intros Hcap.
      replace (cap <? 0) with false by (symmetry; apply Z.ltb_ge; exact Hcap).
      rewrite length_firstn, Hlen. lia.
    + intros Hcap.
      replace (cap <? 0) with true by (symmetry; apply Z.ltb_lt; exact Hcap).
      rewrite length_firstn, Hlen. lia.
    + lia.
  - repeat split; try lia. intros _. apply sort_by_perm.
Qed.

Lemma gather_complete e c :
  In e tree -> keep_source_file root e = true ->
  candidate_of root settings e = Some c ->
  In c (gather_candidates root settings tree).
Proof.
  intros He Hkeep Hc. unfold gather_candidates, iter_source_files.
  apply in_flat_map. exists e. split.
  - apply filter_In. now split.
  - rewrite Hc. now left.
Qed.

(** X14. No eligible file is lost. A regular file of the tree with no noise
    directory name among its path segments, a size above 0 and at most
    [max_file_bytes], and an extension of the language table is returned as
    a candidate with that language, its size and its weight, whenever the
    cap is not exceeded. (The noise-extension test never removes such a
    file: no extension is in both tables.) *)
Theorem eligible_file_selected (e : Entry) (lang : string) :
  In e tree ->
  is_file e = true ->
  (forall part, In part (root ++ rel e) -> mem part SKIP_DIR_NAMES = false) ->
  0 < Z.of_N (st_size e) <= max_file_bytes settings ->
  get (lower (suffix (root ++ rel e))) SOURCE_EXTENSIONS = Some lang ->
  Z.of_nat (List.length (gather_candidates root settings tree))
  <= max_candidate_files settings ->
  In (mkFileCandidate (root ++ rel e) (rel e) lang (Z.of_N (st_size e))
                      (compute_weight (rel e) (Z.of_N (st_size e)) lang))
     (collect_source_candidates root settings tree).
Proof.
  intros He Hfile Hdirs Hsize Hext Hcap.
  destruct (source_extension_kept _ _ Hext) as [Hskip Hlang].
  assert (Hkeep : keep_source_file root e = true).
  { unfold keep_source_file. rewrite Hfile, Hskip. cbn [negb andb].
    apply negb_true_iff.
    destruct (existsb _ (root ++ rel e)) eqn:Hex; [|reflexivity].
    apply existsb_exists in Hex as (part & Hin & Hmem).
    rewrite (Hdirs part Hin) in Hmem. discriminate. }
  assert (Hcand : candidate_of root settings e
                  = Some (mkFileCandidate (root ++ rel e) (rel e) lang
                            (Z.of_N (st_size e))
                            (compute_weight (rel e) (Z.of_N (st_size e))
                                            lang))).
  { unfold candidate_of.
    replace (Z.of_N (st_size e) =? 0) with false
      by (symmetry; apply Z.eqb_neq; lia).
    replace (Z.of_N (st_size e) >? max_file_bytes settings) with false
      by (symmetry; rewrite Z.gtb_ltb; apply Z.ltb_ge; lia).
    cbn [orb]. now rewrite Hext, Hlang. }
  pose proof (gather_complete _ _ He Hkeep Hcand) as Hin.
  unfold collect_source_candidates.
  replace (_ >? _) with false.
  - exact (Permutation_in _
             (Permutation_sym (sort_by_perm PrimFloat.ltb weight true _)) Hin).
  - symmetry. rewrite Z.gtb_ltb. apply Z.ltb_ge.
    now rewrite sort_by_weight_length.
Qed.

(** X15. The noise-directory test reads every segment of the full path, the
    segments of [root] included: when the root itself lies below a directory
    with a noise name (say [build] or [env]), no file is selected. *)
Theorem root_below_noise_dir_selects_nothing (part : string) :
  In part root -> mem part SKIP_DIR_NAMES = true ->
  iter_source_files root tree = [] /\
  collect_source_candidates root settings tree = [].
Proof.
  intros Hin Hmem.
  assert (Hnone : iter_source_files root tree = []).
  { unfold iter_source_files. induction tree as [|e t IH]; [reflexivity|].
    cbn [filter]. rewrite IH.
    replace (keep_source_file root e) with false; [reflexivity|].
    symmetry. unfold keep_source_file.
    replace (existsb _ (root ++ rel e)) with true;
      [now rewrite andb_false_r|].
    symmetry. apply existsb_exists. exists part. split; [|exact Hmem].
    apply in_or_app. now left. }
  split; [exact Hnone|].
  unfold collect_source_candidates, gather_candidates. rewrite Hnone.
  cbn [flat_map sort_by fold_right List.length].
  destruct (_ >? _); [|reflexivity].
  unfold slice_to. destruct (_ <? 0); apply firstn_nil.
Qed.

End MoreSelectionFacts.

(** ** Configuration *)

Section ConfigFacts.
Import Text Config.

Variable getenv : string -> option string.
Variable int_of_str : string -> option Z.
Variable float_of_str : string -> option float.

Local Abbreviation _get_required_env := (_get_required_env getenv).
Local Abbreviation get_settings_wrapped :=
  (get_settings_wrapped getenv int_of_str float_of_str).
Local Abbreviation get_settings :=
  (get_settings getenv int_of_str float_of_str).
Local Abbreviation getenv_default := (getenv_default getenv).

Lemma truthy_Some v : truthy v = true <-> exists s, v = Some s /\ s <> "".
Proof.
  destruct v as [[|c s]|]; cbn; split; try discriminate.
  - intros (s & [= <-] & H). congruence.
  - intros _. eexists. split; [reflexivity | discriminate].
  - reflexivity.
  - intros (s & H & _). discriminate.
Qed.

Lemma required_env_Value name default v :
  _get_required_env name default = Value v ->
  v <> "" /\
  (getenv name = Some v \/
   truthy (getenv name) = false /\ default = Some v /\
   v <> PLACEHOLDER_SENTINEL).
Proof.
  unfold Config._get_required_env.
  destruct (getenv name) as [[|c s]|] eqn:Henv; cbn [truthy is_empty negb].
  2:{ intros [= <-]. split; [discriminate | now left]. }
  all: destruct default as [[|c d]|]; cbn [truthy is_empty negb];
    try discriminate;
    destruct (String.eqb_spec (String c d) PLACEHOLDER_SENTINEL);
    try discriminate;
    intros [= <-]; (split; [discriminate | right; auto]).
Qed.

Lemma required_env_set name default v :
  getenv name = Some v -> v <> "" ->
  _get_required_env name default = Value v.
Proof.
  intros Henv Hne. unfold Config._get_required_env. rewrite Henv.
  destruct v; [congruence | reflexivity].
Qed.

(** X16. [_get_required_env] returns the value of the variable whenever
    that is set and not empty.  Otherwise it returns the default when there
    is one that is not empty and is not the placeholder, raises
    [RuntimeError] when the default is the placeholder, and raises
    [RuntimeError] when there is no default or an empty one.  So what it
    returns is never empty and never the placeholder default. *)
Theorem required_env_value (name : string) (default : option string) :
  (forall v, getenv name = Some v -> v <> "" ->
     _get_required_env name default = Value v) /\
  (forall d, truthy (getenv name) = false ->
     default = Some d -> d <> "" -> d <> PLACEHOLDER_SENTINEL ->
     _get_required_env name default = Value d) /\
  (truthy (getenv name) = false ->
   default = Some PLACEHOLDER_SENTINEL ->
   _get_required_env name default
   = RuntimeError (missing_with_placeholder name)) /\
  (truthy (getenv name) = false ->
   truthy default = false ->
   _get_required_env name default = RuntimeError (missing name)) /\
  (forall v, _get_required_env name default = Value v ->
     v <> "" /\
     (getenv name = Some v \/
      truthy (getenv name) = false /\ default = Some v /\
      v <> PLACEHOLDER_SENTINEL)).
Proof.
  split; [intros v; apply required_env_set|].
  split; [|split; [|split; [|apply required_env_Value]]].
  - unfold Config._get_required_env. intros d Henv -> Hne Hph.
    destruct (getenv name) as [[|c s]|]; cbn in Henv; try discriminate;
      (destruct d as [|c d]; [congruence|]); cbn [truthy is_empty negb];
      destruct (String.eqb_spec (String c d) PLACEHOLDER_SENTINEL);
      congruence.
  - unfold Config._get_required_env. intros Henv ->.
    destruct (getenv name) as [[|c s]|]; cbn in Henv; try discriminate;
      reflexivity.
  - unfold Config._get_required_env. intros Henv Hdef.
    destruct (getenv name) as [[|c s]|]; cbn in Henv; try discriminate;
      destruct default as [[|c d]|]; cbn in Hdef; try discriminate;
      reflexivity.
Qed.

Lemma bind_Value {A B} (x : loaded A) (f : A -> loaded B) b :
  bind x f = Value b -> exists a, x = Value a /\ f a = Value b.
Proof. destruct x; cbn; intros H; try discriminate. eauto. Qed.

Lemma parsed_Value {A} (v : option A) a : parsed v = Value a -> v = Some a.
Proof. destruct v; cbn; intros H; [now injection H as -> | discriminate]. Qed.

(** What the function under the cache has read when it returns. *)
Lemma get_settings_wrapped_Value s :
  get_settings_wrapped = Value s ->
  getenv "OPENAI_API_KEY" = Some (openai_api_key s) /\
  openai_api_key s <> "" /\
  int_of_str (getenv_default "MAX_CANDIDATE_FILES" "200")
  = Some (max_candidate_files s) /\
  int_of_str (getenv_default "MAX_FILE_BYTES" "200000")
  = Some (max_file_bytes s) /\
  int_of_str (getenv_default "MAX_TOKENS_PER_CHUNK" "1800")
  = Some (max_tokens_per_chunk s) /\
  int_of_str (getenv_default "MAX_PROMPT_TOKENS" "10000")
  = Some (max_prompt_tokens s) /\
  float_of_str (getenv_default "SUMMARIZE_TEMPERATURE" "0.1")
  = Some (summarize_temperature s) /\
  float_of_str (getenv_default "REPORT_TEMPERATURE" "0.0")
  = Some (report_temperature s).
Proof.
  intros Hs. unfold Config.get_settings_wrapped in Hs.
  apply bind_Value in Hs as (key & Hkey & Hs).
  apply bind_Value in Hs as (n1 & H1 & Hs).
  apply bind_Value in Hs as (n2 & H2 & Hs).
  apply bind_Value in Hs as (n3 & H3 & Hs).
  apply bind_Value in Hs as (n4 & H4 & Hs).
  apply bind_Value in Hs as (f1 & H5 & Hs).
  apply bind_Value in Hs as (f2 & H6 & Hs).
  injection Hs as <-.
  cbn [openai_api_key max_candidate_files max_file_bytes
       max_tokens_per_chunk max_prompt_tokens summarize_temperature
       report_temperature].
  apply parsed_Value in H1, H2, H3, H4, H5, H6.
  destruct (required_env_Value _ _ _ Hkey)
    as [Hne [Henv | (_ & [= <-] & Hph)]].
  - repeat split; auto.
  - now contradiction Hph.
Qed.

(** X17. [get_settings] is cached.  A call that finds the cache empty (the
    first call, and every call after calls that raised) reads the
    environment: without a non-empty [OPENAI_API_KEY] it raises
    [RuntimeError], whatever the other variables hold; the settings it
    returns carry the key of the environment and the numbers the parsers
    read from the variables, so a numeric variable set to a text the parser
    rejects makes the call fail instead of giving the default; it stores
    the settings it returns, and nothing when it raises.  A call that finds
    settings in the cache returns these and leaves them there, whatever the
    environment holds by then. *)
Theorem get_settings_reads_environment :
  (truthy (getenv "OPENAI_API_KEY") = false ->
   get_settings None
   = (RuntimeError (missing_with_placeholder "OPENAI_API_KEY"), None)) /\
  (forall s cache', get_settings None = (Value s, cache') ->
     cache' = Some s /\
     getenv "OPENAI_API_KEY" = Some (openai_api_key s) /\
     openai_api_key s <> "" /\
     int_of_str (getenv_default "MAX_CANDIDATE_FILES" "200")
     = Some (max_candidate_files s) /\
     int_of_str (getenv_default "MAX_FILE_BYTES" "200000")
     = Some (max_file_bytes s) /\
     int_of_str (getenv_default "MAX_TOKENS_PER_CHUNK" "1800")
     = Some (max_tokens_per_chunk s) /\
     int_of_str (getenv_default "MAX_PROMPT_TOKENS" "10000")
     = Some (max_prompt_tokens s) /\
     float_of_str (getenv_default "SUMMARIZE_TEMPERATURE" "0.1")
     = Some (summarize_temperature s) /\
     float_of_str (getenv_default "REPORT_TEMPERATURE" "0.0")
     = Some (report_temperature s)) /\
  (forall result cache', get_settings None = (result, cache') ->
     (forall s, result <> Value s) -> cache' = None) /\
  (forall cached, get_settings (Some cached) = (Value cached, Some cached)).
Proof.
  split; [|split; [|split]].
  - intros Hkey.
    unfold Config.get_settings, Config.get_settings_wrapped,
      Config._get_required_env.
    destruct (getenv "OPENAI_API_KEY") as [[|c k]|]; cbn in Hkey;
      try discriminate; reflexivity.
  - intros s cache' Hs. unfold Config.get_settings in Hs.
    destruct get_settings_wrapped as [s0| |] eqn:Hbody; try discriminate.
    injection Hs as <- <-. split; [reflexivity|].
    now apply get_settings_wrapped_Value.
  - intros result cache' Hs Hraise. unfold Config.get_settings in Hs.
    destruct get_settings_wrapped as [s0| |]; injection Hs as <- <-;
      [now contradiction (Hraise s0) | reflexivity | reflexivity].
  - reflexivity.
Qed.

End ConfigFacts.

(** ** The prompt *)

Section PromptFacts.
Import Text Chunker Prompt.

Lemma string_length_app (a b : string) :
  String.length (a ++ b) = (String.length a + String.length b)%nat.
Proof. induction a as [|c a IH]; cbn; [reflexivity | now rewrite IH]. Qed.

Lemma str_take_length k s :
  String.length (str_take k s) = Nat.min k (String.length s).
Proof.
  revert s. induction k as [|k IH]; intros [|c s]; cbn; try reflexivity.
  now rewrite IH.
Qed.

Lemma str_take_split k s : exists rest, s = str_take k s ++ rest.
Proof.
  revert s. induction k as [|k IH]; intros [|c s]; cbn; eauto.
  destruct (IH s) as [rest Hrest]. exists rest. now rewrite <- Hrest.
Qed.

Lemma str_take_app k a b :
  (k <= String.length a)%nat -> str_take k (a ++ b) = str_take k a.
Proof.
  revert a. induction k as [|k IH]; intros [|c a] Hk; cbn in *;
    try reflexivity; try lia.
  rewrite IH by lia. reflexivity.
Qed.

Lemma join_snoc sep (l : list string) x :
  l <> [] -> join sep (l ++ [x]) = join sep l ++ sep ++ x.
Proof.
  unfold join. induction l as [|a l IH]; intros Hne; [congruence|].
  destruct l as [|b l].
  - reflexivity.
  - cbn [app String.concat] in *. rewrite IH by discriminate.
    now rewrite !string_app_assoc.
Qed.

Lemma compose_prompt_bound problem_description artifacts max_chars :
  len (_compose_prompt problem_description artifacts max_chars)
  <= Z.max max_chars 40 /\
  (max_chars
   < len (join newline (prompt_lines problem_description artifacts)) ->
   len (_compose_prompt problem_description artifacts max_chars)
   = Z.max 0 (max_chars - 100) + 40).
Proof.
  unfold _compose_prompt.
  set (full := join newline (prompt_lines problem_description artifacts)).
  destruct (len full >? max_chars) eqn:Hgt; rewrite Z.gtb_ltb in Hgt;
    [apply Z.ltb_lt in Hgt | apply Z.ltb_ge in Hgt].
  - assert (Hlen : len (str_take (Z.to_nat (Z.max 0 (max_chars - 100))) full
                        ++ truncation_marker)
                   = Z.max 0 (max_chars - 100) + 40).
    { unfold len in *. rewrite string_length_app, str_take_length.
      change (String.length truncation_marker) with 40%nat. lia. }
    rewrite Hlen. split; lia.
  - split; lia.
Qed.

(** X18. The prompt respects its bound: [_compose_prompt] returns at most
    [max(max_chars, 40)] characters. When the full prompt is longer than
    [max_chars] the result has exactly [max(0, max_chars - 100) + 40]
    characters: the kept prefix and the marker of 40 characters. *)
Theorem compose_prompt_length (problem_description : string)
    (artifacts : AnalysisArtifacts) (max_chars : Z) :
  let full := join newline (prompt_lines problem_description artifacts) in
  let prompt := _compose_prompt problem_description artifacts max_chars in
  len prompt <= Z.max max_chars 40 /\
  (max_chars < len full ->
   len prompt = Z.max 0 (max_chars - 100) + 40) /\
  (len full <= max_chars -> prompt = full).
Proof.
  intros full prompt. subst prompt full.
  destruct (compose_prompt_bound problem_description artifacts max_chars)
    as [Hle Heq].
  repeat split; auto.
  intros Hfit. unfold _compose_prompt.
  now replace (_ >? max_chars) with false
    by (symmetry; rewrite Z.gtb_ltb; apply Z.ltb_ge; exact Hfit).
Qed.

(** X19. A truncated prompt has lost its closing instruction: when the full
    prompt is longer than [max_chars], what is kept of it in front of the
    marker ends before the last line of the output format, [Only output JSON
    without additional commentary.] *)
Theorem truncated_prompt_loses_final_instruction (problem_description : string)
    (artifacts : AnalysisArtifacts) (max_chars : Z) :
  let full := join newline (prompt_lines problem_description artifacts) in
  max_chars < len full ->
  exists kept cut,
    full = kept ++ cut ++ "Only output JSON without additional commentary."
    /\ _compose_prompt problem_description artifacts max_chars
       = kept ++ truncation_marker.
Proof.
  intros full Hlong. unfold _compose_prompt. fold full.
  replace (len full >? max_chars) with true
    by (symmetry; rewrite Z.gtb_ltb; apply Z.ltb_lt; exact Hlong).
  set (final := "Only output JSON without additional commentary.").
  assert (Hfull : exists body, full = body ++ final) .
  { subst full. unfold prompt_lines, output_format.
    set (head := [ "# Task"; _; _; _; _; _; _; _; _; _ ]).
    set (mid := if is_nil _ then _ else _).
    exists (join newline
              (head ++ mid ++ [ "## Output Format";
                 "Return a JSON object with:";
                 "- feature_analysis: array of objects with feature_description (string, Simplified Chinese) and implementation_location (array with file, function, lines).";
                 "- execution_plan_suggestion: string with concise instructions to run the project in Simplified Chinese.";
                 "Use the symbol table above to cite precise function or method names and provide line numbers or ranges.";
                 "Do not leave function or lines as null; if only a single line is known, use that number." ])%list
            ++ newline).
    rewrite string_app_assoc, <- join_snoc by (subst head; discriminate).
    f_equal. rewrite <- !List.app_assoc. reflexivity. }
  destruct Hfull as [body Hbody].
  set (k := Z.to_nat (Z.max 0 (max_chars - 100))).
  assert (Hk : (k <= String.length body)%nat).
  { unfold len in Hlong. rewrite Hbody, string_length_app in Hlong.
    change (String.length final) with 47%nat in Hlong. lia. }
  destruct (str_take_split k body) as [cut Hcut].
  exists (str_take k body), cut. split.
  - rewrite Hbody. rewrite Hcut at 1. now rewrite string_app_assoc.
  - now rewrite Hbody, str_take_app.
Qed.

End PromptFacts.

(** ** The pipeline *)

Section PipelineFacts.
Import Text Selection Report Prompt Pipeline.

Variable tree : list Overview.Node.
Variable read_text : Path -> option string.
Variable encode_len : string -> option nat.
Variable _summarize_chunk
  : Config.Settings -> Chunker.CodeChunk -> FileCandidate -> string
    -> option string.
Variable create_response : Config.Settings -> string -> option string.
Variable json_loads : string -> option json.
Variable branch : string.

Local Abbreviation analyze_repository :=
  (analyze_repository tree read_text encode_len _summarize_chunk
                      create_response json_loads branch).
Local Abbreviation _gather_artifacts :=
  (_gather_artifacts tree read_text encode_len _summarize_chunk branch).

(** What [_validate_report] has checked of what it returns. *)
Lemma validate_returned text data :
  _validate_report json_loads text = Returned data ->
  json_loads text = Some data /\
  contains "feature_analysis" data = Some true /\
  contains "execution_plan_suggestion" data = Some true.
Proof.
  unfold _validate_report.
  destruct (json_loads text) as [d|]; [|discriminate].
  destruct (contains "feature_analysis" d) as [[]|] eqn:H1; try discriminate.
  destruct (contains "execution_plan_suggestion" d) as [[]|] eqn:H2;
    try discriminate.
  intros [= <-]. auto.
Qed.

(** X20. The pipeline end to end. The prompt composed from the artifacts
    and sent to the model has at most [max(4 * max_prompt_tokens, 40)]
    characters. When the model call fails, [analyze_repository] raises
    [ReportGenerationError] with the message [Failed to generate report].
    Whatever it returns is the value [json.loads] read from the answer of
    the model to that prompt, and both [feature_analysis] and
    [execution_plan_suggestion] are in it. An exception that leaves
    [_gather_artifacts] leaves [analyze_repository] too. *)
Theorem analyze_repository_outcomes (problem_description : string)
    (repo_path : Path) (settings : Config.Settings) :
  let max_chars := Config.max_prompt_tokens settings * 4 in
  let gathered := _gather_artifacts problem_description repo_path settings in
  let result := analyze_repository problem_description repo_path settings in
  (forall artifacts,
     gathered = Some artifacts ->
     let prompt := _compose_prompt problem_description artifacts max_chars in
     len prompt <= Z.max (4 * Config.max_prompt_tokens settings) 40 /\
     (create_response settings prompt = None ->
      result = Some (ReportGenerationError "Failed to generate report"))) /\
  (forall data, result = Some (Returned data) ->
     exists artifacts raw_report,
       gathered = Some artifacts /\
       create_response settings
         (_compose_prompt problem_description artifacts max_chars)
       = Some raw_report /\
       json_loads raw_report = Some data /\
       contains "feature_analysis" data = Some true /\
       contains "execution_plan_suggestion" data = Some true) /\
  (gathered = None -> result = None).
Proof.
  intros max_chars gathered result. subst result.
  unfold Pipeline.analyze_repository, _request_report. fold gathered.
  fold max_chars.
  split; [|split].
  - intros artifacts Hgathered. rewrite Hgathered. split.
    + subst max_chars.
      destruct (compose_prompt_bound problem_description artifacts
                  (Config.max_prompt_tokens settings * 4)) as [Hlen _].
      lia.
    + intros ->. reflexivity.
  - intros data Hdata.
    destruct gathered as [artifacts|]; [|discriminate].
    exists artifacts.
    destruct (create_response settings _) as [raw|]; [|discriminate].
    exists raw. split; [reflexivity|]. split; [reflexivity|].
    apply validate_returned. congruence.
  - intros ->. reflexivity.
Qed.

End PipelineFacts.

(** ** Where a summary comes from *)

Section MoreSummarizerFacts.
Import Text Symbols Selection Chunker Summarizer.
Local Open Scope list_scope.

Variable read_text : Path -> option string.
Variable encode_len : string -> option nat.
Variable settings : Settings.
Variable _summarize_chunk : CodeChunk -> FileCandidate -> string -> option string.

Local Abbreviation _chunk_text :=
  (_chunk_text encode_len (max_tokens_per_chunk settings)).
Local Abbreviation summarize_chunks := (summarize_chunks _summarize_chunk).
Local Abbreviation summarize_candidate :=
  (summarize_candidate read_text encode_len settings _summarize_chunk).
Local Abbreviation summarize_candidates :=
  (summarize_candidates read_text encode_len settings _summarize_chunk).

Lemma summarize_chunks_successes chunks candidate problem text :
  In text (summarize_chunks chunks candidate problem) ->
  exists chunk, In chunk chunks /\
                _summarize_chunk chunk candidate problem = Some text.
Proof.
  rewrite summarize_chunks_flat_map. intros Hin.
  apply in_flat_map in Hin as (chunk & Hchunk & Hin).
  exists chunk. split; [exact Hchunk|].
  destruct (_summarize_chunk chunk candidate problem); cbn in Hin;
    [destruct Hin as [-> | []]; reflexivity | destruct Hin].
Qed.

Lemma summarize_candidate_Summarized candidate problem s :
  summarize_candidate candidate problem = Summarized s ->
  exists text chunks,
    read_text (path candidate) = Some text /\
    _chunk_text text = Some chunks /\
    fs_path s = path candidate /\
    fs_relative_path s = relative_path candidate /\
    fs_language s = language candidate /\
    symbols s = extract_symbol_table text (language candidate) /\
    summary s = _combine_chunk_summaries
                  (summarize_chunks chunks candidate problem) /\
    text <> "" /\
    exists chunk chunk_summary,
      In chunk chunks /\
      _summarize_chunk chunk candidate problem = Some chunk_summary.
Proof.
  unfold Summarizer.summarize_candidate.
  destruct (read_text (path candidate)) as [text|]; [|discriminate].
  destruct (_chunk_text text) as [chunks|] eqn:Hcut; [|discriminate].
  destruct chunks as [|c0 cs]; [discriminate|]. cbn [is_nil].
  destruct (summarize_chunks (c0 :: cs) candidate problem)
    as [|chunk_summary rest] eqn:Hsum; [discriminate|].
  cbn [is_nil]. intros [= <-].
  cbn [fs_path fs_relative_path fs_language symbols summary].
  exists text, (c0 :: cs). rewrite Hsum. repeat split; auto.
  - intros Hempty. subst text. cbn in Hcut. discriminate.
  - destruct (summarize_chunks_successes (c0 :: cs) candidate problem
                chunk_summary) as (chunk & Hc & Hok).
    + rewrite Hsum. now left.
    + eauto.
Qed.

(** X21. Every summary [summarize_candidates] returns comes from a
    candidate: it carries the path, the relative path and the language of a
    candidate of the list whose text was read, is not empty, was cut into
    chunks, and of which the language model summarized at least one chunk;
    its symbols are the symbol table of that text, and its summary combines
    the chunk summaries that were returned. There are never more summaries
    than candidates. *)
Theorem summaries_come_from_candidates (candidates : list FileCandidate)
    (problem : string) (summaries : list FileSummary) :
  summarize_candidates candidates problem = Some summaries ->
  (List.length summaries <= List.length candidates)%nat /\
  (forall s, In s summaries ->
     exists candidate text chunks,
       In candidate candidates /\
       read_text (path candidate) = Some text /\
       _chunk_text text = Some chunks /\
       fs_path s = path candidate /\
       fs_relative_path s = relative_path candidate /\
       fs_language s = language candidate /\
       symbols s = extract_symbol_table text (language candidate) /\
       summary s = _combine_chunk_summaries
                     (summarize_chunks chunks candidate problem) /\
       text <> "" /\
       exists chunk chunk_summary,
         In chunk chunks /\
         _summarize_chunk chunk candidate problem = Some chunk_summary).
Proof.
  revert summaries.
  induction candidates as [|c rest IH]; intros summaries;
    cbn [Summarizer.summarize_candidates].
  - intros Hs. apply Some_eq in Hs. subst summaries.
    split; [apply le_n | intros s []].
  - destruct (summarize_candidate c problem) as [|s0|] eqn:Hc;
      [| |discriminate].
    + intros Hs. destruct (IH _ Hs) as [Hlen Hall].
      split; [cbn [List.length]; lia|].
      intros s Hin. destruct (Hall s Hin) as (c' & text & chunks & Hc' & H).
      exists c', text, chunks. split; [now right | exact H].
    + destruct (summarize_candidates rest problem) as [tail|];
        [|discriminate].
      cbn [option_map]. intros Hs. apply Some_eq in Hs. subst summaries.
      destruct (IH _ eq_refl) as [Hlen Hall].
      split; [cbn [List.length]; lia|].
      intros s [<- | Hin].
      * destruct (summarize_candidate_Summarized _ _ _ Hc)
          as (text & chunks & H).
        exists c, text, chunks. split; [now left | exact H].
      * destruct (Hall s Hin) as (c' & text & chunks & Hc' & H).
        exists c', text, chunks. split; [now right | exact H].
Qed.

End MoreSummarizerFacts.

(** ** The directory overview *)

Section OverviewFacts.
Import Text Symbols Selection Overview.
Local Open Scope list_scope.

Lemma string_ltb_asym a b : String.ltb a b = true -> String.ltb b a = false.
Proof.
  unfold String.ltb. rewrite (String.compare_antisym b a).
  destruct (String.compare a b); cbn; congruence.
Qed.

Lemma key_lt_asym a b : key_lt a b = true -> key_lt b a = false.
Proof.
  unfold key_lt. rewrite (Z.eqb_sym (fst b) (fst a)).
  destruct (fst a =? fst b) eqn:Heq; cbn [negb].
  - apply string_ltb_asym.
  - intros Hlt. apply Z.ltb_lt in Hlt. apply Z.ltb_ge. lia.
Qed.

Lemma key_lt_depth a b : key_lt b a = false -> fst a <= fst b.
Proof.
  unfold key_lt. destruct (fst b =? fst a) eqn:Heq; cbn [negb].
  - apply Z.eqb_eq in Heq. lia.
  - intros Hlt. apply Z.ltb_ge in Hlt. exact Hlt.
Qed.

Section AscendingSort.
Context {A K : Type} (lt : K -> K -> bool) (key : A -> K).
Hypothesis lt_asym : forall a b, lt a b = true -> lt b a = false.

Local Abbreviation not_above := (fun a b => lt (key b) (key a) = false).

Lemma insert_asc_HdRel x y l :
  not_above y x -> HdRel not_above y l ->
  HdRel not_above y (insert_asc lt key x l).
Proof.
  intros Hyx Hl. destruct l as [|z l]; cbn [insert_asc].
  - now constructor.
  - destruct (lt (key z) (key x)); constructor; [now inversion Hl | exact Hyx].
Qed.

Lemma insert_asc_sorted x l :
  Sorted not_above l -> Sorted not_above (insert_asc lt key x l).
Proof.
  induction 1 as [|y l Hl IH Hhd]; cbn [insert_asc].
  - repeat constructor.
  - destruct (lt (key y) (key x)) eqn:Hyx.
    + constructor; [exact IH|].
      apply insert_asc_HdRel; [|exact Hhd]. now apply lt_asym.
    + repeat constructor; assumption.
Qed.

(** [sorted(..., key=...)] returns a list in which no element has a key
    above the key of the next one. *)
Lemma sort_by_ascending l : Sorted not_above (sort_by lt key false l).
Proof.
  unfold sort_by. induction l as [|x l IH]; cbn [fold_right].
  - constructor.
  - now apply insert_asc_sorted.
Qed.

End AscendingSort.

Lemma Sorted_weaken {A} (R R' : A -> A -> Prop) l :
  (forall a b, R a b -> R' a b) -> Sorted R l -> Sorted R' l.
Proof.
  intros HR. induction 1 as [|x l Hl IH Hhd]; constructor; [exact IH|].
  destruct Hhd; constructor; auto.
Qed.

Lemma StronglySorted_filter {A} (R : A -> A -> Prop) f l :
  StronglySorted R l -> StronglySorted R (filter f l).
Proof.
  induction 1 as [|x l Hl IH Hx]; cbn [filter]; [constructor|].
  destruct (f x); [|exact IH].
  constructor; [exact IH|].
  apply Forall_forall. intros y Hy. apply filter_In in Hy as [Hy _].
  rewrite Forall_forall in Hx. now apply Hx.
Qed.

Variable root : Path.
Variable branch : string.

Local Abbreviation overview_line := (overview_line root branch).
Local Abbreviation overview_lines := (overview_lines root branch).
Local Abbreviation shown := (shown root branch).
Local Abbreviation display := (display branch).

Local Abbreviation line_for := (line_for branch).

Lemma overview_line_Some n line :
  overview_line n = Some line <->
  1 <= depth_of n <= MAX_TREE_DEPTH /\
  (is_dir n = true \/
   mem (lower (suffix (root ++ rel (entry n)))) SKIP_EXTENSIONS = false) /\
  line = line_for n.
Proof.
  unfold Overview.overview_line, line_for, depth_of, MAX_TREE_DEPTH.
  destruct (rel (entry n)) as [|part parts] eqn:Hrel; cbn [is_nil].
  - cbn [List.length]. split; [discriminate | lia].
  - rewrite <- Hrel.
    destruct (Z.of_nat (List.length (rel (entry n))) >? 3) eqn:Hdeep;
      rewrite Z.gtb_ltb in Hdeep;
      [apply Z.ltb_lt in Hdeep | apply Z.ltb_ge in Hdeep].
    + split; [discriminate | lia].
    + assert (1 <= Z.of_nat (List.length (rel (entry n))))
        by (rewrite Hrel; cbn [List.length]; lia).
      destruct (is_dir n).
      * split; [intros [= <-]; auto | intros (_ & _ & ->); reflexivity].
      * destruct (mem _ SKIP_EXTENSIONS).
        -- split; [discriminate | intros (_ & [H1 | H1] & _); discriminate].
        -- split; [intros [= <-]; auto | intros (_ & _ & ->); reflexivity].
Qed.

(** X22. The overview has one line for every entry at depth 1 to 3 that is a
    directory or a file without a noise extension, and no other line. The
    noise directory names play no part: entries in [.git] or [node_modules]
    are listed like all others. *)
Theorem overview_lists_shallow_entries (tree : list Node) (line : string) :
  In line (overview_lines tree) <->
  exists n,
    In n tree /\
    1 <= depth_of n <= MAX_TREE_DEPTH /\
    (is_dir n = true \/
     mem (lower (suffix (root ++ rel (entry n)))) SKIP_EXTENSIONS = false) /\
    line = line_for n.
Proof.
  unfold Overview.overview_lines. rewrite in_flat_map. split.
  - intros (n & Hn & Hline).
    apply (Permutation_in _ (sort_by_perm key_lt (sort_key root) false tree))
      in Hn.
    exists n. split; [exact Hn|]. apply overview_line_Some.
    destruct (overview_line n); cbn in Hline;
      [destruct Hline as [-> | []]; reflexivity | destruct Hline].
  - intros (n & Hn & Hconds). apply overview_line_Some in Hconds.
    exists n. split.
    + exact (Permutation_in _
               (Permutation_sym
                  (sort_by_perm key_lt (sort_key root) false tree)) Hn).
    + rewrite Hconds. now left.
Qed.

(** X23. The overview is written level by level: its lines are the lines
    of the entries shown, each of them an entry of the tree, and these stand
    in ascending order of depth, so all entries of depth 1 come before any
    entry of depth 2, and those before any entry of depth 3. *)
Theorem overview_breadth_first (tree : list Node) :
  overview_lines tree = map line_for (shown tree) /\
  (forall n, In n (shown tree) -> In n tree) /\
  StronglySorted (fun a b => depth_of a <= depth_of b) (shown tree).
Proof.
  unfold Overview.overview_lines, Overview.shown.
  set (sorted := sort_by key_lt (sort_key root) false tree).
  split; [|split].
  - induction sorted as [|n l IH]; cbn [flat_map filter map]; [reflexivity|].
    destruct (overview_line n) as [line|] eqn:Hline;
      cbn [Summarizer.option_list app map]; [|exact IH].
    apply overview_line_Some in Hline as (_ & _ & ->). now rewrite IH.
  - intros n Hn. apply filter_In in Hn as [Hn _].
    exact (Permutation_in _ (sort_by_perm key_lt (sort_key root) false tree)
             Hn).
  - apply StronglySorted_filter, Sorted_StronglySorted.
    + intros a b c Hab Hbc. lia.
    + apply (Sorted_weaken
               (fun a b => key_lt (sort_key root b) (sort_key root a) = false)).
      * intros a b Hab. apply key_lt_depth in Hab. exact Hab.
      * apply sort_by_ascending. exact key_lt_asym.
Qed.

End OverviewFacts.

(** ** Bounds of the weight *)

Section WeightBounds.
Import Symbols Selection WeightGrid Bounds.
Local Open Scope list_scope.

Ltac float_cases :=
  repeat match goal with
  | H : context [Pos.compare_cont Eq ?a ?b] |- _ =>
      change (Pos.compare_cont Eq a b) with (Pos.compare a b) in H
  | |- context [Pos.compare_cont Eq ?a ?b] =>
      change (Pos.compare_cont Eq a b) with (Pos.compare a b)
  | H : context [Z.compare ?a ?b] |- _ => destruct (Z.compare_spec a b)
  | |- context [Z.compare ?a ?b] => destruct (Z.compare_spec a b)
  | H : context [Pos.compare ?a ?b] |- _ => destruct (Pos.compare_spec a b)
  | |- context [Pos.compare ?a ?b] => destruct (Pos.compare_spec a b)
  end;
  subst; cbn in *; try discriminate; try reflexivity; try lia.

Lemma SFltb_leb x y : SFltb x y = true -> SFleb x y = true.
Proof.
  unfold SFltb, SFleb, SFcompare.
  destruct x as [[]|[]| |[] mx ex], y as [[]|[]| |[] my ey];
    intros H; try discriminate; try reflexivity; float_cases.
Qed.

Lemma SFltb_not_nan x y : SFltb x y = true -> SFeqb y y = true.
Proof.
  unfold SFltb, SFeqb, SFcompare.
  destruct x as [[]|[]| |[] mx ex], y as [[]|[]| |[] my ey];
    intros H; try discriminate; try reflexivity; float_cases.
Qed.

Lemma SFleb_refl x : SFeqb x x = true -> SFleb x x = true.
Proof.
  unfold SFleb, SFeqb, SFcompare.
  destruct x as [[]|[]| |[] mx ex];
    intros H; try discriminate; try reflexivity; float_cases.
Qed.

(** A float below another is also at most that one, and a float that is
    above another is not a NaN. *)
Lemma float_ltb_leb (x y : float) :
  PrimFloat.ltb x y = true -> PrimFloat.leb x y = true.
Proof. rewrite ltb_spec, leb_spec. apply SFltb_leb. Qed.

Lemma float_ltb_not_nan (x y : float) :
  PrimFloat.ltb x y = true -> PrimFloat.is_nan y = false.
Proof.
  unfold PrimFloat.is_nan. rewrite negb_false_iff, ltb_spec, eqb_spec.
  apply SFltb_not_nan.
Qed.

Lemma float_leb_refl (x : float) :
  PrimFloat.is_nan x = false -> PrimFloat.leb x x = true.
Proof.
  unfold PrimFloat.is_nan. rewrite negb_false_iff, leb_spec, eqb_spec.
  apply SFleb_refl.
Qed.

Lemma weight_corners lb sb :
  is_bonus_pair lb sb ->
  PrimFloat.ltb 0 (weight_at max_depth max_size lb sb) = true /\
  PrimFloat.leb (weight_at 0 0 lb sb) top_weight = true.
Proof.
  intros [[-> | ->] [-> | ->]]; split; vm_compute; reflexivity.
Qed.

Lemma weight_at_bounds depth size lb sb :
  0 <= depth <= max_depth -> 0 <= size <= max_size -> is_bonus_pair lb sb ->
  PrimFloat.ltb 0 (weight_at depth size lb sb) = true /\
  PrimFloat.leb (weight_at depth size lb sb) top_weight = true.
Proof.
  intros Hd Hs Hpair.
  destruct (weight_corners lb sb Hpair) as [Hlow Hhigh].
  assert (Hlow1 : PrimFloat.ltb 0 (weight_at depth max_size lb sb) = true).
  { destruct (Z.eq_dec depth max_depth) as [-> | Hne]; [exact Hlow|].
    eapply float_ltb_trans; [exact Hlow|].
    pose proof (weight_depth_decreasing max_size lb sb
                  (Z.to_nat (max_depth - depth - 1)) depth) as H.
    replace (depth + 1 + Z.of_nat (Z.to_nat (max_depth - depth - 1)))
      with max_depth in H by lia.
    apply H; auto; unfold max_size; lia. }
  assert (Hlow2 : PrimFloat.ltb 0 (weight_at depth size lb sb) = true).
  { destruct (Z.eq_dec size max_size) as [-> | Hne]; [exact Hlow1|].
    eapply float_ltb_trans; [exact Hlow1|].
    pose proof (weight_size_decreasing depth lb sb
                  (Z.to_nat (max_size - size - 1)) size) as H.
    replace (size + 1 + Z.of_nat (Z.to_nat (max_size - size - 1)))
      with max_size in H by lia.
    apply H; auto; lia. }
  split; [exact Hlow2|].
  assert (Hhigh1 : PrimFloat.leb (weight_at depth 0 lb sb) top_weight = true).
  { destruct (Z.eq_dec depth 0) as [-> | Hne]; [exact Hhigh|].
    eapply float_leb_trans; [|exact Hhigh]. apply float_ltb_leb.
    pose proof (weight_depth_decreasing 0 lb sb (Z.to_nat (depth - 1)) 0) as H.
    replace (0 + 1 + Z.of_nat (Z.to_nat (depth - 1))) with depth in H by lia.
    apply H; auto; unfold max_size; lia. }
  destruct (Z.eq_dec size 0) as [-> | Hne]; [exact Hhigh1|].
  eapply float_leb_trans; [|exact Hhigh1]. apply float_ltb_leb.
  pose proof (weight_size_decreasing depth lb sb (Z.to_nat (size - 1)) 0) as H.
  replace (0 + 1 + Z.of_nat (Z.to_nat (size - 1))) with size in H by lia.
  apply H; auto; lia.
Qed.

Lemma depth_of_nonneg relative_path : 0 <= depth_of relative_path.
Proof. unfold depth_of. lia. Qed.

Lemma compute_weight_bounds relative_path size language :
  depth_of relative_path <= max_depth -> 0 <= size <= max_size ->
  PrimFloat.ltb 0 (compute_weight relative_path size language) = true /\
  PrimFloat.leb (compute_weight relative_path size language) top_weight = true.
Proof.
  intros Hd Hs. rewrite compute_weight_factors.
  apply weight_at_bounds; auto.
  - split; [apply depth_of_nonneg | exact Hd].
  - apply language_special_bonus_pair.
Qed.

(** X24. For every file of at most 200000 bytes at a depth of at most 15,
    the binary64 weight [compute_weight] returns is a number above 0 and at
    most [1.5 * 1.2], the weight of an empty top-level file with both
    bonuses; it is never a NaN. *)
Theorem weight_positive_and_bounded (relative_path : Path) (size : Z)
    (language : string) :
  depth_of relative_path <= max_depth -> 0 <= size <= max_size ->
  let w := compute_weight relative_path size language in
  PrimFloat.ltb 0 w = true /\
  PrimFloat.leb w top_weight = true /\
  PrimFloat.is_nan w = false.
Proof.
  intros Hd Hs w. subst w.
  destruct (compute_weight_bounds relative_path size language Hd Hs)
    as [Hlow Hhigh].
  repeat split; auto. exact (float_ltb_not_nan _ _ Hlow).
Qed.

Lemma candidate_of_weight root settings e c :
  candidate_of root settings e = Some c ->
  weight c = compute_weight (rel e) (size_bytes c) (language c) /\
  relative_path c = rel e /\
  0 < size_bytes c <= max_file_bytes settings.
Proof.
  intros Hc. pose proof (candidate_of_Some _ _ _ _ Hc) as (_ & Hrel & Hsize & _).
  repeat split; try lia; auto.
  revert Hc. unfold candidate_of.
  destruct (_ || _)%bool; [discriminate|].
  destruct (get _ SOURCE_EXTENSIONS) as [lang|]; [|discriminate].
  destruct (Text.is_empty lang); [discriminate|].
  now intros [= <-].
Qed.

(** X25. With [max_file_bytes] at most 200000 (its default) and no file
    more than 15 directories deep, the list [collect_source_candidates]
    returns is in descending order of weight throughout: the weight of every
    candidate is positive and at least the weight of every later one. *)
Theorem candidates_in_descending_order (root : Path) (settings : Settings)
    (tree : list Entry) :
  max_file_bytes settings <= max_size ->
  (forall e, In e tree -> depth_of (rel e) <= max_depth) ->
  Forall (fun c => PrimFloat.ltb 0 (weight c) = true)
         (collect_source_candidates root settings tree) /\
  StronglySorted (fun a b => PrimFloat.leb (weight b) (weight a) = true)
                 (collect_source_candidates root settings tree).
Proof.
  intros Hmax Hdepth.
  assert (Hpos : Forall (fun c => PrimFloat.ltb 0 (weight c) = true)
                        (collect_source_candidates root settings tree)).
  { apply Forall_forall. intros c Hc.
    apply collect_In_gather, gather_In_entry in Hc as (e & He & _ & Hcand).
    apply candidate_of_weight in Hcand as (-> & _ & Hsize).
    apply compute_weight_bounds; [now apply Hdepth | lia]. }
  split; [exact Hpos|].
  apply not_below_descending.
  - destruct (collect_prefix_of_sorted root settings tree) as [k ->].
    apply Sorted_firstn.
    exact (sort_by_reverse_sorted PrimFloat.ltb weight float_ltb_asym _).
  - eapply Forall_impl; [|exact Hpos]. cbn beta.
    intros c Hc. exact (float_ltb_not_nan _ _ Hc).
Qed.

End WeightBounds.

(** ** What passes the validation *)

Section ValidateFacts.
Import Text Report.

Variable json_loads : string -> option json.

Local Abbreviation _validate_report := (_validate_report json_loads).

Lemma has_key_In k members :
  existsb (fun m : string * json => String.eqb (fst m) k) members = true
  <-> In k (map fst members).
Proof.
  rewrite existsb_exists, in_map_iff. split.
  - intros (m & Hin & Heq). apply String.eqb_eq in Heq. eauto.
  - intros (m & Heq & Hin). exists m. split; [exact Hin|].
    now apply String.eqb_eq.
Qed.

(** X26. On a JSON object the validation does what it is meant to do: the
    object is returned unchanged when [feature_analysis] and
    [execution_plan_suggestion] are both among its keys, whatever other keys
    it has, and [ReportGenerationError] with the missing-keys message is
    raised when one of the two is not. *)
Theorem validate_object_needs_both_keys (text : string)
    (members : list (string * json)) :
  json_loads text = Some (JObject members) ->
  (In "feature_analysis" (map fst members) ->
   In "execution_plan_suggestion" (map fst members) ->
   _validate_report text = Returned (JObject members)) /\
  (~ In "feature_analysis" (map fst members) \/
   ~ In "execution_plan_suggestion" (map fst members) ->
   _validate_report text = ReportGenerationError missing_keys).
Proof.
  intros Hload. unfold Report._validate_report. rewrite Hload.
  cbn [contains].
  pose proof (has_key_In "feature_analysis" members) as Hfa.
  pose proof (has_key_In "execution_plan_suggestion" members) as Heps.
  destruct (existsb _ members) eqn:H1 in Hfa |- *;
    destruct (existsb _ members) eqn:H2 in Heps |- *.
  all: split; [intros Ha Hb | intros [Hn | Hn]];
    try reflexivity;
    try (apply Hfa in Ha; discriminate);
    try (apply Heps in Hb; discriminate);
    try (exfalso; apply Hn; first [now apply Hfa | now apply Heps]).
Qed.

Lemma starts_with_app k rest : starts_with k (k ++ rest) = true.
Proof.
  induction k as [|c k IH]; cbn [String.append starts_with]; [reflexivity|].
  now rewrite Ascii.eqb_refl, IH.
Qed.

Lemma occurs_in_app k before rest :
  occurs_in k (before ++ k ++ rest) = true.
Proof.
  induction before as [|c before IH]; cbn [String.append].
  - pose proof (starts_with_app k rest) as Hk.
    destruct (k ++ rest)%string; cbn [occurs_in]; now rewrite Hk.
  - cbn [occurs_in]. rewrite IH. apply orb_true_r.
Qed.

(** X27. A JSON string passes as well: membership on a [str] is the
    substring test, so a string that merely mentions [feature_analysis] and
    [execution_plan_suggestion] is returned as the report. *)
Theorem validate_accepts_string (text s a b c d : string) :
  json_loads text = Some (JString s) ->
  s = a ++ "feature_analysis" ++ b ->
  s = c ++ "execution_plan_suggestion" ++ d ->
  _validate_report text = Returned (JString s).
Proof.
  intros Hload Hfa Heps. unfold Report._validate_report. rewrite Hload.
  cbn [contains].
  rewrite Hfa at 1. rewrite occurs_in_app.
  rewrite Heps at 1. rewrite occurs_in_app. reflexivity.
Qed.

End ValidateFacts.

(** ** Runs on the samples *)

Section MoreRuns.
Import MoreSamples.
Import Text Chunker Regex Symbols Scopes Selection.
Local Open Scope list_scope.

Lemma chunk_closed_only_when_full_witness :
  total_tokens char_encode_len 1 ["alpha"; "beta"]
  + line_cost char_encode_len 3 "gamma" > 30.
Proof.
  destruct (chunk_closed_only_when_full char_encode_len 30 three_lines []
              (mkCodeChunk ("0001: alpha" ++ nl ++ "0002: beta") 1 2)
              (mkCodeChunk "0003: gamma" 3 3) [] eq_refl)
    as (_ & l & Hl & Hgt).
  injection Hl as <-. exact Hgt.
Defined.

Lemma chunk_single_when_fits_witness :
  _chunk_text char_encode_len 100 three_lines
  = Some [mkCodeChunk
            ("0001: alpha" ++ nl ++ "0002: beta" ++ nl ++ "0003: gamma") 1 3].
Proof.
  apply (chunk_single_when_fits char_encode_len 100 three_lines);
    [discriminate | reflexivity | vm_compute; discriminate].
Defined.

Lemma chunk_count_minimal_witness :
  (List.length [mkCodeChunk ("0001: alpha" ++ nl ++ "0002: beta") 1 2;
                mkCodeChunk "0003: gamma" 3 3] <= 3)%nat.
Proof.
  apply (chunk_count_minimal char_encode_len 30 three_lines
           [mkCodeChunk "0001: alpha" 1 1; mkCodeChunk "0002: beta" 2 2;
            mkCodeChunk "0003: gamma" 3 3]); [|reflexivity].
  apply (chunked_cons char_encode_len 30 1 ["alpha"] ["beta"; "gamma"]);
    [discriminate | left; vm_compute; discriminate |].
  apply (chunked_cons char_encode_len 30 2 ["beta"] ["gamma"]);
    [discriminate | left; vm_compute; discriminate |].
  apply (chunked_cons char_encode_len 30 3 ["gamma"] []);
    [discriminate | left; vm_compute; discriminate |].
  constructor.
Defined.

Lemma chunk_text_lines_witness :
  splitlines ("0001: alpha" ++ nl ++ "0002: beta")
  = ["0001: alpha"; "0002: beta"].
Proof.
  destruct (chunk_text_lines char_encode_len 30 three_lines
              [mkCodeChunk ("0001: alpha" ++ nl ++ "0002: beta") 1 2;
               mkCodeChunk "0003: gamma" 3 3]
              (mkCodeChunk ("0001: alpha" ++ nl ++ "0002: beta") 1 2)
              eq_refl (or_introl eq_refl)) as [H _].
  exact H.
Defined.

Lemma summaries_come_from_candidates_witness :
  exists candidate text chunks,
    In candidate [a_py; b_py] /\
    sample_read_text (path candidate) = Some text /\
    _chunk_text char_encode_len 1800 text = Some chunks /\
    path candidate = ["/"; "repo"; "b.py"].
Proof.
  destruct (summaries_come_from_candidates sample_read_text char_encode_len
              default_settings sample_summarize_chunk [a_py; b_py]
              "requirements"
              [Summarizer.mkFileSummary
                 ["/"; "repo"; "b.py"] ["b.py"] "Python" "defines f"
                 [mkSymbolInfo "f" "function" 1 2]] eq_refl) as [_ Hall].
  destruct (Hall _ (or_introl eq_refl))
    as (candidate & text & chunks & Hin & Hread & Hcut & Hpath & _).
  exists candidate, text, chunks. repeat split; auto.
Defined.

Ltac by_cases_on_lines Hl :=
  repeat (destruct Hl as [<- | Hl]; [vm_compute; intuition discriminate|]);
  destruct Hl.

Lemma py_def_in_class_qualified_witness :
  In (mkSymbolInfo "A.f" "function" 3 3)
     (_extract_python_symbols ["class A:"; "    x = 1"; "    def f(self):"]).
Proof.
  apply (py_def_in_class_qualified [] ["    x = 1"] [] "class A:"
           "    def f(self):" "A" "f"); try reflexivity.
  intros m Hl. by_cases_on_lines Hl.
Defined.

Lemma py_dedent_unqualifies_witness :
  In (mkSymbolInfo "f" "function" 3 3)
     (_extract_python_symbols ["class A:"; "    def g(self):"; "def f():"]).
Proof.
  apply (py_dedent_unqualifies ["class A:"; "    def g(self):"] []
           "def f():" "f"); try reflexivity.
  intros m Hl. by_cases_on_lines Hl.
Defined.

Lemma ts_method_in_open_class_witness :
  In (mkSymbolInfo "Foo.m2" "method" 4 4)
     (_extract_typescript_symbols
        ["class Foo {"; "  m1() {"; "  }"; "  m2() {"; "  }"; "}"]).
Proof.
  apply (ts_method_in_open_class [] ["  m1() {"; "  }"] ["  }"; "}"]
           "class Foo {" "  m2() {" "Foo" "m2"); try reflexivity.
  - cbn [stays_open]. repeat split; vm_compute; discriminate.
  - intros m Hl. by_cases_on_lines Hl.
Defined.

Lemma ts_class_brace_on_next_line_witness :
  Forall (fun s => kind s = "function" \/
                   kind s = "method" /\
                   exists l,
                     line_of ["class Foo"; "{"; "  bar() {"; "  }"; "}"] s
                     = Some l /\ is_class_line l = true)
         (_extract_typescript_symbols
            ["class Foo"; "{"; "  bar() {"; "  }"; "}"]).
Proof.
  apply (ts_class_brace_on_next_line
           ["class Foo"; "{"; "  bar() {"; "  }"; "}"]).
  intros l Hl. by_cases_on_lines Hl.
Defined.

Lemma ts_no_class_only_functions_witness :
  Forall (fun s => kind s = "function")
         (_extract_typescript_symbols ts_function_sample).
Proof.
  apply (ts_no_class_only_functions ts_function_sample).
  intros l Hl. by_cases_on_lines Hl.
Defined.

Lemma eligible_file_selected_witness :
  In (mkFileCandidate ["/"; "repo"; "a.py"] ["a.py"] "Python" 10
                      (compute_weight ["a.py"] 10 "Python"))
     (collect_source_candidates sample_root default_settings sample_tree).
Proof.
  apply (eligible_file_selected sample_root default_settings sample_tree
           (mkEntry ["a.py"] true 10) "Python").
  - now left.
  - reflexivity.
  - intros part Hl. by_cases_on_lines Hl.
  - cbn. lia.
  - reflexivity.
  - vm_compute. discriminate.
Defined.

Lemma root_below_noise_dir_selects_nothing_witness :
  collect_source_candidates ["/"; "build"; "repo"] default_settings sample_tree
  = [].
Proof.
  apply (root_below_noise_dir_selects_nothing ["/"; "build"; "repo"]
           default_settings sample_tree "build");
    [right; now left | reflexivity].
Defined.

Lemma truncated_prompt_loses_final_instruction_witness :
  exists kept cut,
    join newline (Prompt.prompt_lines "list the features"
                    (Prompt.mkAnalysisArtifacts "" [] []))
    = (kept ++ cut ++ "Only output JSON without additional commentary.")%string
    /\ Prompt._compose_prompt "list the features"
         (Prompt.mkAnalysisArtifacts "" [] []) 200
       = (kept ++ Prompt.truncation_marker)%string.
Proof.
  apply (truncated_prompt_loses_final_instruction "list the features"
           (Prompt.mkAnalysisArtifacts "" [] []) 200).
  vm_compute. reflexivity.
Defined.

Lemma weight_positive_and_bounded_witness :
  PrimFloat.ltb 0 (compute_weight ["src"; "b.ts"] 20 "TypeScript") = true /\
  PrimFloat.leb (compute_weight ["src"; "b.ts"] 20 "TypeScript")
                Bounds.top_weight = true /\
  PrimFloat.is_nan (compute_weight ["src"; "b.ts"] 20 "TypeScript") = false.
Proof.
  apply (weight_positive_and_bounded ["src"; "b.ts"] 20 "TypeScript").
  - vm_compute. discriminate.
  - unfold WeightGrid.max_size. lia.
Defined.

Lemma candidates_in_descending_order_witness :
  StronglySorted (fun a b => PrimFloat.leb (weight b) (weight a) = true)
    (collect_source_candidates sample_root default_settings sample_tree).
Proof.
  destruct (candidates_in_descending_order sample_root default_settings
              sample_tree) as [_ H].
  - vm_compute. discriminate.
  - intros e Hl. by_cases_on_lines Hl.
  - exact H.
Defined.

Lemma validate_object_needs_both_keys_witness :
  Report._validate_report more_loads sample_object_text
  = Report.Returned sample_object.
Proof.
  destruct (validate_object_needs_both_keys more_loads sample_object_text
              [ ("feature_analysis", Report.JArray []);
                ("execution_plan_suggestion", Report.JString "run it");
                ("notes", Report.JNull) ] eq_refl) as [H _].
  apply H; cbn; auto.
Defined.

Lemma validate_accepts_string_witness :
  Report._validate_report more_loads (quoted sample_string)
  = Report.Returned (Report.JString sample_string).
Proof.
  apply (validate_accepts_string more_loads (quoted sample_string)
           sample_string "no " " and no execution_plan_suggestion today"
           "no feature_analysis and no " " today");
    reflexivity.
Defined.

End MoreRuns.
